(** * DocAgentLine: pipeline engine, chunker, model client and submission route

    A shallow embedding of the parts of the DocAgentLine sources that the
    specification's properties talk about:

    - [utils/errors.py]                      (module [Errors]),
    - [db/models.py]                         (module [Db]),
    - [pipeline/registry.py], [pipeline/engine.py]   (module [Engine]),
    - [pipeline/stages/chunking.py]          (module [Chunking]),
    - [services/llm/openai_provider.py], [services/llm/huggingface_provider.py]
                                             (module [LLM]),
    - [app/api/routes/documents.py]          (module [Documents]).

    Conventions.  Python [str] values are Rocq [string]s (sequences of 8-bit
    characters).  Database tables are lists of rows in insertion order.
    Wall-clock values ([time.time()], [datetime.utcnow()], latencies) are not
    modelled.  Python floats that the engine computes with (the back-off) are
    exact rationals. *)

From Stdlib Require Import ZArith QArith Qminmax Lqa String Ascii List Lia Bool.
From stdpp Require Import base option list strings gmap pretty.

Local Open Scope string_scope.
Local Open Scope nat_scope.
Local Open Scope list_scope.

(* ===================================================================== *)
(** ** Python string primitives used by the sources                       *)
(* ===================================================================== *)

Module PyStr.

(** [str.isspace] on one character, for code points below 256: the
    characters that [str.strip], [str.split] and the regex class [\s]
    treat as white space. *)
Definition isspace (c : ascii) : bool :=
  let n := nat_of_ascii c in
  ((9 <=? n) && (n <=? 13)) || ((28 <=? n) && (n <=? 32))
  || (n =? 133) || (n =? 160).

Definition newline : ascii := ascii_of_nat 10.

Definition is_newline (c : ascii) : bool := Ascii.eqb c newline.

(** ["\n\n"] as a string. *)
Definition nlnl : string := String newline (String newline EmptyString).

Fixpoint lstrip (s : string) : string :=
  match s with
  | EmptyString => EmptyString
  | String c r => if isspace c then lstrip r else s
  end.

Fixpoint rstrip (s : string) : string :=
  match s with
  | EmptyString => EmptyString
  | String c r =>
      match rstrip r with
      | EmptyString => if isspace c then EmptyString else String c EmptyString
      | r' => String c r'
      end
  end.

(** [s.strip()] *)
Definition strip (s : string) : string := rstrip (lstrip s).

(** [s[:n]] for [n >= 0] *)
Fixpoint slice_to (n : nat) (s : string) : string :=
  match n, s with
  | S n', String c r => String c (slice_to n' r)
  | _, _ => EmptyString
  end.

(** [s[n:]] for [n >= 0] *)
Fixpoint slice_from (n : nat) (s : string) : string :=
  match n, s with
  | S n', String _ r => slice_from n' r
  | _, _ => s
  end.

(** [s[:-n]] for [n > 0] *)
Definition slice_drop_last (n : nat) (s : string) : string :=
  slice_to (String.length s - n) s.

(** [s.startswith(p)] *)
Definition startswith (p s : string) : bool := String.prefix p s.

(** [s.endswith(p)] *)
Definition endswith (p s : string) : bool :=
  (String.length p <=? String.length s)
  && String.eqb (slice_from (String.length s - String.length p) s) p.

(** [sep.join(l)] *)
Fixpoint join (sep : string) (l : list string) : string :=
  match l with
  | [] => EmptyString
  | [x] => x
  | x :: rest => x +:+ sep +:+ join sep rest
  end.

(** [s.split()]: the maximal runs of non-space characters.  [cur] holds
    the characters of the word being read, most recent first. *)
Fixpoint split_go (s : string) (cur : list ascii) : list string :=
  match s with
  | EmptyString =>
      match cur with
      | [] => []
      | _ => [string_of_list_ascii (rev cur)]
      end
  | String c r =>
      if isspace c then
        match cur with
        | [] => split_go r []
        | _ => string_of_list_ascii (rev cur) :: split_go r []
        end
      else split_go r (c :: cur)
  end.

Definition split (s : string) : list string := split_go s [].

(** Length of the longest match of the regex [\s*\n] at the start of [s],
    if there is one (the star is greedy, so the match ends at the last
    newline of the white-space run that starts [s]). *)
Fixpoint sep_len (s : string) : option nat :=
  match s with
  | EmptyString => None
  | String c r =>
      if isspace c then
        match sep_len r with
        | Some n => Some (S n)
        | None => if is_newline c then Some 1 else None
        end
      else None
  end.

(** [re.split(r"\n\s*\n", s)].  [skip] counts the characters of the
    current separator still to be dropped; [cur] holds the piece being
    read, most recent character first. *)
Fixpoint re_split_go (s : string) (cur : list ascii) (skip : nat)
  : list string :=
  match s with
  | EmptyString => [string_of_list_ascii (rev cur)]
  | String c r =>
      match skip with
      | S k => re_split_go r cur k
      | O =>
          if is_newline c then
            match sep_len r with
            | Some n => string_of_list_ascii (rev cur) :: re_split_go r [] n
            | None => re_split_go r (c :: cur) 0
            end
          else re_split_go r (c :: cur) 0
      end
  end.

Definition re_split_blank_lines (s : string) : list string :=
  re_split_go s [] 0.

End PyStr.

(* ===================================================================== *)
(** ** utils/errors.py                                                    *)
(* ===================================================================== *)

Module Errors.

(** The exception classes: the base class of the package, its eleven
    subclasses, and any class from outside the package ([KeyError],
    [ValueError], [json.JSONDecodeError], ...), named. *)
Inductive ExcClass : Type :=
| DocAgentLineError
| TransientExternalError
| ModelOutputError
| SchemaValidationError
| PipelineStateError
| StorageError
| ConfigurationError
| SchemaRegistryError
| IngestionError
| ExtractionError
| ChunkingError
| EmbeddingError
| Builtin (name : string).

#[global] Instance ExcClass_eq_dec : EqDecision ExcClass.
Proof. solve_decision. Defined.

(** An instance of [Exception]: its class, its [message] argument and its
    [details] dictionary (keys and values already rendered by [repr]). *)
Record Exception : Type := mkException {
  exc_class : ExcClass;
  exc_message : string;
  exc_details : list (string * string)
}.

#[global] Instance Exception_eq_dec : EqDecision Exception.
Proof. solve_decision. Defined.

(** The classes of the package all derive from [DocAgentLineError], which
    derives from [Exception]; none derives from another. *)
Definition mro (c : ExcClass) : list ExcClass :=
  match c with
  | Builtin n =>
      if String.eqb n "Exception" then [Builtin n]
      else [Builtin n; Builtin "Exception"]
  | DocAgentLineError => [DocAgentLineError; Builtin "Exception"]
  | c => [c; DocAgentLineError; Builtin "Exception"]
  end.

Definition isinstance (e : Exception) (c : ExcClass) : bool :=
  bool_decide (c ∈ mro (exc_class e)).

Definition repr_dict_items (d : list (string * string)) : list string :=
  map (fun kv => fst kv +:+ ": " +:+ snd kv) d.

(** [str(e)]: [DocAgentLineError.__str__] for the package's classes, the
    message for the others. *)
Definition py_str (e : Exception) : string :=
  match exc_class e with
  | Builtin _ => exc_message e
  | _ =>
      match exc_details e with
      | [] => exc_message e
      | d => exc_message e +:+ " | Details: {"
               +:+ PyStr.join ", " (repr_dict_items d) +:+ "}"
      end
  end.

Definition is_retryable (error : Exception) : bool :=
  isinstance error TransientExternalError.

Definition classify_error (error : Exception) : string :=
  if isinstance error TransientExternalError then "transient_external"
  else if isinstance error ModelOutputError then "model_output"
  else if isinstance error SchemaValidationError then "schema_validation"
  else if isinstance error PipelineStateError then "pipeline_state"
  else if isinstance error StorageError then "storage"
  else if isinstance error ConfigurationError then "configuration"
  else if isinstance error SchemaRegistryError then "schema_registry"
  else if isinstance error IngestionError then "ingestion"
  else if isinstance error ExtractionError then "extraction"
  else if isinstance error ChunkingError then "chunking"
  else if isinstance error EmbeddingError then "embedding"
  else "unknown".

(** The outcome of a call: a returned value or a raised exception. *)
Inductive Result (A : Type) : Type :=
| Ok (a : A)
| Raise (e : Exception).
#[global] Arguments Ok {A} a.
#[global] Arguments Raise {A} e.

Definition rbind {A B} (r : Result A) (k : A -> Result B) : Result B :=
  match r with
  | Ok a => k a
  | Raise e => Raise e
  end.

(** The eleven named classes of the taxonomy. *)
Definition taxonomy : list ExcClass :=
  [ TransientExternalError; ModelOutputError; SchemaValidationError;
    PipelineStateError; StorageError; ConfigurationError;
    SchemaRegistryError; IngestionError; ExtractionError; ChunkingError;
    EmbeddingError ].

End Errors.

(* ===================================================================== *)
(** ** db/models.py: the tables the engine and the routes use             *)
(* ===================================================================== *)

Module Db.

Record Document : Type := mkDocument {
  doc_id : nat;
  doc_source : string;
  doc_content_hash : string;
  doc_schema_version : string;
  doc_status : string;
  doc_file_size_bytes : nat;
  doc_mime_type : string
}.

Record RawContent : Type := mkRawContent {
  raw_document_id : nat;
  raw_bytes : string;
  raw_is_hashed : bool
}.

Record PipelineRun : Type := mkPipelineRun {
  run_id : nat;
  run_document_id : nat;
  run_stage : string;
  run_status : string;
  run_attempt : nat;
  run_error_type : option string;
  run_error_message : option string;
  run_correlation_id : option string
}.

Record Metric : Type := mkMetric {
  metric_run_id : nat;
  metric_stage : string
}.

Record Chunk : Type := mkChunk {
  chunk_id : nat;
  chunk_document_id : nat;
  chunk_sequence : nat;
  chunk_text : string;
  chunk_token_count : nat
}.

Record Extraction : Type := mkExtraction {
  ext_id : nat;
  ext_chunk_id : nat;
  ext_schema_version : string;
  ext_json_result : string;
  ext_is_valid : bool
}.

(** The database: one list of rows per table, oldest row first. *)
Record Store : Type := mkStore {
  documents : list Document;
  raw_content : list RawContent;
  pipeline_runs : list PipelineRun;
  metrics : list Metric;
  chunks : list Chunk;
  extractions : list Extraction
}.

Definition empty_store : Store := mkStore [] [] [] [] [] [].

(** The key an [autoincrement] integer primary key gives to a new row:
    one more than the largest key in the table. *)
Definition next_id (ids : list nat) : nat := S (list_max ids).

Definition set_documents (f : list Document -> list Document) (s : Store)
  : Store :=
  mkStore (f (documents s)) (raw_content s) (pipeline_runs s) (metrics s)
          (chunks s) (extractions s).

Definition set_raw_content (f : list RawContent -> list RawContent)
  (s : Store) : Store :=
  mkStore (documents s) (f (raw_content s)) (pipeline_runs s) (metrics s)
          (chunks s) (extractions s).

Definition set_pipeline_runs (f : list PipelineRun -> list PipelineRun)
  (s : Store) : Store :=
  mkStore (documents s) (raw_content s) (f (pipeline_runs s)) (metrics s)
          (chunks s) (extractions s).

Definition set_metrics (f : list Metric -> list Metric) (s : Store)
  : Store :=
  mkStore (documents s) (raw_content s) (pipeline_runs s) (f (metrics s))
          (chunks s) (extractions s).

Definition with_doc_status (status : string) (d : Document) : Document :=
  mkDocument (doc_id d) (doc_source d) (doc_content_hash d)
             (doc_schema_version d) status (doc_file_size_bytes d)
             (doc_mime_type d).

(** [update(documents).where(documents.c.id == document_id)
      .values(status=status)] *)
Definition update_document_status (document_id : nat) (status : string)
  (docs : list Document) : list Document :=
  map (fun d => if doc_id d =? document_id then with_doc_status status d
                else d) docs.

(** [update(pipeline_runs).where(pipeline_runs.c.id == run_id).values(...)] *)
Definition update_run (rid : nat) (f : PipelineRun -> PipelineRun)
  (runs : list PipelineRun) : list PipelineRun :=
  map (fun r => if run_id r =? rid then f r else r) runs.

Definition mark_completed (r : PipelineRun) : PipelineRun :=
  mkPipelineRun (run_id r) (run_document_id r) (run_stage r) "completed"
                (run_attempt r) (run_error_type r) (run_error_message r)
                (run_correlation_id r).

Definition mark_failed (error_type error_message : string)
  (r : PipelineRun) : PipelineRun :=
  mkPipelineRun (run_id r) (run_document_id r) (run_stage r) "failed"
                (run_attempt r) (Some error_type) (Some error_message)
                (run_correlation_id r).

End Db.

(* ===================================================================== *)
(** ** pipeline/registry.py and pipeline/engine.py                        *)
(* ===================================================================== *)

Module Engine.
Import Errors Db.

(** What the engine does that is not a database write: calls of a stage's
    [execute] and calls of [asyncio.sleep]. *)
Inductive Event : Type :=
| EvExecute (stage_name : string) (document_id : nat)
| EvSleep (seconds : Q).

(** The state the engine runs in: the database, the log of events so
    far, and the generator behind [random.random()] (its sequence of
    samples and how many have been drawn). *)
Record World : Type := mkWorld {
  store : Store;
  trace : list Event;
  random_samples : nat -> Q;
  random_drawn : nat
}.

(** Computations that read and write the world and may raise. *)
Definition M (A : Type) : Type := World -> Result A * World.

Definition ret {A} (a : A) : M A := fun w => (Ok a, w).

Definition raise {A} (e : Exception) : M A := fun w => (Raise e, w).

Definition bind {A B} (c : M A) (k : A -> M B) : M B :=
  fun w =>
    match c w with
    | (Ok a, w') => k a w'
    | (Raise e, w') => (Raise e, w')
    end.

(** [try: c  except Exception as e: h e] *)
Definition try_except {A} (c : M A) (h : Exception -> M A) : M A :=
  fun w =>
    match c w with
    | (Ok a, w') => (Ok a, w')
    | (Raise e, w') => h e w'
    end.

Declare Scope engine_scope.
Delimit Scope engine_scope with engine.
Notation "'let*' x ':=' c 'in' k" := (bind c (fun x => k))
  (at level 10, x binder, c at level 100, k at level 200) : engine_scope.
Notation "c ';;' k" := (bind c (fun _ => k))
  (at level 100, k at level 200, right associativity) : engine_scope.
Local Open Scope engine_scope.

Definition db_read {A} (q : Store -> A) : M A :=
  fun w => (Ok (q (store w)), w).

Definition db_write (f : Store -> Store) : M unit :=
  fun w => (Ok tt, mkWorld (f (store w)) (trace w) (random_samples w)
                           (random_drawn w)).

Definition emit (ev : Event) : M unit :=
  fun w => (Ok tt, mkWorld (store w) (trace w ++ [ev]) (random_samples w)
                           (random_drawn w)).

(** [random.random()] *)
Definition random_random : M Q :=
  fun w => (Ok (random_samples w (random_drawn w)),
            mkWorld (store w) (trace w) (random_samples w)
                    (S (random_drawn w))).

(** [await asyncio.sleep(seconds)] *)
Definition asyncio_sleep (seconds : Q) : M unit := emit (EvSleep seconds).

(** A stage: [execute(document_id)] works on the database and either
    returns or raises. *)
Definition PipelineStage : Type := nat -> Store -> option Exception * Store.

(** [await stage.execute(document_id)] *)
Definition stage_execute (stage_name : string) (stage : PipelineStage)
  (document_id : nat) : M unit :=
  fun w =>
    let '(r, s') := stage document_id (store w) in
    (match r with None => Ok tt | Some e => Raise e end,
     mkWorld s' (trace w ++ [EvExecute stage_name document_id])
             (random_samples w) (random_drawn w)).

Record StageRegistry : Type := mkStageRegistry {
  _stages : gmap string PipelineStage;
  _order : list string
}.

(** [StageRegistry.__init__] *)
Definition default_order : list string :=
  [ "ingest"; "text_extraction"; "layout_normalization"; "chunking";
    "embedding"; "structured_extraction"; "validation"; "persistence";
    "metrics_and_audit" ].

Definition new_registry : StageRegistry := mkStageRegistry ∅ default_order.

Definition register (name : string) (stage : PipelineStage)
  (reg : StageRegistry) : StageRegistry :=
  mkStageRegistry (<[name := stage]> (_stages reg)) (_order reg).

(** [self._stages[name]] raises [KeyError] for a name not registered. *)
Definition get_stage (reg : StageRegistry) (name : string)
  : M PipelineStage :=
  match _stages reg !! name with
  | Some stage => ret stage
  | None => raise (mkException (Builtin "KeyError") ("'" +:+ name +:+ "'") [])
  end.

Definition get_ordered_stages (reg : StageRegistry) : list string :=
  _order reg.

(** The engine object: its registry and the settings [__init__] copies. *)
Record PipelineEngine : Type := mkPipelineEngine {
  registry : StageRegistry;
  max_retries : nat;
  backoff_base : Q;
  backoff_max : Q;
  use_jitter : bool
}.

(** Python's [min(a, b)]: [b] when [b < a], else [a]. *)
Definition py_min (a b : Q) : Q := if Qle_bool a b then a else b.

Definition is_completed_run (document_id : nat) (stage_name : string)
  (r : PipelineRun) : bool :=
  (run_document_id r =? document_id)
  && String.eqb (run_stage r) stage_name
  && String.eqb (run_status r) "completed".

Definition _is_stage_completed (document_id : nat) (stage_name : string)
  : M bool :=
  db_read (fun s =>
    match find (is_completed_run document_id stage_name) (pipeline_runs s)
    with
    | Some _ => true
    | None => false
    end).

Definition _create_run_record (document_id : nat) (stage_name : string)
  (attempt : nat) (correlation_id : option string) : M nat :=
  let* rid := db_read (fun s => next_id (map run_id (pipeline_runs s))) in
  db_write (set_pipeline_runs (fun runs =>
    runs ++ [mkPipelineRun rid document_id stage_name "running" attempt
                           None None correlation_id])) ;;
  ret rid.

Definition _get_run_stage (rid : nat) (s : Store) : string :=
  match find (fun r => run_id r =? rid) (pipeline_runs s) with
  | Some r => run_stage r
  | None => "unknown"
  end.

Definition _complete_run_record (rid : nat) : M unit :=
  db_write (set_pipeline_runs (update_run rid mark_completed)) ;;
  let* stage := db_read (_get_run_stage rid) in
  db_write (set_metrics (fun ms => ms ++ [mkMetric rid stage])).

Definition _fail_run_record (rid : nat) (error_type error_message : string)
  : M unit :=
  db_write (set_pipeline_runs
    (update_run rid
       (mark_failed error_type (PyStr.slice_to 1000 error_message)))) ;;
  let* stage := db_read (_get_run_stage rid) in
  db_write (set_metrics (fun ms => ms ++ [mkMetric rid stage])).

(** The back-off after a failed attempt, before jitter. *)
Definition backoff_before_jitter (self : PipelineEngine) (attempt : nat)
  : Q :=
  py_min (Qpower (backoff_base self) (Z.of_nat attempt - 1))
         (backoff_max self).

(** One pass through the body of the [while] loop.  [Some v] is
    [return v]; [None] is falling out of the [except] block, to the next
    iteration. *)
Definition attempt_once (self : PipelineEngine) (document_id : nat)
  (stage_name : string) (stage : PipelineStage)
  (correlation_id : option string) (attempt : nat) : M (option string) :=
  let* rid := _create_run_record document_id stage_name attempt
                                 correlation_id in
  try_except
    (stage_execute stage_name stage document_id ;;
     _complete_run_record rid ;;
     ret (Some "completed"))
    (fun e =>
       let error_type := classify_error e in
       _fail_run_record rid error_type (py_str e) ;;
       if negb (is_retryable e) then raise e
       else if max_retries self <? attempt then raise e
       else
         let backoff := backoff_before_jitter self attempt in
         let* backoff := (if use_jitter self
                          then let* r := random_random in
                               ret (backoff * ((1 # 2) + r))%Q
                          else ret backoff) in
         asyncio_sleep backoff ;;
         ret None).

(** The [while attempt <= self.max_retries + 1] loop.  [attempt] starts
    at 1 and only changes by the [attempt += 1] that ends the body, so
    the loop runs through the attempts [1 .. max_retries + 1] in order;
    [attempts] lists those still to come.  Leaving the loop raises. *)
Fixpoint retry_loop (self : PipelineEngine) (document_id : nat)
  (stage_name : string) (stage : PipelineStage)
  (correlation_id : option string) (attempts : list nat) : M string :=
  match attempts with
  | [] =>
      raise (mkException PipelineStateError "Unexpected retry loop exit" [])
  | attempt :: rest =>
      let* r := attempt_once self document_id stage_name stage
                             correlation_id attempt in
      match r with
      | Some v => ret v
      | None =>
          retry_loop self document_id stage_name stage correlation_id rest
      end
  end.

Definition _execute_stage_with_retry (self : PipelineEngine)
  (document_id : nat) (stage_name : string) (stage : PipelineStage)
  (correlation_id : option string) : M string :=
  retry_loop self document_id stage_name stage correlation_id
             (seq 1 (max_retries self + 1)).

(** The [for stage_name in stages] loop of [execute_pipeline]. *)
Fixpoint run_stages (self : PipelineEngine) (document_id : nat)
  (correlation_id : option string) (stages : list string)
  (results : gmap string string) : M (gmap string string) :=
  match stages with
  | [] => ret results
  | stage_name :: rest =>
      let* stage := get_stage (registry self) stage_name in
      let* completed := _is_stage_completed document_id stage_name in
      if completed : bool then
        run_stages self document_id correlation_id rest
                   (<[stage_name := "skipped"]> results)
      else
        let* result := _execute_stage_with_retry self document_id
                                                 stage_name stage
                                                 correlation_id in
        run_stages self document_id correlation_id rest
                   (<[stage_name := result]> results)
  end.

Definition execute_pipeline (self : PipelineEngine) (document_id : nat)
  (correlation_id : option string) : M (gmap string string) :=
  let stages := get_ordered_stages (registry self) in
  let* results := run_stages self document_id correlation_id stages ∅ in
  db_write (set_documents (update_document_status document_id "completed")) ;;
  ret results.

End Engine.

(* ===================================================================== *)
(** ** pipeline/stages/chunking.py                                        *)
(* ===================================================================== *)

Module Chunking.

(** The stage object: the three settings [__init__] copies, and the
    [tiktoken] encoder when it could be loaded ([encode] maps a text to
    its token ids). *)
Record ChunkingStage : Type := mkChunkingStage {
  chunk_size : nat;
  chunk_overlap : nat;
  min_chunk_size : nat;
  tokenizer : option (string -> list nat)
}.

(** [int(len(text.split()) * 1.3)] is the integer part of thirteen tenths
    of the word count. *)
Definition _count_tokens (self : ChunkingStage) (text : string) : nat :=
  match tokenizer self with
  | Some encode => length (encode text)
  | None => (length (PyStr.split text) * 13) / 10
  end.

(** The three variables the paragraph loop updates. *)
Record LoopState : Type := mkLoopState {
  chunks : list string;
  current_chunk : list string;
  current_size : nat
}.

Definition is_nil {A} (l : list A) : bool :=
  match l with [] => true | _ => false end.

Definition is_empty_str (s : string) : bool :=
  match s with EmptyString => true | _ => false end.

(** The branch taken when the next paragraph does not fit: save the
    current chunk, then start the next one. *)
Definition flush (self : ChunkingStage) (st : LoopState) : LoopState :=
  let chunk_text := PyStr.join PyStr.nlnl (current_chunk st) in
  let chunks' :=
    if min_chunk_size self <=? String.length chunk_text
    then chunks st ++ [chunk_text] else chunks st in
  if 0 <? chunk_overlap self then
    let current' :=
      if negb (is_nil (current_chunk st))
      then match last (current_chunk st) with
           | Some p => [p]
           | None => []
           end
      else [] in
    let size' :=
      match current' with
      | p :: _ => _count_tokens self p
      | [] => 0
      end in
    mkLoopState chunks' current' size'
  else mkLoopState chunks' [] 0.

(** The body of [for para in paragraphs]. *)
Definition loop_body (self : ChunkingStage) (st : LoopState)
  (para : string) : LoopState :=
  let para := PyStr.strip para in
  if is_empty_str para then st
  else
    let para_tokens := _count_tokens self para in
    let st1 :=
      if (chunk_size self <? current_size st + para_tokens)
         && negb (is_nil (current_chunk st))
      then flush self st else st in
    mkLoopState (chunks st1) (current_chunk st1 ++ [para])
                (current_size st1 + para_tokens).

(** The [# Add final chunk] step. *)
Definition final_flush (self : ChunkingStage) (st : LoopState)
  : list string :=
  if negb (is_nil (current_chunk st)) then
    let chunk_text := PyStr.join PyStr.nlnl (current_chunk st) in
    if min_chunk_size self <=? String.length chunk_text
    then chunks st ++ [chunk_text] else chunks st
  else chunks st.

(** The value of [chunks] when [_create_chunks] reaches its [return]. *)
Definition accumulate (self : ChunkingStage) (text : string)
  : list string :=
  let paragraphs := PyStr.re_split_blank_lines text in
  final_flush self
    (fold_left (loop_body self) paragraphs (mkLoopState [] [] 0)).

Definition _create_chunks (self : ChunkingStage) (text : string)
  : list string :=
  if is_empty_str text then []
  else
    match accumulate self text with
    | [] => [PyStr.slice_to (chunk_size self) text]
    | cs => cs
    end.

End Chunking.

(* ===================================================================== *)
(** ** services/llm: the OpenAI-compatible and HuggingFace providers      *)
(* ===================================================================== *)

Module LLM.
Import Errors.

Local Unset Elimination Schemes.

(** Python values that [json.loads] produces. *)
Inductive json : Type :=
| JNull
| JBool (b : bool)
| JInt (z : Z)
| JFloat (q : Q)
| JStr (s : string)
| JList (l : list json)
| JDict (items : list (string * json)).

Local Set Elimination Schemes.

(** What [await self.client.post(...)] does: it returns a response with
    a status code and a body, or raises [httpx.TimeoutException], a
    [httpx.NetworkError], or another exception, named. *)
Inductive HttpOutcome : Type :=
| Response (status_code : Z) (text : string)
| TimeoutException
| NetworkError (msg : string)
| OtherClientError (name : string) (msg : string).

Record LLMResponse : Type := mkLLMResponse {
  raw_response : string;
  parsed_json : json;
  tokens_in : json;
  tokens_out : json;
  finish_reason : json
}.

Notation "'let?' x ':=' c 'in' k" := (rbind c (fun x => k))
  (at level 10, x binder, c at level 100, k at level 200).

(** The errors below carry their message; their [details] dictionaries
    are left empty. *)
Definition error {A} (c : ExcClass) (msg : string) : Result A :=
  Raise (mkException c msg []).

Fixpoint assoc (key : string) (items : list (string * json)) : option json :=
  match items with
  | [] => None
  | (k, v) :: rest => if String.eqb k key then Some v else assoc key rest
  end.

(** [obj[key]] for a string key. *)
Definition getitem_str (obj : json) (key : string) : Result json :=
  match obj with
  | JDict items =>
      match assoc key items with
      | Some v => Ok v
      | None => error (Builtin "KeyError") ("'" +:+ key +:+ "'")
      end
  | JStr _ => error (Builtin "TypeError") "string indices must be integers"
  | JList _ => error (Builtin "TypeError") "list indices must be integers"
  | _ => error (Builtin "TypeError") "object is not subscriptable"
  end.

(** [obj[0]] *)
Definition getitem_0 (obj : json) : Result json :=
  match obj with
  | JList (x :: _) => Ok x
  | JList [] => error (Builtin "IndexError") "list index out of range"
  | JStr (String c _) => Ok (JStr (String c EmptyString))
  | JStr EmptyString =>
      error (Builtin "IndexError") "string index out of range"
  | JDict _ => error (Builtin "KeyError") "0"
  | _ => error (Builtin "TypeError") "object is not subscriptable"
  end.

(** [obj.get(key, default)]: only dictionaries have [get]. *)
Definition dict_get (obj : json) (key : string) (default : json)
  : Result json :=
  match obj with
  | JDict items =>
      match assoc key items with
      | Some v => Ok v
      | None => Ok default
      end
  | _ => error (Builtin "AttributeError") "object has no attribute 'get'"
  end.

(** [obj.strip()] and [obj.split()] need a string. *)
Definition as_str (obj : json) : Result string :=
  match obj with
  | JStr s => Ok s
  | _ => error (Builtin "AttributeError") "object has no attribute 'strip'"
  end.

(** The markdown-fence stripping both providers do before parsing. *)
Definition strip_fences (raw : string) : string :=
  let content := PyStr.strip raw in
  let content := if PyStr.startswith "```json" content
                 then PyStr.slice_from 7 content else content in
  let content := if PyStr.startswith "```" content
                 then PyStr.slice_from 3 content else content in
  let content := if PyStr.endswith "```" content
                 then PyStr.slice_drop_last 3 content else content in
  PyStr.strip content.

(** The [if / elif / elif] on [response.status_code], shared by the two
    providers: the error to raise, if any. *)
Definition check_status (status_code : Z) : option Exception :=
  if (status_code =? 429)%Z then
    Some (mkException TransientExternalError "Rate limit exceeded" [])
  else if (500 <=? status_code)%Z then
    Some (mkException TransientExternalError
            ("Server error: " +:+ pretty status_code) [])
  else if negb (status_code =? 200)%Z then
    Some (mkException ModelOutputError
            ("API error: " +:+ pretty status_code) [])
  else None.

(** The inner [try] of both providers, after [raw_response.strip()] has
    found a string: parse the generated text. *)
Definition parse_content (json_loads : string -> option json)
  (raw : string) : Result json :=
  match json_loads (strip_fences raw) with
  | Some parsed => Ok parsed
  | None => error ModelOutputError "Invalid JSON in model output"
  end.

Section Providers.
(** [json.loads], also behind [response.json()]: [None] stands for
    [json.JSONDecodeError]. *)
Variable json_loads : string -> option json.

Definition response_json (text : string) : Result json :=
  match json_loads text with
  | Some data => Ok data
  | None => error (Builtin "JSONDecodeError") "Expecting value"
  end.

(** [data["choices"][0]["message"]["content"]] *)
Definition message_content (data : json) : Result json :=
  let? choices := getitem_str data "choices" in
  let? choice := getitem_0 choices in
  let? message := getitem_str choice "message" in
  getitem_str message "content".

(** [usage = data.get("usage", {})], then
    [usage.get("prompt_tokens", 0)] and
    [usage.get("completion_tokens", 0)]. *)
Definition usage_tokens (data : json) : Result (json * json) :=
  let? usage := dict_get data "usage" (JDict []) in
  let? t_in := dict_get usage "prompt_tokens" (JInt 0) in
  let? t_out := dict_get usage "completion_tokens" (JInt 0) in
  Ok (t_in, t_out).

(** [data["choices"][0].get("finish_reason")] *)
Definition choice_finish_reason (data : json) : Result json :=
  let? choices := getitem_str data "choices" in
  let? choice := getitem_0 choices in
  dict_get choice "finish_reason" JNull.

(** [OpenAIProvider.generate_structured], from the outcome of the POST
    on. *)
Definition openai_generate_structured (outcome : HttpOutcome)
  : Result LLMResponse :=
  match outcome with
  | TimeoutException => error TransientExternalError "Request timeout"
  | NetworkError _ => error TransientExternalError "Network error"
  | OtherClientError name msg => error (Builtin name) msg
  | Response status_code text =>
      match check_status status_code with
      | Some e => Raise e
      | None =>
          let? data := response_json text in
          let? raw := message_content data in
          let? tokens := usage_tokens data in
          let? s := as_str raw in
          let? parsed := parse_content json_loads s in
          let? finish := choice_finish_reason data in
          Ok (mkLLMResponse s parsed (fst tokens) (snd tokens) finish)
      end
  end.

(** [int(len(text.split()) * 1.3)]: the integer part of thirteen
    tenths of the word count. *)
Definition estimate_tokens (text : string) : json :=
  JInt (Z.of_nat (length (PyStr.split text)) * 13 / 10)%Z.

Definition is_nonempty_list (data : json) : bool :=
  match data with
  | JList (_ :: _) => true
  | _ => false
  end.

(** [HuggingFaceProvider.generate_structured], from the outcome of the
    POST on; [full_prompt] is the text sent as [inputs]. *)
Definition huggingface_generate_structured (full_prompt : string)
  (outcome : HttpOutcome) : Result LLMResponse :=
  match outcome with
  | TimeoutException => error TransientExternalError "Request timeout"
  | NetworkError _ => error TransientExternalError "Network error"
  | OtherClientError name msg => error (Builtin name) msg
  | Response status_code text =>
      match check_status status_code with
      | Some e => Raise e
      | None =>
          let? data := response_json text in
          let? raw :=
            (if is_nonempty_list data
             then let? first := getitem_0 data in
                  dict_get first "generated_text" (JStr "")
             else dict_get data "generated_text" (JStr "")) in
          let t_in := estimate_tokens full_prompt in
          let? s := as_str raw in
          let t_out := estimate_tokens s in
          let? parsed := parse_content json_loads s in
          Ok (mkLLMResponse s parsed t_in t_out JNull)
      end
  end.
End Providers.

End LLM.

(* ===================================================================== *)
(** ** app/api/routes/documents.py: POST /documents                       *)
(* ===================================================================== *)

Module Documents.
Import Db.

Record UploadFile : Type := mkUploadFile {
  filename : option string;
  content_type : option string;
  content : string
}.

Record DocumentSubmitResponse : Type := mkDocumentSubmitResponse {
  document_id : nat;
  correlation_id : string;
  status : string
}.

(** What the handler leaves behind: the database and the pipeline runs
    handed to [background_tasks], oldest first. *)
Record AppState : Type := mkAppState {
  db : Store;
  background_tasks : list (nat * string)
}.

Inductive Reply : Type :=
| Returned (r : DocumentSubmitResponse)
| HTTPException (status_code : nat) (detail : string).

(** The settings the handler reads. *)
Record Settings : Type := mkSettings {
  storage_max_file_size_mb : N;
  storage_hash_raw_content : bool
}.

(** [x or default] on an optional string. *)
Definition or_default (x : option string) (default : string) : string :=
  match x with
  | Some (String c r) => String c r
  | _ => default
  end.

Definition same_hash_and_schema (content_hash schema_version : string)
  (d : Document) : bool :=
  String.eqb (doc_content_hash d) content_hash
  && String.eqb (doc_schema_version d) schema_version.

Section Handler.
(** [ContentHasher.hash_content], from [docagentline.storage]. *)
Variable hash_content : string -> string.
Variable settings : Settings.

(** [submit_document]; [uuid] is the value [uuid.uuid4()] returns. *)
Definition submit_document (uuid : string) (file : UploadFile)
  (schema_version : string) (st : AppState) : Reply * AppState :=
  let correlation_id := uuid in
  let content := content file in
  let max_size := (storage_max_file_size_mb settings * 1024 * 1024)%N in
  if (max_size <? N.of_nat (String.length content))%N then
    (HTTPException 413
       ("File too large: " +:+ pretty (String.length content)
        +:+ " bytes (max: " +:+ pretty max_size +:+ ")"), st)
  else
    let content_hash := hash_content content in
    let mime_type :=
      or_default (content_type file) "application/octet-stream" in
    match find (same_hash_and_schema content_hash schema_version)
               (documents (db st)) with
    | Some existing =>
        (Returned (mkDocumentSubmitResponse (doc_id existing)
                     correlation_id (doc_status existing)), st)
    | None =>
        let document_id := next_id (map doc_id (documents (db st))) in
        let s1 := set_documents (fun docs =>
                    docs ++ [mkDocument document_id
                               (or_default (filename file) "upload")
                               content_hash schema_version "pending"
                               (String.length content) mime_type])
                    (db st) in
        let s2 := set_raw_content (fun rows =>
                    rows ++ [mkRawContent document_id content
                               (storage_hash_raw_content settings)])
                    s1 in
        (Returned (mkDocumentSubmitResponse document_id correlation_id
                     "pending"),
         mkAppState s2
           (background_tasks st ++ [(document_id, correlation_id)]))
    end.
End Handler.

End Documents.

(* ===================================================================== *)
(** ** Notions used to state the properties                               *)
(* ===================================================================== *)

Module Notions.
Import Errors Db Engine.

(** [raises c r]: the call ended by raising an exception of class [c]. *)
Definition raises {A} (c : ExcClass) (r : Result A) : Prop :=
  exists e, r = Raise e /\ exc_class e = c.

(** The run table holds a completed run of the stage for the document. *)
Definition has_completed_run (document_id : nat) (stage_name : string)
  (s : Store) : Prop :=
  exists r, r ∈ pipeline_runs s /\ run_document_id r = document_id
            /\ run_stage r = stage_name /\ run_status r = "completed".

(** The stage leaves the run and metric tables alone, whatever it does to
    the other tables and whether it returns or raises. *)
Definition keeps_run_tables (stage : PipelineStage) : Prop :=
  forall document_id s,
    pipeline_runs (snd (stage document_id s)) = pipeline_runs s
    /\ metrics (snd (stage document_id s)) = metrics s.

(** The failed executions of the stage leave the documents table alone
    (the stage writes its status last, in the transaction it commits). *)
Definition failing_keeps_documents (stage : PipelineStage) : Prop :=
  forall document_id s e s',
    stage document_id s = (Some e, s') -> documents s' = documents s.

(** [docs] is the documents table as some successful execution of a
    registered stage left it. *)
Definition left_by_successful_stage (self : PipelineEngine)
  (document_id : nat) (docs : list Document) : Prop :=
  exists name stage s s1,
    _stages (registry self) !! name = Some stage
    /\ stage document_id s = (None, s1)
    /\ documents s1 = docs.

(** The key of the run row [_create_run_record] inserts into [s]. *)
Definition fresh_run_id (s : Store) : nat :=
  next_id (map run_id (pipeline_runs s)).

(** The database right after [_create_run_record]. *)
Definition started (document_id : nat) (stage_name : string)
  (attempt : nat) (correlation_id : option string) (s : Store) : Store :=
  set_pipeline_runs (fun runs =>
    runs ++ [mkPipelineRun (fresh_run_id s) document_id stage_name
               "running" attempt None None correlation_id]) s.

(** The database after [_fail_run_record] on the run [rid], from [s]. *)
Definition after_failure (rid : nat) (e : Exception) (s : Store) : Store :=
  let s1 := set_pipeline_runs
              (update_run rid
                 (mark_failed (classify_error e)
                              (PyStr.slice_to 1000 (py_str e)))) s in
  set_metrics (fun ms => ms ++ [mkMetric rid (_get_run_stage rid s1)]) s1.

(** The database after [_complete_run_record] on the run [rid]. *)
Definition after_success (rid : nat) (s : Store) : Store :=
  let s1 := set_pipeline_runs (update_run rid mark_completed) s in
  set_metrics (fun ms => ms ++ [mkMetric rid (_get_run_stage rid s1)]) s1.

(** The row a failed attempt leaves in the run table. *)
Definition failed_run (rid document_id : nat) (stage_name : string)
  (attempt : nat) (correlation_id : option string) (e : Exception)
  : PipelineRun :=
  mkPipelineRun rid document_id stage_name "failed" attempt
                (Some (classify_error e))
                (Some (PyStr.slice_to 1000 (py_str e))) correlation_id.

(** The row a successful attempt leaves in the run table. *)
Definition completed_run (rid document_id : nat) (stage_name : string)
  (attempt : nat) (correlation_id : option string) : PipelineRun :=
  mkPipelineRun rid document_id stage_name "completed" attempt None None
                correlation_id.

(** The world with another database, the rest unchanged. *)
Definition with_store (s : Store) (w : World) : World :=
  mkWorld s (trace w) (random_samples w) (random_drawn w).

(** The durations of the sleeps in a log, in order. *)
Fixpoint sleeps (tr : list Event) : list Q :=
  match tr with
  | [] => []
  | EvSleep d :: rest => d :: sleeps rest
  | EvExecute _ _ :: rest => sleeps rest
  end.

(** The number of [execute] calls in a log. *)
Fixpoint executions (tr : list Event) : nat :=
  match tr with
  | [] => 0
  | EvExecute _ _ :: rest => S (executions rest)
  | EvSleep _ :: rest => executions rest
  end.

(** The result dictionary that records [skipped] for each listed stage. *)
Definition all_skipped (names : list string) (results : gmap string string)
  : gmap string string :=
  foldl (fun acc name => <[name := "skipped"]> acc) results names.

(** A stage result the engine records: [completed] or [skipped]. *)
Definition recorded (results : gmap string string) (name : string) : Prop :=
  results !! name = Some "completed" \/ results !! name = Some "skipped".

(** The identity of a document row: everything but its status. *)
Definition doc_key (d : Document) : nat * string * string :=
  (doc_id d, doc_content_hash d, doc_schema_version d).

End Notions.

(* ===================================================================== *)
(** ** The chunking algorithm as the specification words it               *)
(* ===================================================================== *)

Module ChunkingSpec.

(** Step 1: split on runs of blank lines, trim each piece, drop the
    empty ones. *)
Definition paragraphs (text : string) : list string :=
  List.filter (fun p => negb (Chunking.is_empty_str p))
              (map PyStr.strip (PyStr.re_split_blank_lines text)).

Section Greedy.
Variable count : string -> nat.
Variables target_tokens overlap_tokens min_chars : nat.

(** Steps 3 and 5: a chunk is emitted only if it is long enough. *)
Definition emit_if_long (cur : list string) : list string :=
  let chunk_text := PyStr.join PyStr.nlnl cur in
  if min_chars <=? String.length chunk_text then [chunk_text] else [].

(** Step 4: what the next chunk starts with. *)
Definition seed (cur : list string) : list string :=
  if 0 <? overlap_tokens then
    match last cur with
    | Some p => [p]
    | None => []
    end
  else [].

(** The tokens of a chunk under construction: those of its
    paragraphs. *)
Definition tokens_of (cur : list string) : nat :=
  list_sum (map count cur).

(** Steps 2 to 5, over the paragraphs still to come and the chunk under
    construction. *)
Fixpoint greedy (paras : list string) (cur : list string) : list string :=
  match paras with
  | [] =>
      match cur with
      | [] => []
      | _ => emit_if_long cur
      end
  | p :: rest =>
      if (target_tokens <? tokens_of cur + count p)
         && negb (Chunking.is_nil cur)
      then emit_if_long cur ++ greedy rest (seed cur ++ [p])
      else greedy rest (cur ++ [p])
  end.
End Greedy.

(** The recursion with the settings and the token counter of a stage. *)
Definition greedy_for (self : Chunking.ChunkingStage)
  (paras cur : list string) : list string :=
  greedy (Chunking._count_tokens self) (Chunking.chunk_size self)
         (Chunking.chunk_overlap self) (Chunking.min_chunk_size self)
         paras cur.

(** All characters of the text are white space. *)
Fixpoint all_space (s : string) : bool :=
  match s with
  | EmptyString => true
  | String c r => PyStr.isspace c && all_space r
  end.

End ChunkingSpec.

(* ===================================================================== *)
(** ** The model client as the specification words it                     *)
(* ===================================================================== *)

Module ClientSpec.
Import Errors LLM.




(** A JSON number as a rational. *)
Definition json_number (v : json) : option Q :=
  match v with
  | JInt z => Some (inject_Z z)
  | JFloat q => Some q
  | _ => None
  end.

(** The specification's token count for one direction: the count the
    provider reported, or else 1.3 times the number of words. *)
Definition claimed_token_count (reported : option Q) (text : string) : Q :=
  match reported with
  | Some q => q
  | None => (inject_Z (Z.of_nat (length (PyStr.split text))) * (13 # 10))%Q
  end.

(** The value stored under [key], or [default]. *)
Definition lookup_or (key : string) (default : json)
  (items : list (string * json)) : json :=
  match assoc key items with
  | Some v => v
  | None => default
  end.

End ClientSpec.

(* ===================================================================== *)
(** ** Further notions about the run table                                *)
(* ===================================================================== *)

Module RunNotions.
Import Errors Db Engine Notions.

(** The number of completed runs of a stage for a document. *)
Definition completed_count (document_id : nat) (stage_name : string)
  (s : Store) : nat :=
  length (List.filter (is_completed_run document_id stage_name)
                      (pipeline_runs s)).

(** The invariant of the run table: at most one completed run for each
    document and stage. *)
Definition at_most_one_completed (s : Store) : Prop :=
  forall document_id stage_name,
    completed_count document_id stage_name s <= 1.

(** The statuses of the rows one call of the retry loop adds: [failed]
    for every attempt but the last, and for the last [completed] when the
    call returned and [failed] when it raised. *)
Definition attempt_statuses (n : nat) (returned : bool) : list string :=
  repeat "failed" (n - 1) ++ [if returned then "completed" else "failed"].

Definition returned {A} (r : Result A) : bool :=
  match r with
  | Ok _ => true
  | Raise _ => false
  end.




End RunNotions.

(* ===================================================================== *)
(** ** pipeline/stages: the stages that only use the database             *)
(* ===================================================================== *)

Module Stages.
Import Errors Db Engine.

Definition set_chunks (f : list Chunk -> list Chunk) (s : Store) : Store :=
  mkStore (documents s) (raw_content s) (pipeline_runs s) (metrics s)
          (f (chunks s)) (extractions s).

(** [details={"document_id": document_id}] *)
Definition document_details (document_id : nat) : list (string * string) :=
  [("'document_id'", pretty document_id)].

(** [select(documents).where(documents.c.id == document_id)], then
    [fetchone()]. *)
Definition select_document (document_id : nat) (s : Store)
  : option Document :=
  find (fun d => doc_id d =? document_id) (documents s).

(** [select(raw_content).where(raw_content.c.document_id == document_id)],
    then [fetchone()]. *)
Definition select_raw_content (document_id : nat) (s : Store)
  : option RawContent :=
  find (fun r => raw_document_id r =? document_id) (raw_content s).

(** [select(documents, raw_content).join(raw_content, documents.c.id ==
    raw_content.c.document_id).where(documents.c.id == document_id)]:
    the pairs of the join, in the order of the two tables. *)
Definition select_document_with_content (document_id : nat) (s : Store)
  : list (Document * RawContent) :=
  flat_map
    (fun d =>
       map (pair d)
           (List.filter (fun r => raw_document_id r =? doc_id d)
                        (raw_content s)))
    (List.filter (fun d => doc_id d =? document_id) (documents s)).

(** [IngestStage.execute]; [hash_content] is the content hasher. *)
Definition ingest_execute (hash_content : string -> string)
  : PipelineStage :=
  fun document_id s =>
    match select_document document_id s with
    | None =>
        (Some (mkException PipelineStateError
                 ("Document not found: " +:+ pretty document_id)
                 (document_details document_id)), s)
    | Some doc =>
        match select_raw_content document_id s with
        | None =>
            (Some (mkException PipelineStateError
                     ("Raw content not found for document: "
                      +:+ pretty document_id)
                     (document_details document_id)), s)
        | Some content_row =>
            let computed_hash := hash_content (raw_bytes content_row) in
            if negb (String.eqb computed_hash (doc_content_hash doc)) then
              (Some (mkException PipelineStateError "Content hash mismatch"
                       (document_details document_id
                        ++ [("'expected'", "'" +:+ doc_content_hash doc
                                            +:+ "'");
                            ("'computed'", "'" +:+ computed_hash +:+ "'")])),
               s)
            else
              (None,
               set_documents (update_document_status document_id "ingested")
                             s)
        end
    end.

(** [LayoutNormalizationStage.execute] *)
Definition layout_normalization_execute : PipelineStage :=
  fun document_id s =>
    (None,
     set_documents (update_document_status document_id "layout_normalized")
                   s).

(** [PersistenceStage.execute] *)
Definition persistence_execute : PipelineStage :=
  fun document_id s =>
    (None,
     set_documents (update_document_status document_id "persisted") s).

(** [MetricsAndAuditStage.execute]: the totals it computes are only
    logged. *)
Definition metrics_and_audit_execute : PipelineStage :=
  fun document_id s =>
    (None,
     set_documents (update_document_status document_id "completed") s).

(** The [for sequence, chunk_text in enumerate(text_chunks)] loop of
    [ChunkingStage.execute], from the index [sequence] on. *)
Fixpoint insert_chunks (self : Chunking.ChunkingStage) (document_id : nat)
  (sequence : nat) (text_chunks : list string) (rows : list Chunk)
  : list Chunk :=
  match text_chunks with
  | [] => rows
  | chunk_text :: rest =>
      insert_chunks self document_id (S sequence) rest
        (rows ++ [mkChunk (next_id (map chunk_id rows)) document_id
                          sequence chunk_text
                          (Chunking._count_tokens self chunk_text)])
  end.

(** [delete(chunks).where(chunks.c.document_id == document_id)] *)
Definition delete_chunks (document_id : nat) (rows : list Chunk)
  : list Chunk :=
  List.filter (fun c => negb (chunk_document_id c =? document_id)) rows.

(** [ChunkingStage.execute]; [decode] is
    [bytes.decode("utf-8", errors="ignore")]. *)
Definition chunking_execute (self : Chunking.ChunkingStage)
  (decode : string -> string) : PipelineStage :=
  fun document_id s =>
    match select_document_with_content document_id s with
    | [] =>
        (Some (mkException ChunkingError
                 ("Document not found: " +:+ pretty document_id)
                 (document_details document_id)), s)
    | (_, row) :: _ =>
        let text := decode (raw_bytes row) in
        let text_chunks := Chunking._create_chunks self text in
        let s1 := set_chunks (delete_chunks document_id) s in
        let s2 := set_chunks
                    (insert_chunks self document_id 0 text_chunks) s1 in
        (None,
         set_documents (update_document_status document_id "chunked") s2)
    end.

(** The chunks of a document, in table order. *)
Definition chunks_of (document_id : nat) (s : Store) : list Chunk :=
  List.filter (fun c => chunk_document_id c =? document_id) (chunks s).

(** The chunks of the other documents. *)
Definition chunks_of_others (document_id : nat) (s : Store) : list Chunk :=
  delete_chunks document_id (chunks s).

End Stages.

(* ===================================================================== *)
(** ** Notions about stages                                               *)
(* ===================================================================== *)

Module StageNotions.
Import Errors Db Engine Stages.

(** A failure of the stage changes nothing in the database, and its
    error is not retryable. *)
Definition clean_failure (stage : PipelineStage) : Prop :=
  forall document_id s e s',
    stage document_id s = (Some e, s') ->
    s' = s /\ is_retryable e = false.

(** The stages modelled in [Stages], under the names [run_pipeline]
    registers them with. *)
Definition database_stages (hash_content : string -> string)
  (chunker : Chunking.ChunkingStage) (decode : string -> string)
  : list (string * PipelineStage) :=
  [ ("ingest", ingest_execute hash_content);
    ("layout_normalization", layout_normalization_execute);
    ("chunking", chunking_execute chunker decode);
    ("persistence", persistence_execute);
    ("metrics_and_audit", metrics_and_audit_execute) ].

End StageNotions.

(* ===================================================================== *)
(** ** cli/commands/submit.py: the rows the command inserts               *)
(* ===================================================================== *)

Module Cli.
Import Db.

(** [submit_document] of the command line, from the hashing of the
    content to the commit: [content] and [mime_type] are what the file
    handler returned for [source].  The result is the document key. *)
Definition submit_document (hash_content : string -> string)
  (source : string) (content mime_type : string) (schema_version : string)
  (s : Store) : nat * Store :=
  let content_hash := hash_content content in
  let document_id := next_id (map doc_id (documents s)) in
  let s1 := set_documents (fun docs =>
              docs ++ [mkDocument document_id source content_hash
                                  schema_version "pending"
                                  (String.length content) mime_type]) s in
  let s2 := set_raw_content (fun rows =>
              rows ++ [mkRawContent document_id content false]) s1 in
  (document_id, s2).

End Cli.

(* ===================================================================== *)
(** ** Notions about the documents and raw-content tables                 *)
(* ===================================================================== *)

Module RouteNotions.
Import Db.

(** The de-duplication key of a document. *)
Definition dedup_key (d : Document) : string * string :=
  (doc_content_hash d, doc_schema_version d).

(** A raw-content row that is the content of a document row. *)
Definition content_of (hash_content : string -> string) (d : Document)
  (r : RawContent) : Prop :=
  raw_document_id r = doc_id d
  /\ hash_content (raw_bytes r) = doc_content_hash d
  /\ doc_file_size_bytes d = String.length (raw_bytes r).

(** The state the submission route keeps the two tables in: document
    keys are distinct, no two documents have the same content hash and
    schema version, and the raw-content rows are the contents of the
    documents, row by row. *)
Definition consistent (hash_content : string -> string) (s : Store)
  : Prop :=
  NoDup (map doc_id (documents s))
  /\ NoDup (map dedup_key (documents s))
  /\ Forall2 (content_of hash_content) (documents s) (raw_content s).


End RouteNotions.

(* ===================================================================== *)
(** ** Notions about the model clients                                    *)
(* ===================================================================== *)

Module ClientNotions.
Import LLM.

(** The outcomes of the POST that are worth another attempt: a timeout,
    a network error, and the statuses 429 and 500 and above. *)
Definition transient_outcome (outcome : HttpOutcome) : bool :=
  match outcome with
  | TimeoutException | NetworkError _ => true
  | Response status_code _ =>
      (status_code =? 429)%Z || (500 <=? status_code)%Z
  | OtherClientError _ _ => false
  end.

(** A string of white-space characters only. *)
Fixpoint all_space (s : string) : bool :=
  match s with
  | EmptyString => true
  | String c r => PyStr.isspace c && all_space r
  end.

(** Three backquotes. *)
Definition fence : string := "```".

(** [body] between an opening fence with the tag [tag] and a closing
    fence, with white space around each part. *)
Definition fenced (tag ws1 ws2 body ws3 ws4 : string) : string :=
  ws1 +:+ fence +:+ tag +:+ ws2 +:+ body +:+ ws3 +:+ fence +:+ ws4.

(** The errors raised while a 200 response is read. *)
Definition reading_error (e : Errors.Exception) : Prop :=
  Errors.exc_class e = Errors.ModelOutputError
  \/ exists n, Errors.exc_class e = Errors.Builtin n.

End ClientNotions.

(* ===================================================================== *)
(** ** app/api/routes/documents.py: the background task                   *)
(* ===================================================================== *)

Module Background.
Import Errors Db Engine.
Local Open Scope engine_scope.

(** The nine stage objects [run_pipeline] creates. *)
Record StageObjects : Type := mkStageObjects {
  ingest_stage : PipelineStage;
  text_extraction_stage : PipelineStage;
  layout_normalization_stage : PipelineStage;
  chunking_stage : PipelineStage;
  embedding_stage : PipelineStage;
  structured_extraction_stage : PipelineStage;
  validation_stage : PipelineStage;
  persistence_stage : PipelineStage;
  metrics_and_audit_stage : PipelineStage
}.

(** The registry after the nine [registry.register(...)] calls, in the
    order of the source. *)
Definition registered (objs : StageObjects) : StageRegistry :=
  register "metrics_and_audit" (metrics_and_audit_stage objs)
    (register "persistence" (persistence_stage objs)
      (register "validation" (validation_stage objs)
        (register "structured_extraction" (structured_extraction_stage objs)
          (register "embedding" (embedding_stage objs)
            (register "chunking" (chunking_stage objs)
              (register "layout_normalization"
                        (layout_normalization_stage objs)
                (register "text_extraction" (text_extraction_stage objs)
                  (register "ingest" (ingest_stage objs)
                            new_registry)))))))).

(** [engine.registry = registry] *)
Definition set_registry (reg : StageRegistry) (engine : PipelineEngine)
  : PipelineEngine :=
  mkPipelineEngine reg (max_retries engine) (backoff_base engine)
                   (backoff_max engine) (use_jitter engine).


End Background.

(* ===================================================================== *)
(** ** Notions about whole pipeline runs                                  *)
(* ===================================================================== *)

Module PipelineNotions.
Import Errors Db Engine Notions.

(** Every stage of the order is registered. *)
Definition order_registered (reg : StageRegistry) : Prop :=
  forall name, name ∈ _order reg -> is_Some (_stages reg !! name).

(** The stage returns for the document, whatever the database holds. *)
Definition succeeds_for (document_id : nat) (stage : PipelineStage)
  : Prop :=
  forall s, fst (stage document_id s) = None.

(** The run row of a stage that completed at its first attempt. *)
Definition first_attempt_completed (document_id : nat) (r : PipelineRun)
  : Prop :=
  run_document_id r = document_id /\ run_status r = "completed"
  /\ run_attempt r = 1.

End PipelineNotions.

(* ===================================================================== *)
(** ** Notions about the chunks of a text                                 *)
(* ===================================================================== *)

Module ChunkNotions.
Import Chunking.

(** The tokens of a group of paragraphs, as the loop adds them up. *)
Definition group_tokens (self : ChunkingStage) (group : list string)
  : nat :=
  list_sum (map (_count_tokens self) group).

(** The text of a group is long enough to be kept as a chunk. *)
Definition long_enough (self : ChunkingStage) (group : list string)
  : bool :=
  min_chunk_size self <=? String.length (PyStr.join PyStr.nlnl group).

(** Each group starts with the last paragraph of the group before. *)
Fixpoint overlapping (groups : list (list string)) : Prop :=
  match groups with
  | g1 :: ((g2 :: _) as rest) =>
      (exists p, last g1 = Some p /\ head g2 = Some p) /\ overlapping rest
  | _ => True
  end.

(** The paragraphs that overlapping groups cover: the first group, then
    what each later group adds to the paragraph it repeats. *)
Definition covered (groups : list (list string)) : list string :=
  match groups with
  | [] => []
  | g :: rest => g ++ concat (map (drop 1) rest)
  end.

End ChunkNotions.

(* ===================================================================== *)
(** ** Notions about the error taxonomy                                   *)
(* ===================================================================== *)

Module ErrorNotions.
Import Errors.


End ErrorNotions.

(* ===================================================================== *)
(** ** services/validation/schema_registry.py                             *)
(* ===================================================================== *)

Module Schemas.
Import Errors LLM.

(** What the file system holds at the path of a schema version: nothing,
    a file that cannot be opened or decoded (the exception is named), or
    a file with a text. *)
Inductive SchemaFile : Type :=
| Missing
| Unreadable (name : string) (msg : string)
| Text (text : string).

Record SchemaRegistry : Type := mkSchemaRegistry {
  _cache : gmap string json
}.

(** [SchemaRegistry.__init__] *)
Definition new_schema_registry : SchemaRegistry := mkSchemaRegistry ∅.

(** [isinstance(schema, dict)] *)
Definition is_dict (schema : json) : bool :=
  match schema with
  | JDict _ => true
  | _ => false
  end.

Section Registry.
(** The files under the registry path, by schema version, and
    [json.loads] ([None] stands for [json.JSONDecodeError]). *)
Variable files : string -> SchemaFile.
Variable json_loads : string -> option json.

(** The body of the [try]: what it returns or raises, and the cache it
    leaves. *)
Definition load_schema (schema_version : string) (self : SchemaRegistry)
  : Result json * SchemaRegistry :=
  match files schema_version with
  | Missing =>
      (error (Builtin "FileNotFoundError") "No such file or directory",
       self)
  | Unreadable name msg => (error (Builtin name) msg, self)
  | Text text =>
      match json_loads text with
      | None => (error (Builtin "JSONDecodeError") "Expecting value", self)
      | Some schema =>
          if negb (is_dict schema) then
            (error SchemaRegistryError
                   ("Invalid schema format: " +:+ schema_version), self)
          else
            (Ok schema,
             mkSchemaRegistry (<[schema_version := schema]> (_cache self)))
      end
  end.

(** [SchemaRegistry.get_schema] *)
Definition get_schema (schema_version : string) (self : SchemaRegistry)
  : Result json * SchemaRegistry :=
  match _cache self !! schema_version with
  | Some schema => (Ok schema, self)
  | None =>
      match files schema_version with
      | Missing =>
          (error SchemaRegistryError
                 ("Schema not found: " +:+ schema_version), self)
      | _ =>
          match load_schema schema_version self with
          | (Ok schema, self') => (Ok schema, self')
          | (Raise e, self') =>
              if isinstance e (Builtin "JSONDecodeError") then
                (error SchemaRegistryError
                       ("Invalid JSON in schema: " +:+ schema_version),
                 self')
              else
                (error SchemaRegistryError
                       ("Failed to load schema: " +:+ schema_version),
                 self')
          end
      end
  end.
End Registry.

(** [SchemaRegistry.clear_cache] *)
Definition clear_cache (self : SchemaRegistry) : SchemaRegistry :=
  mkSchemaRegistry ∅.

(** Every cached schema is a dictionary. *)
Definition cache_of_dicts (self : SchemaRegistry) : Prop :=
  forall schema_version schema,
    _cache self !! schema_version = Some schema -> is_dict schema = true.

End Schemas.

(* ===================================================================== *)
(** ** Sample stages, engines and databases                               *)
(* ===================================================================== *)

Module Samples.
Import Errors Db Engine.

(** A stage that returns after writing a status, as the shipped stages
    do. *)
Definition writes_status (status : string) : PipelineStage :=
  fun document_id s =>
    (None, set_documents (update_document_status document_id status) s).

(** A stage that raises [e] and changes nothing. *)
Definition fails_with (e : Exception) : PipelineStage :=
  fun _ s => (Some e, s).

Definition bad_request : Exception :=
  mkException ModelOutputError "API error: 400" [].

Definition rate_limited : Exception :=
  mkException TransientExternalError "Rate limit exceeded" [].

Definition key_error : Exception :=
  mkException (Builtin "KeyError") "'choices'" [].

Definition doc1 : Document :=
  mkDocument 1 "a.txt" "2cf24dba" "invoice_v1" "pending" 5 "text/plain".

Definition store1 : Store :=
  mkStore [doc1] [mkRawContent 1 "hello" false] [] [] [] [].

Definition world1 : World := mkWorld store1 [] (fun _ => 1 # 4) 0.

(** A two-stage engine whose second stage is [second]. *)
Definition two_stage_engine (second : PipelineStage) (jitter : bool)
  : PipelineEngine :=
  mkPipelineEngine
    (mkStageRegistry
       (<["ingest" := writes_status "ingested"]>
          (<["structured_extraction" := second]> ∅))
       ["ingest"; "structured_extraction"])
    3 2 60 jitter.

(** The database after both stages of that engine completed for the
    document 1, and the world of such a run. *)
Definition store_done : Store :=
  mkStore [with_doc_status "completed" doc1]
          [mkRawContent 1 "hello" false]
          [ mkPipelineRun 1 1 "ingest" "completed" 1 None None None;
            mkPipelineRun 2 1 "structured_extraction" "completed" 1 None
                          None None ]
          [mkMetric 1 "ingest"; mkMetric 2 "structured_extraction"] [] [].

Definition world_done : World :=
  mkWorld store_done
          [EvExecute "ingest" 1; EvExecute "structured_extraction" 1]
          (fun _ => 1 # 4) 0.

(** A stand-in for the content hasher, the settings of the submission
    route, an upload of the five bytes [hello], and an empty
    application. *)
Definition toy_hash (content : string) : string := "sha256:" +:+ content.

Definition route_settings : Documents.Settings :=
  Documents.mkSettings 100 false.

Definition hello_upload : Documents.UploadFile :=
  Documents.mkUploadFile (Some "hello.txt") (Some "text/plain") "hello".

Definition fresh_app : Documents.AppState :=
  Documents.mkAppState empty_store [].

(** A chunker with a budget of three tokens, overlap, a minimum of two
    characters and no [tiktoken] encoder; and one with the default
    settings. *)
Definition small_chunker : Chunking.ChunkingStage :=
  Chunking.mkChunkingStage 3 1 2 None.

Definition default_chunker : Chunking.ChunkingStage :=
  Chunking.mkChunkingStage 1000 200 100 None.

(** Response bodies and what [json.loads] makes of them.  [quoted s] is
    [s] between double quotes. *)
Definition quoted (s : string) : string :=
  String (ascii_of_nat 34) (s +:+ String (ascii_of_nat 34) EmptyString).

Definition body_of_content (generated : string) (usage : string) : string :=
  "{" +:+ quoted "choices" +:+ ": [{" +:+ quoted "message" +:+ ": {"
  +:+ quoted "content" +:+ ": " +:+ quoted generated +:+ "}}]" +:+ usage
  +:+ "}".

Definition data_of_content (generated : string)
  (usage : list (string * LLM.json)) : LLM.json :=
  LLM.JDict
    (("choices",
      LLM.JList
        [LLM.JDict
           [("message", LLM.JDict [("content", LLM.JStr generated)])]])
     :: usage).

Definition usage_text : string :=
  ", " +:+ quoted "usage" +:+ ": {" +:+ quoted "prompt_tokens" +:+ ": 12, "
  +:+ quoted "completion_tokens" +:+ ": 3}".

Definition usage_data : list (string * LLM.json) :=
  [("usage", LLM.JDict [("prompt_tokens", LLM.JInt 12);
                        ("completion_tokens", LLM.JInt 3)])].

Definition body_without_usage : string := body_of_content "[1]" "".
Definition body_with_usage : string := body_of_content "[1]" usage_text.
Definition body_bad_content : string := body_of_content "oops" "".

Definition hf_body : string :=
  "[{" +:+ quoted "generated_text" +:+ ": " +:+ quoted "[1]" +:+ "}]".

(** [json.loads] on the texts the examples use; it rejects the others,
    among them [<html>] and [oops]. *)
Definition sample_json_loads (text : string) : option LLM.json :=
  if String.eqb text body_without_usage
  then Some (data_of_content "[1]" [])
  else if String.eqb text body_with_usage
  then Some (data_of_content "[1]" usage_data)
  else if String.eqb text body_bad_content
  then Some (data_of_content "oops" [])
  else if String.eqb text hf_body
  then Some (LLM.JList [LLM.JDict [("generated_text", LLM.JStr "[1]")]])
  else if String.eqb text "[1]" then Some (LLM.JList [LLM.JInt 1])
  else None.

End Samples.

(* ===================================================================== *)
(** ** Further sample data                                                *)
(* ===================================================================== *)

Module MoreSamples.
Import Errors Db Engine.

(** A database with one plain-text document of two paragraphs, and a
    stale chunk of it left by an earlier run. *)
Definition two_paragraphs : string :=
  "alpha beta" +:+ PyStr.nlnl +:+ "gamma delta".

Definition text_store : Store :=
  mkStore [mkDocument 1 "a.txt" "h1" "invoice_v1" "layout_normalized" 23
                      "text/plain";
           mkDocument 2 "b.txt" "h2" "invoice_v1" "chunked" 5 "text/plain"]
          [mkRawContent 1 two_paragraphs false;
           mkRawContent 2 "other" false]
          [] []
          [mkChunk 1 1 0 "stale" 1; mkChunk 2 2 0 "other" 1] [].

(** A chunker with a budget of three tokens, no overlap, a minimum of
    one character and no [tiktoken] encoder. *)
Definition plain_chunker : Chunking.ChunkingStage :=
  Chunking.mkChunkingStage 3 0 1 None.

(** A registry directory with one schema that is a JSON object, one
    that is a JSON list, and one that is not JSON. *)
Definition schema_files (schema_version : string) : Schemas.SchemaFile :=
  if String.eqb schema_version "invoice_v1" then Schemas.Text "{}"
  else if String.eqb schema_version "list_v1" then Schemas.Text "[]"
  else if String.eqb schema_version "broken_v1" then Schemas.Text "{"
  else Schemas.Missing.

Definition schema_json_loads (text : string) : option LLM.json :=
  if String.eqb text "{}" then Some (LLM.JDict [])
  else if String.eqb text "[]" then Some (LLM.JList [])
  else None.

End MoreSamples.

(* ===================================================================== *)
(** ** Facts about the error taxonomy                                     *)
(* ===================================================================== *)

Module ErrorFacts.
Import Errors.

Lemma mro_builtin (n : string) (c : ExcClass) :
  c ∈ mro (Builtin n) -> exists m, c = Builtin m.
Proof.
  simpl. destruct (String.eqb n "Exception"); intros Hin;
    repeat (apply elem_of_cons in Hin as [-> | Hin]; [eauto |]);
    by apply elem_of_nil in Hin.
Qed.

Lemma taxonomy_not_builtin (c : ExcClass) :
  c ∈ taxonomy -> forall m, c <> Builtin m.
Proof.
  intros Hc m ->. unfold taxonomy in Hc.
  repeat (apply elem_of_cons in Hc as [Hc | Hc]; [discriminate |]).
  by apply elem_of_nil in Hc.
Qed.

(** No class of the package derives from another one of the eleven, and
    no outside class derives from any: an exception is an instance of a
    taxonomy class exactly when that is its class. *)
Lemma isinstance_taxonomy (e : Exception) (c : ExcClass) :
  c ∈ taxonomy -> isinstance e c = true <-> exc_class e = c.
Proof.
  intros Hc. unfold isinstance. rewrite bool_decide_eq_true.
  destruct e as [cls msg det]; simpl.
  destruct cls as [| | | | | | | | | | | | n].
  13: { split.
        - intros Hin. apply mro_builtin in Hin as [m ->].
          by destruct (taxonomy_not_builtin _ Hc m).
        - intros <-. by destruct (taxonomy_not_builtin _ Hc n). }
  all: unfold taxonomy in Hc;
    repeat (apply elem_of_cons in Hc as [-> | Hc]);
    try (by apply elem_of_nil in Hc);
    (split; [ intros Hin; simpl in Hin;
              repeat (apply elem_of_cons in Hin as [Hin | Hin];
                      try discriminate; try reflexivity);
              by apply elem_of_nil in Hin
            | intros Heq; try discriminate; simpl; apply elem_of_cons;
              by left ]).
Qed.

Lemma is_retryable_iff (e : Exception) :
  is_retryable e = true <-> exc_class e = TransientExternalError.
Proof.
  apply isinstance_taxonomy. unfold taxonomy. apply elem_of_cons. by left.
Qed.


Lemma classify_unknown (e : Exception) :
  Forall (fun c => isinstance e c = false) taxonomy ->
  classify_error e = "unknown".
Proof.
  unfold taxonomy. intros H.
  repeat (apply Forall_cons in H as [? H]).
  unfold classify_error.
  repeat match goal with Hi : isinstance e _ = false |- _ =>
    rewrite Hi; clear Hi end.
  reflexivity.
Qed.

End ErrorFacts.

(* ===================================================================== *)
(** ** Facts about the run table                                          *)
(* ===================================================================== *)

Module RunTableFacts.
Import Errors Db Engine Notions.

Lemma ids_below_next (runs : list PipelineRun) :
  Forall (fun r => run_id r < next_id (map run_id runs)) runs.
Proof.
  unfold next_id.
  pose proof (proj1 (list_max_le (map run_id runs) _)
                    (Nat.le_refl _)) as H.
  rewrite List.Forall_map in H.
  eapply Forall_impl; [exact H |]. simpl. intros r Hr. lia.
Qed.

Lemma update_run_other (rid : nat) (f : PipelineRun -> PipelineRun)
  (runs : list PipelineRun) :
  Forall (fun r => run_id r <> rid) runs -> update_run rid f runs = runs.
Proof.
  unfold update_run. induction 1 as [| r runs Hr _ IH]; simpl; [done |].
  rewrite IH. apply Nat.eqb_neq in Hr. by rewrite Hr.
Qed.

(** An update by key of a row just inserted touches that row only. *)
Lemma update_run_fresh (rid : nat) (f : PipelineRun -> PipelineRun)
  (runs : list PipelineRun) (row : PipelineRun) :
  Forall (fun r => run_id r < rid) runs -> run_id row = rid ->
  update_run rid f (runs ++ [row]) = runs ++ [f row].
Proof.
  intros Hlt Hrow. unfold update_run. rewrite map_app. simpl.
  rewrite Hrow, Nat.eqb_refl. f_equal.
  apply update_run_other.
  eapply Forall_impl; [exact Hlt |]. simpl. intros r Hr. lia.
Qed.

Lemma find_run_fresh (rid : nat) (runs : list PipelineRun)
  (row : PipelineRun) :
  Forall (fun r => run_id r < rid) runs -> run_id row = rid ->
  find (fun r => run_id r =? rid) (runs ++ [row]) = Some row.
Proof.
  intros Hlt Hrow. induction Hlt as [| r runs Hr _ IH]; simpl.
  - by rewrite Hrow, Nat.eqb_refl.
  - assert ((run_id r =? rid) = false) as -> by (apply Nat.eqb_neq; lia).
    exact IH.
Qed.

Lemma is_completed_run_spec (document_id : nat) (stage_name : string)
  (r : PipelineRun) :
  is_completed_run document_id stage_name r = true <->
  run_document_id r = document_id /\ run_stage r = stage_name
  /\ run_status r = "completed".
Proof.
  unfold is_completed_run.
  rewrite !andb_true_iff, Nat.eqb_eq, !String.eqb_eq. tauto.
Qed.

(** [_is_stage_completed] answers whether a completed run exists, and
    changes nothing. *)
Lemma is_stage_completed_spec (document_id : nat) (stage_name : string)
  (w : World) :
  exists b, _is_stage_completed document_id stage_name w = (Ok b, w)
            /\ (b = true <-> has_completed_run document_id stage_name
                                               (store w)).
Proof.
  unfold _is_stage_completed, db_read, has_completed_run.
  destruct (find _ (pipeline_runs (store w))) as [r |] eqn:Hf.
  - exists true. split; [done |]. split; [intros _ | done].
    apply find_some in Hf as [Hin Hc].
    apply is_completed_run_spec in Hc.
    exists r. split; [by apply list_elem_of_In | done].
  - exists false. split; [done |]. split; [done |].
    intros (r & Hin & Hc). apply list_elem_of_In in Hin.
    pose proof (find_none _ _ Hf r Hin) as Hn.
    apply is_completed_run_spec in Hc. congruence.
Qed.

End RunTableFacts.

(* ===================================================================== *)
(** ** One attempt of a stage                                             *)
(* ===================================================================== *)

Module AttemptFacts.
Import Errors Db Engine Notions RunTableFacts.
Local Open Scope engine_scope.

(** What one pass through the loop body does when the stage raises. *)
Lemma attempt_once_failure (self : PipelineEngine) (document_id : nat)
  (stage_name : string) (stage : PipelineStage)
  (correlation_id : option string) (attempt : nat) (w : World)
  (e : Exception) (s' : Store) :
  stage document_id
        (started document_id stage_name attempt correlation_id (store w))
    = (Some e, s') ->
  let rid := fresh_run_id (store w) in
  let tr := trace w ++ [EvExecute stage_name document_id] in
  let failed := mkWorld (after_failure rid e s') tr (random_samples w)
                        (random_drawn w) in
  attempt_once self document_id stage_name stage correlation_id attempt w
  = if negb (is_retryable e) then (Raise e, failed)
    else if max_retries self <? attempt then (Raise e, failed)
    else if use_jitter self then
      (Ok None,
       mkWorld (after_failure rid e s')
         (tr ++ [EvSleep (backoff_before_jitter self attempt
                          * ((1 # 2) + random_samples w (random_drawn w)))%Q])
         (random_samples w) (S (random_drawn w)))
    else
      (Ok None,
       mkWorld (after_failure rid e s')
         (tr ++ [EvSleep (backoff_before_jitter self attempt)])
         (random_samples w) (random_drawn w)).
Proof.
  intros Hstage rid tr failed.
  unfold attempt_once, _create_run_record, bind, db_read, db_write, ret.
  simpl. unfold try_except, stage_execute, bind. simpl.
  fold (fresh_run_id (store w)).
  change (set_pipeline_runs _ (store w))
    with (started document_id stage_name attempt correlation_id (store w)).
  rewrite Hstage. simpl.
  destruct (is_retryable e); simpl; [| reflexivity].
  destruct (max_retries self <? attempt); simpl; [reflexivity |].
  destruct (use_jitter self); reflexivity.
Qed.

(** What one pass through the loop body does when the stage returns. *)
Lemma attempt_once_success (self : PipelineEngine) (document_id : nat)
  (stage_name : string) (stage : PipelineStage)
  (correlation_id : option string) (attempt : nat) (w : World)
  (s' : Store) :
  stage document_id
        (started document_id stage_name attempt correlation_id (store w))
    = (None, s') ->
  attempt_once self document_id stage_name stage correlation_id attempt w
  = (Ok (Some "completed"),
     mkWorld (after_success (fresh_run_id (store w)) s')
             (trace w ++ [EvExecute stage_name document_id])
             (random_samples w) (random_drawn w)).
Proof.
  intros Hstage.
  unfold attempt_once, _create_run_record, bind, db_read, db_write, ret.
  simpl. unfold try_except, stage_execute, bind. simpl.
  fold (fresh_run_id (store w)).
  change (set_pipeline_runs _ (store w))
    with (started document_id stage_name attempt correlation_id (store w)).
  rewrite Hstage. reflexivity.
Qed.

Lemma started_runs (document_id : nat) (stage_name : string)
  (attempt : nat) (correlation_id : option string) (s : Store) :
  pipeline_runs (started document_id stage_name attempt correlation_id s)
  = pipeline_runs s
    ++ [mkPipelineRun (fresh_run_id s) document_id stage_name "running"
                      attempt None None correlation_id].
Proof. reflexivity. Qed.

(** When the stage left the run table as it found it, the failed attempt
    adds exactly one row, marked failed, and one metric. *)
Lemma after_failure_tables (document_id : nat) (stage_name : string)
  (attempt : nat) (correlation_id : option string) (s s' : Store)
  (e : Exception) :
  pipeline_runs s'
    = pipeline_runs (started document_id stage_name attempt
                             correlation_id s) ->
  let rid := fresh_run_id s in
  pipeline_runs (after_failure rid e s')
    = pipeline_runs s
      ++ [failed_run rid document_id stage_name attempt correlation_id e]
  /\ metrics (after_failure rid e s')
     = metrics s' ++ [mkMetric rid stage_name]
  /\ documents (after_failure rid e s') = documents s'
  /\ raw_content (after_failure rid e s') = raw_content s'
  /\ chunks (after_failure rid e s') = chunks s'
  /\ extractions (after_failure rid e s') = extractions s'.
Proof.
  intros Hruns rid. rewrite started_runs in Hruns.
  unfold after_failure, _get_run_stage. simpl. rewrite Hruns.
  rewrite update_run_fresh by (apply ids_below_next || reflexivity).
  rewrite find_run_fresh by (apply ids_below_next || reflexivity).
  repeat split; reflexivity.
Qed.

(** Likewise for a successful attempt: one row, marked completed. *)
Lemma after_success_tables (document_id : nat) (stage_name : string)
  (attempt : nat) (correlation_id : option string) (s s' : Store) :
  pipeline_runs s'
    = pipeline_runs (started document_id stage_name attempt
                             correlation_id s) ->
  let rid := fresh_run_id s in
  pipeline_runs (after_success rid s')
    = pipeline_runs s
      ++ [completed_run rid document_id stage_name attempt correlation_id]
  /\ metrics (after_success rid s') = metrics s' ++ [mkMetric rid stage_name]
  /\ documents (after_success rid s') = documents s'
  /\ raw_content (after_success rid s') = raw_content s'
  /\ chunks (after_success rid s') = chunks s'
  /\ extractions (after_success rid s') = extractions s'.
Proof.
  intros Hruns rid. rewrite started_runs in Hruns.
  unfold after_success, _get_run_stage. simpl. rewrite Hruns.
  rewrite update_run_fresh by (apply ids_below_next || reflexivity).
  rewrite find_run_fresh by (apply ids_below_next || reflexivity).
  repeat split; reflexivity.
Qed.

End AttemptFacts.

(* ===================================================================== *)
(** ** Non-retryable errors end the stage after one attempt               *)
(* ===================================================================== *)

Module SingleAttempt.
Import Errors Db Engine Notions RunTableFacts AttemptFacts ErrorFacts.

Lemma sleeps_app (tr1 tr2 : list Event) :
  sleeps (tr1 ++ tr2) = sleeps tr1 ++ sleeps tr2.
Proof.
  induction tr1 as [| [name d | q] tr1 IH]; simpl; [done | done |].
  by rewrite IH.
Qed.

Lemma executions_app (tr1 tr2 : list Event) :
  executions (tr1 ++ tr2) = executions tr1 + executions tr2.
Proof.
  induction tr1 as [| [name d | q] tr1 IH]; simpl; [done | | done].
  by rewrite IH.
Qed.

(** The first attempt of a stage that raises a non-retryable error is
    the only one. *)
Lemma first_attempt_not_retryable (self : PipelineEngine)
  (document_id : nat) (stage_name : string) (stage : PipelineStage)
  (correlation_id : option string) (w : World) (e : Exception)
  (s' : Store) :
  stage document_id
        (started document_id stage_name 1 correlation_id (store w))
    = (Some e, s') ->
  is_retryable e = false ->
  _execute_stage_with_retry self document_id stage_name stage
                            correlation_id w
  = (Raise e,
     mkWorld (after_failure (fresh_run_id (store w)) e s')
             (trace w ++ [EvExecute stage_name document_id])
             (random_samples w) (random_drawn w)).
Proof.
  intros Hstage Hnr. unfold _execute_stage_with_retry.
  rewrite Nat.add_1_r. simpl. unfold bind.
  rewrite (attempt_once_failure _ _ _ _ _ _ _ _ _ Hstage).
  by rewrite Hnr.
Qed.

(** C3.  An error is retryable exactly when its class is
    [TransientExternalError].  When the first attempt of a stage raises
    an error of any other class (and the stage left the run table alone),
    the engine re-raises that error after this one attempt: the run table
    gains one row, marked failed, carrying [classify_error e] as its
    error type; the stage was executed once and the engine did not
    sleep. *)
Theorem non_retryable_error_single_attempt (self : PipelineEngine)
  (document_id : nat) (stage_name : string) (stage : PipelineStage)
  (correlation_id : option string) (w : World) (e : Exception)
  (s' : Store) :
  stage document_id
        (started document_id stage_name 1 correlation_id (store w))
    = (Some e, s') ->
  pipeline_runs s'
    = pipeline_runs (started document_id stage_name 1 correlation_id
                             (store w)) ->
  exc_class e <> TransientExternalError ->
  (forall e0, is_retryable e0 = true
              <-> exc_class e0 = TransientExternalError)
  /\ exists w',
       _execute_stage_with_retry self document_id stage_name stage
                                 correlation_id w = (Raise e, w')
       /\ pipeline_runs (store w')
          = pipeline_runs (store w)
            ++ [mkPipelineRun (fresh_run_id (store w)) document_id
                  stage_name "failed" 1 (Some (classify_error e))
                  (Some (PyStr.slice_to 1000 (py_str e))) correlation_id]
       /\ trace w' = trace w ++ [EvExecute stage_name document_id]
       /\ executions (trace w') = S (executions (trace w))
       /\ sleeps (trace w') = sleeps (trace w).
Proof.
  intros Hstage Hruns Hclass. split; [exact is_retryable_iff |].
  assert (Hnr : is_retryable e = false).
  { destruct (is_retryable e) eqn:Hr; [| done].
    by apply is_retryable_iff in Hr. }
  eexists. split; [by apply first_attempt_not_retryable |].
  cbn [store trace].
  destruct (after_failure_tables _ _ _ _ _ _ e Hruns) as (-> & _).
  split; [reflexivity |]. split; [reflexivity |].
  rewrite executions_app, sleeps_app. simpl.
  split; [lia | by rewrite app_nil_r].
Qed.

Lemma non_retryable_error_single_attempt_witness :
  exists w',
    _execute_stage_with_retry
      (Samples.two_stage_engine (Samples.fails_with Samples.bad_request)
                                true)
      1 "structured_extraction" (Samples.fails_with Samples.bad_request)
      None Samples.world1 = (Raise Samples.bad_request, w')
    /\ pipeline_runs (store w')
       = [mkPipelineRun 1 1 "structured_extraction" "failed" 1
            (Some "model_output") (Some "API error: 400") None]
    /\ trace w' = [EvExecute "structured_extraction" 1].
Proof.
  destruct (non_retryable_error_single_attempt
              (Samples.two_stage_engine
                 (Samples.fails_with Samples.bad_request) true)
              1 "structured_extraction"
              (Samples.fails_with Samples.bad_request) None Samples.world1
              Samples.bad_request
              (started 1 "structured_extraction" 1 None Samples.store1)
              eq_refl eq_refl ltac:(discriminate))
    as (_ & w' & Hrun & Hruns & Htrace & _).
  exists w'. split; [exact Hrun |]. split; [exact Hruns | exact Htrace].
Defined.

(** C10.  An exception that is an instance of none of the eleven
    taxonomy classes is classified [unknown] and is not retryable.  When
    the first attempt of a stage raises it (and the stage left the run
    table alone), the engine re-raises it after this one attempt, having
    recorded one failed run whose error type is [unknown]. *)
Theorem unknown_error_single_attempt (self : PipelineEngine)
  (document_id : nat) (stage_name : string) (stage : PipelineStage)
  (correlation_id : option string) (w : World) (e : Exception)
  (s' : Store) :
  Forall (fun c => isinstance e c = false) taxonomy ->
  stage document_id
        (started document_id stage_name 1 correlation_id (store w))
    = (Some e, s') ->
  pipeline_runs s'
    = pipeline_runs (started document_id stage_name 1 correlation_id
                             (store w)) ->
  classify_error e = "unknown"
  /\ is_retryable e = false
  /\ exists w',
       _execute_stage_with_retry self document_id stage_name stage
                                 correlation_id w = (Raise e, w')
       /\ pipeline_runs (store w')
          = pipeline_runs (store w)
            ++ [mkPipelineRun (fresh_run_id (store w)) document_id
                  stage_name "failed" 1 (Some "unknown")
                  (Some (PyStr.slice_to 1000 (py_str e))) correlation_id]
       /\ executions (trace w') = S (executions (trace w))
       /\ sleeps (trace w') = sleeps (trace w).
Proof.
  intros Hnone Hstage Hruns.
  pose proof (classify_unknown e Hnone) as Hunknown.
  assert (Hnr : is_retryable e = false).
  { unfold taxonomy in Hnone. by apply Forall_cons in Hnone as [? _]. }
  split; [exact Hunknown |]. split; [exact Hnr |].
  eexists. split; [by apply first_attempt_not_retryable |].
  cbn [store trace].
  destruct (after_failure_tables _ _ _ _ _ _ e Hruns) as (-> & _).
  unfold failed_run. rewrite Hunknown.
  split; [reflexivity |].
  rewrite executions_app, sleeps_app. simpl.
  split; [lia | by rewrite app_nil_r].
Qed.

Lemma unknown_error_single_attempt_witness :
  classify_error Samples.key_error = "unknown"
  /\ is_retryable Samples.key_error = false
  /\ exists w',
       _execute_stage_with_retry
         (Samples.two_stage_engine (Samples.fails_with Samples.key_error)
                                   false)
         1 "structured_extraction" (Samples.fails_with Samples.key_error)
         None Samples.world1 = (Raise Samples.key_error, w')
       /\ pipeline_runs (store w')
          = [mkPipelineRun 1 1 "structured_extraction" "failed" 1
               (Some "unknown") (Some "'choices'") None].
Proof.
  destruct (unknown_error_single_attempt
              (Samples.two_stage_engine
                 (Samples.fails_with Samples.key_error) false)
              1 "structured_extraction"
              (Samples.fails_with Samples.key_error) None Samples.world1
              Samples.key_error
              (started 1 "structured_extraction" 1 None Samples.store1)
              ltac:(repeat constructor) eq_refl eq_refl)
    as (Hc & Hr & w' & Hrun & Hruns & _).
  split; [exact Hc |]. split; [exact Hr |].
  exists w'. split; [exact Hrun | exact Hruns].
Defined.

End SingleAttempt.

(* ===================================================================== *)
(** ** The back-off between attempts                                      *)
(* ===================================================================== *)

Module Backoff.
Import Errors Db Engine Notions RunTableFacts AttemptFacts ErrorFacts
       SingleAttempt.






End Backoff.

(* ===================================================================== *)
(** ** Completed stages are skipped                                       *)
(* ===================================================================== *)

Module Skipping.
Import Errors Db Engine Notions RunTableFacts AttemptFacts.

Lemma all_skipped_keeps (names : list string) (results : gmap string string)
  (name : string) :
  results !! name = Some "skipped" ->
  all_skipped names results !! name = Some "skipped".
Proof.
  revert results. induction names as [| n names IH]; intros results Hr;
    [done |].
  simpl. apply IH. destruct (decide (n = name)) as [-> | Hne].
  - apply lookup_insert_eq.
  - by rewrite lookup_insert_ne.
Qed.

Lemma all_skipped_lookup (names : list string)
  (results : gmap string string) (name : string) :
  name ∈ names -> all_skipped names results !! name = Some "skipped".
Proof.
  revert results. induction names as [| n names IH]; intros results Hin.
  - by apply elem_of_nil in Hin.
  - simpl. apply elem_of_cons in Hin as [-> | Hin].
    + apply all_skipped_keeps, lookup_insert_eq.
    + by apply IH.
Qed.

Lemma all_skipped_other (names : list string)
  (results : gmap string string) (name : string) :
  name ∉ names -> all_skipped names results !! name = results !! name.
Proof.
  revert results. induction names as [| n names IH]; intros results Hin;
    [done |].
  simpl. apply not_elem_of_cons in Hin as [Hne Hin].
  rewrite IH by done. by rewrite lookup_insert_ne.
Qed.

(** The loop passes over a registered stage that has a completed run:
    it records [skipped] and goes on in the same world. *)
Lemma run_stages_skip (self : PipelineEngine) (document_id : nat)
  (correlation_id : option string) (stage_name : string)
  (rest : list string) (results : gmap string string) (w : World) :
  is_Some (_stages (registry self) !! stage_name) ->
  has_completed_run document_id stage_name (store w) ->
  run_stages self document_id correlation_id (stage_name :: rest) results w
  = run_stages self document_id correlation_id rest
               (<[stage_name := "skipped"]> results) w.
Proof.
  intros [stage Hstage] Hdone.
  destruct (is_stage_completed_spec document_id stage_name w)
    as (b & Hq & Hb).
  apply Hb in Hdone. subst b.
  cbn [run_stages]. unfold get_stage. rewrite Hstage.
  unfold bind at 1. unfold ret at 1. unfold bind at 1. by rewrite Hq.
Qed.

Lemma run_stages_skip_all (self : PipelineEngine) (document_id : nat)
  (correlation_id : option string) (done : list string) (w : World) :
  (forall name, name ∈ done ->
     is_Some (_stages (registry self) !! name)
     /\ has_completed_run document_id name (store w)) ->
  forall rest results,
    run_stages self document_id correlation_id (done ++ rest) results w
    = run_stages self document_id correlation_id rest
                 (all_skipped done results) w.
Proof.
  induction done as [| name done IH]; intros Hall rest results; [done |].
  destruct (Hall name ltac:(apply elem_of_cons; by left)) as [Hreg Hrun].
  rewrite <- app_comm_cons, run_stages_skip by done.
  rewrite IH; [done |]. intros n Hn. apply Hall, elem_of_cons. by right.
Qed.

Lemma execute_pipeline_all_done (self : PipelineEngine) (document_id : nat)
  (correlation_id : option string) (w : World) :
  (forall name, name ∈ get_ordered_stages (registry self) ->
     is_Some (_stages (registry self) !! name)
     /\ has_completed_run document_id name (store w)) ->
  execute_pipeline self document_id correlation_id w
  = (Ok (all_skipped (get_ordered_stages (registry self)) ∅),
     with_store
       (set_documents (update_document_status document_id "completed")
                      (store w)) w).
Proof.
  intros Hall. unfold execute_pipeline.
  rewrite <- (app_nil_r (get_ordered_stages _)) at 1. unfold bind at 1.
  by rewrite run_stages_skip_all.
Qed.

(** C1.  Let every stage of [done] be registered and have a completed
    run for the document.  Then the loop over [done ++ rest] reaches
    [rest] in the world it started in, with [skipped] recorded for each
    stage of [done]: no [execute] was called and nothing was written.
    When [done] is the whole stage order, [execute_pipeline] returns
    [skipped] for every stage, and the only thing it writes is the status
    [completed] of the document. *)
Theorem completed_stages_are_skipped (self : PipelineEngine)
  (document_id : nat) (correlation_id : option string)
  (done rest : list string) (results : gmap string string) (w : World) :
  (forall name, name ∈ done ->
     is_Some (_stages (registry self) !! name)
     /\ has_completed_run document_id name (store w)) ->
  run_stages self document_id correlation_id (done ++ rest) results w
  = run_stages self document_id correlation_id rest
               (all_skipped done results) w
  /\ (get_ordered_stages (registry self) = done ->
      execute_pipeline self document_id correlation_id w
      = (Ok (all_skipped done ∅),
         with_store
           (set_documents (update_document_status document_id "completed")
                          (store w)) w)
      /\ forall name, name ∈ done ->
           all_skipped done ∅ !! name = Some "skipped").
Proof.
  intros Hall. split; [by apply run_stages_skip_all |]. intros Horder.
  split; [| intros name Hin; by apply all_skipped_lookup].
  subst done. by apply execute_pipeline_all_done.
Qed.

(** A document that went through both stages of a two-stage engine: the
    next run executes nothing and reports [skipped] twice. *)
Lemma completed_stages_are_skipped_witness :
  execute_pipeline
    (Samples.two_stage_engine (Samples.writes_status "extracted") true)
    1 None Samples.world_done
  = (Ok (<["structured_extraction" := "skipped"]>
           (<["ingest" := "skipped"]> ∅)),
     Samples.world_done).
Proof.
  refine (proj1 (proj2 (completed_stages_are_skipped
            (Samples.two_stage_engine (Samples.writes_status "extracted")
                                      true)
            1 None ["ingest"; "structured_extraction"] [] ∅
            Samples.world_done _) eq_refl)).
  intros name Hin.
  apply elem_of_cons in Hin as [-> | Hin];
    [| apply elem_of_cons in Hin as [-> | Hin];
       [| by apply elem_of_nil in Hin]].
  - split; [by eexists |].
    eexists. split; [apply list_elem_of_here |]. by repeat split.
  - split; [by eexists |].
    eexists. split; [apply list_elem_of_further, list_elem_of_here |].
    by repeat split.
Defined.

End Skipping.

(* ===================================================================== *)
(** ** What every run of the retry loop and of the stage loop preserves   *)
(* ===================================================================== *)

Module LoopFacts.
Import Errors Db Engine Notions RunTableFacts AttemptFacts.

Lemma bind_inv {A B} (c : M A) (k : A -> M B) (w w' : World)
  (r : Result B) :
  bind c k w = (r, w') ->
  (exists a w1, c w = (Ok a, w1) /\ k a w1 = (r, w'))
  \/ (exists e, c w = (Raise e, w') /\ r = Raise e).
Proof.
  unfold bind. destruct (c w) as [[a | e] w1]; intros H.
  - left. eauto.
  - right. inversion H; subst. eauto.
Qed.

(** The two ways one pass through the loop body can go. *)
Lemma attempt_once_cases (self : PipelineEngine) (document_id : nat)
  (stage_name : string) (stage : PipelineStage)
  (correlation_id : option string) (attempt : nat) (w w1 : World)
  (r : Result (option string)) :
  attempt_once self document_id stage_name stage correlation_id attempt w
    = (r, w1) ->
  let s0 := started document_id stage_name attempt correlation_id (store w)
  in
  (exists s', stage document_id s0 = (None, s')
              /\ r = Ok (Some "completed")
              /\ store w1 = after_success (fresh_run_id (store w)) s')
  \/ (exists e s', stage document_id s0 = (Some e, s')
                   /\ (r = Raise e \/ r = Ok None)
                   /\ store w1 = after_failure (fresh_run_id (store w)) e s').
Proof.
  intros Hrun s0.
  destruct (stage document_id s0) as [[e |] s'] eqn:Hstage.
  - right. exists e, s'. split; [done |].
    rewrite (attempt_once_failure _ _ _ _ _ _ _ _ _ Hstage) in Hrun.
    destruct (negb (is_retryable e)); [| destruct (max_retries self <? _);
      [| destruct (use_jitter self)]];
      inversion Hrun; subst; simpl; auto.
  - left. exists s'. split; [done |].
    rewrite (attempt_once_success _ _ _ _ _ _ _ _ Hstage) in Hrun.
    inversion Hrun; subst; simpl; auto.
Qed.

Section RetryLoop.
Variables (self : PipelineEngine) (document_id : nat)
          (stage_name : string) (stage : PipelineStage)
          (correlation_id : option string).

(** A property of the database that every pass through the loop body
    keeps is kept by the whole loop, however it ends. *)
Lemma retry_loop_invariant (I : Store -> Prop) :
  (forall a w r w1,
     attempt_once self document_id stage_name stage correlation_id a w
       = (r, w1) -> I (store w) -> I (store w1)) ->
  forall attempts w r w',
    retry_loop self document_id stage_name stage correlation_id
               attempts w = (r, w') ->
    I (store w) -> I (store w').
Proof.
  intros Hstep. induction attempts as [| a attempts IH];
    intros w r w' Hrun HI.
  - simpl in Hrun. inversion Hrun; by subst.
  - cbn [retry_loop] in Hrun.
    apply bind_inv in Hrun as [(o & w1 & Hatt & Hk) | (e & Hatt & ->)].
    + pose proof (Hstep _ _ _ _ Hatt HI) as HI1.
      destruct o as [v |].
      * inversion Hk; by subst.
      * by eapply IH.
    + by eapply Hstep.
Qed.

(** The loop returns only after a successful attempt, and then it
    returns [completed]. *)
Lemma retry_loop_returns (attempts : list nat) (w w' : World)
  (v : string) :
  retry_loop self document_id stage_name stage correlation_id
             attempts w = (Ok v, w') ->
  v = "completed"
  /\ exists a w0 s',
       stage document_id
             (started document_id stage_name a correlation_id (store w0))
         = (None, s')
       /\ store w' = after_success (fresh_run_id (store w0)) s'.
Proof.
  revert w. induction attempts as [| a attempts IH]; intros w Hrun.
  - simpl in Hrun. inversion Hrun.
  - cbn [retry_loop] in Hrun.
    apply bind_inv in Hrun as [(o & w1 & Hatt & Hk) | (e & _ & ?)];
      [| done].
    destruct o as [v1 |]; [| by eapply IH].
    inversion Hk; subst.
    apply attempt_once_cases in Hatt
      as [(s' & Hs & Hr & Hst) | (e & s' & _ & [Hr | Hr] & _)];
      try discriminate.
    inversion Hr; subst. split; [done |]. eauto.
Qed.
End RetryLoop.

End LoopFacts.

(* ===================================================================== *)
(** ** The engine and the documents table                                 *)
(* ===================================================================== *)

Module DocumentStatus.
Import Errors Db Engine Notions RunTableFacts AttemptFacts LoopFacts
       Skipping.

Lemma recorded_insert (results : gmap string string) (n name v : string) :
  v = "completed" \/ v = "skipped" ->
  name = n \/ recorded results name ->
  recorded (<[n := v]> results) name.
Proof.
  intros Hv Hname. unfold recorded.
  destruct (decide (n = name)) as [-> | Hne].
  - rewrite lookup_insert_eq. destruct Hv as [-> | ->]; auto.
  - rewrite lookup_insert_ne by done.
    destruct Hname as [-> | Hr]; [done | exact Hr].
Qed.

Section Frame.
Variables (self : PipelineEngine) (document_id : nat)
          (correlation_id : option string).
Variable P : list Document -> Prop.
Hypothesis stages_keep_P :
  forall name stage d s,
    _stages (registry self) !! name = Some stage ->
    P (documents s) -> P (documents (snd (stage d s))).

Lemma attempt_once_keeps (stage_name : string) (stage : PipelineStage)
  (a : nat) (w w1 : World) (r : Result (option string)) :
  _stages (registry self) !! stage_name = Some stage ->
  attempt_once self document_id stage_name stage correlation_id a w
    = (r, w1) ->
  P (documents (store w)) -> P (documents (store w1)).
Proof.
  intros Hreg Hrun HP.
  pose proof (stages_keep_P stage_name stage document_id
                (started document_id stage_name a correlation_id
                         (store w)) Hreg HP) as Hs.
  apply attempt_once_cases in Hrun
    as [(s' & Hst & _ & ->) | (e & s' & Hst & _ & ->)];
    rewrite Hst in Hs; exact Hs.
Qed.

Lemma run_stages_keeps (stages : list string) :
  forall results w r w',
    run_stages self document_id correlation_id stages results w
      = (r, w') ->
    P (documents (store w)) ->
    P (documents (store w'))
    /\ forall res, r = Ok res ->
         forall name, name ∈ stages \/ recorded results name ->
                      recorded res name.
Proof.
  induction stages as [| stage_name stages IH];
    intros results w r w' Hrun HP.
  - simpl in Hrun. inversion Hrun; subst. split; [done |].
    intros res [= <-] name [Hin | Hr]; [by apply elem_of_nil in Hin | done].
  - cbn [run_stages] in Hrun. unfold get_stage in Hrun.
    destruct (_stages (registry self) !! stage_name) as [stage |] eqn:Hreg.
    2: { inversion Hrun; subst. split; [done | discriminate]. }
    unfold bind at 1 in Hrun. unfold ret at 1 in Hrun.
    destruct (is_stage_completed_spec document_id stage_name w)
      as (b & Hq & _).
    unfold bind at 1 in Hrun. rewrite Hq in Hrun.
    destruct b.
    + destruct (IH _ _ _ _ Hrun HP) as [HP' Hres].
      split; [done |]. intros res Hr name Hname.
      apply (Hres res Hr). destruct Hname as [Hin | Hrec].
      * apply elem_of_cons in Hin as [-> | Hin]; [| by left].
        right. apply recorded_insert; [by right | by left].
      * right. apply recorded_insert; [by right | by right].
    + apply bind_inv in Hrun
        as [(v & w1 & Hretry & Hk) | (e & Hretry & ->)].
      * pose proof (retry_loop_invariant self document_id stage_name
                      stage correlation_id (fun s => P (documents s))
                      (fun a w0 r0 w2 H =>
                         attempt_once_keeps stage_name stage a w0 w2 r0
                                            Hreg H)
                      _ _ _ _ Hretry HP) as HP1.
        apply retry_loop_returns in Hretry as [-> _].
        destruct (IH _ _ _ _ Hk HP1) as [HP' Hres].
        split; [done |]. intros res Hr name Hname.
        apply (Hres res Hr). destruct Hname as [Hin | Hrec].
        -- apply elem_of_cons in Hin as [-> | Hin]; [| by left].
           right. apply recorded_insert; [by left | by left].
        -- right. apply recorded_insert; [by left | by right].
      * split; [| discriminate].
        exact (retry_loop_invariant self document_id stage_name
                 stage correlation_id (fun s => P (documents s))
                 (fun a w0 r0 w2 H =>
                    attempt_once_keeps stage_name stage a w0 w2 r0
                                       Hreg H)
                 _ _ _ _ Hretry HP).
Qed.
End Frame.

Section LastSuccess.
Variables (self : PipelineEngine) (document_id : nat)
          (correlation_id : option string).
Hypothesis failures_keep_documents :
  forall name stage,
    _stages (registry self) !! name = Some stage ->
    failing_keeps_documents stage.

(** A retry loop that ends with an error has left the documents table
    as it found it. *)
Lemma retry_loop_raise_documents (stage_name : string)
  (stage : PipelineStage) (attempts : list nat) :
  _stages (registry self) !! stage_name = Some stage ->
  forall w e w',
    retry_loop self document_id stage_name stage correlation_id
               attempts w = (Raise e, w') ->
    documents (store w') = documents (store w).
Proof.
  intros Hreg. induction attempts as [| a attempts IH];
    intros w e w' Hrun.
  - simpl in Hrun. inversion Hrun; by subst.
  - cbn [retry_loop] in Hrun.
    apply bind_inv in Hrun as [(o & w1 & Hatt & Hk) | (e1 & Hatt & _)].
    + apply attempt_once_cases in Hatt
        as [(s' & _ & [= ->] & _) | (e1 & s' & Hst & _ & Hstore)].
      * inversion Hk.
      * assert (Hdocs : documents (store w1) = documents (store w)).
        { rewrite Hstore.
          exact (failures_keep_documents _ _ Hreg _ _ _ _ Hst). }
        destruct o as [v |]; [inversion Hk |].
        rewrite <- Hdocs. by eapply IH.
    + apply attempt_once_cases in Hatt
        as [(s' & _ & ? & _) | (e2 & s' & Hst & _ & Hstore)];
        [discriminate |].
      rewrite Hstore.
      exact (failures_keep_documents _ _ Hreg _ _ _ _ Hst).
Qed.

(** A stage loop that ends with an error has left the documents table
    as it found it, or as the last successful stage left it. *)
Lemma run_stages_raise_documents (stages : list string) :
  forall results w e w',
    run_stages self document_id correlation_id stages results w
      = (Raise e, w') ->
    documents (store w') = documents (store w)
    \/ left_by_successful_stage self document_id (documents (store w')).
Proof.
  induction stages as [| stage_name stages IH];
    intros results w e w' Hrun.
  - inversion Hrun.
  - cbn [run_stages] in Hrun. unfold get_stage in Hrun.
    destruct (_stages (registry self) !! stage_name) as [stage |] eqn:Hreg.
    2: { inversion Hrun; subst. by left. }
    unfold bind at 1 in Hrun. unfold ret at 1 in Hrun.
    destruct (is_stage_completed_spec document_id stage_name w)
      as (b & Hq & _).
    unfold bind at 1 in Hrun. rewrite Hq in Hrun.
    destruct b; [by eapply IH |].
    apply bind_inv in Hrun
      as [(v & w1 & Hretry & Hk) | (e1 & Hretry & _)].
    + apply retry_loop_returns in Hretry
        as (_ & a & w0 & s' & Hst & Hstore).
      destruct (IH _ _ _ _ Hk) as [Hsame | Hlast]; [| by right].
      right. exists stage_name, stage. eexists. exists s'.
      split; [done |]. split; [exact Hst |].
      rewrite Hsame, Hstore. reflexivity.
    + left. by eapply retry_loop_raise_documents.
Qed.
End LastSuccess.

(** C4.  Let [P] be any property of the documents table that no
    registered stage destroys, whether its [execute] returns or raises.
    A pipeline run that ends with a raised error leaves [P] true: the
    engine itself wrote nothing to the table (so no status [failed], and
    no status [completed]); and when the failed executions of the stages
    leave the table alone, the table is the one the run found, or the
    one the last successful stage left.  A run that returns has recorded
    [completed] or [skipped] for every stage of the order, and its
    documents table is a table satisfying [P] with the status of the
    document set to [completed]. *)
Theorem failed_run_leaves_document_status (self : PipelineEngine)
  (document_id : nat) (correlation_id : option string)
  (P : list Document -> Prop) (w w' : World)
  (r : Result (gmap string string)) :
  (forall name stage d s,
     _stages (registry self) !! name = Some stage ->
     P (documents s) -> P (documents (snd (stage d s)))) ->
  P (documents (store w)) ->
  execute_pipeline self document_id correlation_id w = (r, w') ->
  match r with
  | Raise _ =>
      P (documents (store w'))
      /\ ((forall name stage,
             _stages (registry self) !! name = Some stage ->
             failing_keeps_documents stage) ->
          documents (store w') = documents (store w)
          \/ left_by_successful_stage self document_id
                                      (documents (store w')))
  | Ok results =>
      (forall name, name ∈ get_ordered_stages (registry self) ->
                    recorded results name)
      /\ exists docs,
           P docs
           /\ documents (store w')
              = update_document_status document_id "completed" docs
  end.
Proof.
  intros Hkeep HP Hrun. unfold execute_pipeline in Hrun.
  apply bind_inv in Hrun as [(res & w1 & Hloop & Hk) | (e & Hloop & ->)].
  - destruct (run_stages_keeps self document_id correlation_id P Hkeep
                _ _ _ _ _ Hloop HP) as [HP1 Hres].
    unfold bind, db_write, ret in Hk. simpl in Hk.
    injection Hk as <- <-. split.
    + intros name Hin. apply (Hres res eq_refl). by left.
    + exists (documents (store w1)). by split.
  - split.
    + by destruct (run_stages_keeps self document_id correlation_id P
                     Hkeep _ _ _ _ _ Hloop HP).
    + intros Hfail.
      by eapply (run_stages_raise_documents self document_id
                   correlation_id Hfail).
Qed.

(** The second stage of a two-stage engine rejects the document: the
    run ends with that error, no document is marked failed or completed,
    and the status is the one the first stage wrote. *)
Lemma failed_run_leaves_document_status_witness :
  exists w',
    execute_pipeline
      (Samples.two_stage_engine (Samples.fails_with Samples.bad_request)
                                true)
      1 None Samples.world1 = (Raise Samples.bad_request, w')
    /\ Forall (fun d => doc_status d <> "failed"
                        /\ doc_status d <> "completed")
              (documents (store w'))
    /\ (documents (store w') = documents Samples.store1
        \/ left_by_successful_stage
             (Samples.two_stage_engine
                (Samples.fails_with Samples.bad_request) true)
             1 (documents (store w'))).
Proof.
  destruct (execute_pipeline
              (Samples.two_stage_engine
                 (Samples.fails_with Samples.bad_request) true)
              1 None Samples.world1) as [r w'] eqn:Hrun.
  pose proof (failed_run_leaves_document_status
                (Samples.two_stage_engine
                   (Samples.fails_with Samples.bad_request) true)
                1 None
                (Forall (fun d => doc_status d <> "failed"
                                  /\ doc_status d <> "completed"))
                Samples.world1 w' r) as H.
  assert (Hr : r = Raise Samples.bad_request).
  { vm_compute in Hrun. by inversion Hrun. }
  subst r. exists w'. split; [reflexivity |].
  destruct H as [HP Hlast]; [| | exact Hrun | ].
  - intros name stage d s Hl HP.
    cbn [Samples.two_stage_engine registry _stages] in Hl.
    apply lookup_insert_Some in Hl as [[_ <-] | [_ Hl]].
    + simpl. unfold update_document_status. apply Forall_map.
      eapply Forall_impl; [exact HP |]. simpl. intros x Hx.
      destruct (doc_id x =? d); [by split | exact Hx].
    + apply lookup_insert_Some in Hl as [[_ <-] | [_ Hl]]; [exact HP |].
      by rewrite lookup_empty in Hl.
  - repeat constructor; discriminate.
  - split; [exact HP |]. apply Hlast.
    intros name stage Hl d s e s' Hst.
    cbn [Samples.two_stage_engine registry _stages] in Hl.
    apply lookup_insert_Some in Hl as [[_ <-] | [_ Hl]];
      [discriminate |].
    apply lookup_insert_Some in Hl as [[_ <-] | [_ Hl]].
    + by injection Hst as _ <-.
    + by rewrite lookup_empty in Hl.
Defined.

End DocumentStatus.

(* ===================================================================== *)
(** ** Running the pipeline twice                                         *)
(* ===================================================================== *)

Module Idempotency.
Import Errors Db Engine Notions RunTableFacts AttemptFacts LoopFacts
       Skipping.

Lemma update_document_status_twice (document_id : nat) (status : string)
  (docs : list Document) :
  update_document_status document_id status
    (update_document_status document_id status docs)
  = update_document_status document_id status docs.
Proof.
  unfold update_document_status. rewrite map_map. apply map_ext.
  intros d. destruct (doc_id d =? document_id) eqn:Hd; simpl.
  - by rewrite Hd.
  - by rewrite Hd.
Qed.

Section KeepsRuns.
Variables (self : PipelineEngine) (document_id : nat)
          (correlation_id : option string).
Hypothesis stages_keep_runs :
  forall name stage,
    _stages (registry self) !! name = Some stage ->
    keeps_run_tables stage.

(** Every pass through the loop body only adds a row to the run
    table. *)
Lemma attempt_once_grows (stage_name : string) (stage : PipelineStage)
  (a : nat) (w w1 : World) (r : Result (option string)) :
  _stages (registry self) !! stage_name = Some stage ->
  attempt_once self document_id stage_name stage correlation_id a w
    = (r, w1) ->
  exists row, pipeline_runs (store w1) = pipeline_runs (store w) ++ [row]
              /\ (r = Ok (Some "completed") ->
                  row = completed_run (fresh_run_id (store w))
                          document_id stage_name a correlation_id).
Proof.
  intros Hreg Hrun.
  destruct (stages_keep_runs _ _ Hreg document_id
              (started document_id stage_name a correlation_id
                       (store w))) as [Hruns _].
  apply attempt_once_cases in Hrun
    as [(s' & Hst & -> & ->) | (e & s' & Hst & Hr & ->)];
    rewrite Hst in Hruns; simpl in Hruns.
  - destruct (after_success_tables _ _ _ _ _ _ Hruns) as (-> & _).
    eexists. split; [reflexivity | done].
  - destruct (after_failure_tables _ _ _ _ _ _ e Hruns) as (-> & _).
    eexists. split; [reflexivity |].
    destruct Hr as [-> | ->]; discriminate.
Qed.

Lemma has_completed_run_app (name : string) (s s1 : Store)
  (rows : list PipelineRun) :
  pipeline_runs s1 = pipeline_runs s ++ rows ->
  has_completed_run document_id name s ->
  has_completed_run document_id name s1.
Proof.
  intros Hruns (r & Hin & Hr). exists r. split; [| done].
  rewrite Hruns. apply elem_of_app. by left.
Qed.

(** The retry loop keeps the completed runs there are, and when it
    returns it has added one for its stage. *)
Lemma retry_loop_completes (stage_name : string) (stage : PipelineStage)
  (attempts : list nat) :
  _stages (registry self) !! stage_name = Some stage ->
  forall w r w',
    retry_loop self document_id stage_name stage correlation_id
               attempts w = (r, w') ->
    (forall name, has_completed_run document_id name (store w) ->
                  has_completed_run document_id name (store w'))
    /\ (forall v, r = Ok v ->
                  has_completed_run document_id stage_name (store w')).
Proof.
  intros Hreg. induction attempts as [| a attempts IH];
    intros w r w' Hrun.
  - simpl in Hrun. inversion Hrun; subst. split; [done | discriminate].
  - cbn [retry_loop] in Hrun.
    apply bind_inv in Hrun as [(o & w1 & Hatt & Hk) | (e & Hatt & ->)].
    + destruct (attempt_once_grows _ _ _ _ _ _ Hreg Hatt)
        as (row & Hruns & Hrow).
      destruct o as [v1 |].
      * inversion Hk; subst. split.
        -- intros name. exact (has_completed_run_app name _ _ [row] Hruns).
        -- intros v _.
           apply attempt_once_cases in Hatt
             as [(s' & _ & Hr & _) | (e & s' & _ & [Hr | Hr] & _)];
             try discriminate.
           rewrite (Hrow Hr) in Hruns.
           eexists. split; [rewrite Hruns; apply elem_of_app; right;
                            apply list_elem_of_here |].
           by repeat split.
      * destruct (IH _ _ _ Hk) as [Hmono Hdone]. split; [| done].
        intros name Hc. apply Hmono.
        exact (has_completed_run_app name _ _ [row] Hruns Hc).
    + destruct (attempt_once_grows _ _ _ _ _ _ Hreg Hatt)
        as (row & Hruns & _).
      split; [| discriminate].
      intros name. exact (has_completed_run_app name _ _ [row] Hruns).
Qed.

(** When the stage loop returns, every stage it went through is
    registered and has a completed run. *)
Lemma run_stages_completes (stages : list string) :
  forall results w res w',
    run_stages self document_id correlation_id stages results w
      = (Ok res, w') ->
    (forall name, has_completed_run document_id name (store w) ->
                  has_completed_run document_id name (store w'))
    /\ forall name, name ∈ stages ->
         is_Some (_stages (registry self) !! name)
         /\ has_completed_run document_id name (store w').
Proof.
  induction stages as [| stage_name stages IH];
    intros results w res w' Hrun.
  - simpl in Hrun. inversion Hrun; subst. split; [done |].
    intros name Hin. by apply elem_of_nil in Hin.
  - cbn [run_stages] in Hrun. unfold get_stage in Hrun.
    destruct (_stages (registry self) !! stage_name) as [stage |] eqn:Hreg.
    2: { inversion Hrun. }
    unfold bind at 1 in Hrun. unfold ret at 1 in Hrun.
    destruct (is_stage_completed_spec document_id stage_name w)
      as (b & Hq & Hb).
    unfold bind at 1 in Hrun. rewrite Hq in Hrun.
    destruct b.
    + destruct (IH _ _ _ _ Hrun) as [Hmono Hall]. split; [done |].
      intros name Hin. apply elem_of_cons in Hin as [-> | Hin];
        [| by apply Hall].
      split; [by rewrite Hreg |]. apply Hmono. by apply Hb.
    + apply bind_inv in Hrun
        as [(v & w1 & Hretry & Hk) | (e & _ & ?)]; [| done].
      destruct (retry_loop_completes _ _ _ Hreg _ _ _ Hretry)
        as [Hmono1 Hdone1].
      destruct (IH _ _ _ _ Hk) as [Hmono Hall]. split; [by auto |].
      intros name Hin. apply elem_of_cons in Hin as [-> | Hin];
        [| by apply Hall].
      split; [by rewrite Hreg |]. apply Hmono. by eapply Hdone1.
Qed.

(** A pipeline run that returned has left the document in a state in
    which the next run skips every stage and changes nothing at all. *)
Lemma second_run_changes_nothing (w0 w1 : World)
  (results : gmap string string) :
  execute_pipeline self document_id correlation_id w0 = (Ok results, w1) ->
  execute_pipeline self document_id correlation_id w1
  = (Ok (all_skipped (get_ordered_stages (registry self)) ∅), w1).
Proof.
  intros Hrun. unfold execute_pipeline in Hrun.
  apply bind_inv in Hrun as [(res & wa & Hloop & Hk) | (e & _ & ?)];
    [| done].
  unfold bind, db_write, ret in Hk. simpl in Hk.
  injection Hk as <- <-.
  destruct (run_stages_completes _ _ _ _ _ Hloop) as [_ Hall].
  rewrite execute_pipeline_all_done.
  - f_equal. unfold with_store. simpl.
    unfold set_documents at 1. simpl.
    by rewrite update_document_status_twice.
  - intros name Hin. destruct (Hall name Hin) as [Hreg Hc].
    split; [done |]. exact Hc.
Qed.
End KeepsRuns.

End Idempotency.

(* ===================================================================== *)
(** ** De-duplication of submissions                                      *)
(* ===================================================================== *)

Module Dedup.
Import Db Documents Notions.

Lemma same_hash_and_schema_key (h v : string) (d1 d2 : Document) :
  doc_key d1 = doc_key d2 ->
  same_hash_and_schema h v d1 = same_hash_and_schema h v d2.
Proof.
  unfold doc_key, same_hash_and_schema. intros [= _ -> ->]. reflexivity.
Qed.

(** Two tables with the same rows up to status answer the look-up by
    hash and schema with rows of the same key, or both with none. *)
Lemma find_same_keys (h v : string) (l1 : list Document) :
  forall l2, map doc_key l1 = map doc_key l2 ->
    match find (same_hash_and_schema h v) l1,
          find (same_hash_and_schema h v) l2 with
    | Some d1, Some d2 => doc_key d1 = doc_key d2 /\ d2 ∈ l2
    | None, None => True
    | _, _ => False
    end.
Proof.
  induction l1 as [| d1 l1 IH]; intros [| d2 l2] Hkeys;
    try discriminate; [done |].
  simpl in Hkeys.
  pose proof (f_equal (hd (doc_key d1)) Hkeys) as Hk.
  pose proof (f_equal (@tl _) Hkeys) as Hrest.
  cbn [hd tl] in Hk, Hrest. simpl.
  rewrite <- (same_hash_and_schema_key h v d1 d2 Hk).
  destruct (same_hash_and_schema h v d1).
  - split; [done | apply list_elem_of_here].
  - specialize (IH l2 Hrest).
    destruct (find _ l1), (find _ l2); try done.
    destruct IH as [? ?]. split; [done | by apply list_elem_of_further].
Qed.

Lemma find_app_none {A} (p : A -> bool) (l : list A) (x : A) :
  find p l = None -> p x = true -> find p (l ++ [x]) = Some x.
Proof.
  induction l as [| y l IH]; simpl; intros Hn Hx; [by rewrite Hx |].
  destruct (p y); [done | by apply IH].
Qed.

Section Handler.
Variable hash_content : string -> string.
Variable settings : Settings.

(** A submission that matches a stored document returns the first such
    row's key and status, and leaves the application as it was. *)
Lemma submit_existing (uuid : string) (file : UploadFile)
  (schema_version : string) (st : AppState) (existing : Document) :
  (storage_max_file_size_mb settings * 1024 * 1024
     <? N.of_nat (String.length (content file)))%N = false ->
  find (same_hash_and_schema (hash_content (content file)) schema_version)
       (documents (db st)) = Some existing ->
  submit_document hash_content settings uuid file schema_version st
  = (Returned (mkDocumentSubmitResponse (doc_id existing) uuid
                 (doc_status existing)), st).
Proof.
  intros Hsize Hfind. unfold submit_document.
  rewrite Hsize. cbv zeta. by rewrite Hfind.
Qed.

(** C9.  Let a submission be accepted and return a document key.  Then
    in every later state whose documents are the same up to their
    status, a submission of the same bytes with the same schema
    version returns that key again, together with the status stored
    for the document at that time, and leaves the application as it
    found it: no document row, no raw-content row, and no pipeline run
    is added. *)
Theorem resubmission_returns_existing (uuid1 uuid2 : string)
  (file1 file2 : UploadFile) (schema_version : string)
  (st st1 st2 : AppState) (r1 : DocumentSubmitResponse) :
  content file1 = content file2 ->
  submit_document hash_content settings uuid1 file1 schema_version st
    = (Returned r1, st1) ->
  map doc_key (documents (db st2)) = map doc_key (documents (db st1)) ->
  exists existing,
    existing ∈ documents (db st2)
    /\ doc_id existing = document_id r1
    /\ submit_document hash_content settings uuid2 file2 schema_version
                       st2
       = (Returned (mkDocumentSubmitResponse (document_id r1) uuid2
                      (doc_status existing)), st2).
Proof.
  intros Hbytes Hfirst Hkeys. unfold submit_document in Hfirst.
  cbv zeta in Hfirst.
  destruct (_ <? _)%N eqn:Hsize; [discriminate |].
  assert (Hfound : exists d1,
             find (same_hash_and_schema (hash_content (content file1))
                                        schema_version)
                  (documents (db st1)) = Some d1
             /\ doc_id d1 = document_id r1).
  { destruct (find _ (documents (db st))) as [d |] eqn:Hfind.
    - injection Hfirst as <- <-. eauto.
    - injection Hfirst as <- <-. simpl.
      eexists. split.
      + apply find_app_none; [exact Hfind |].
        unfold same_hash_and_schema. simpl. by rewrite !String.eqb_refl.
      + reflexivity. }
  destruct Hfound as (d1 & Hf1 & Hid).
  pose proof (find_same_keys (hash_content (content file1))
                schema_version _ _ (eq_sym Hkeys)) as Hboth.
  rewrite Hf1 in Hboth.
  destruct (find _ (documents (db st2))) as [d2 |] eqn:Hf2; [| done].
  destruct Hboth as [Hk Hin]. exists d2.
  assert (Hid2 : doc_id d2 = document_id r1).
  { unfold doc_key in Hk. injection Hk as Hk _ _. congruence. }
  split; [done |]. split; [done |].
  rewrite <- Hid2. apply submit_existing.
  - by rewrite <- Hbytes.
  - by rewrite <- Hbytes.
Qed.
End Handler.

(** Five bytes submitted twice to an empty application: the same key both
    times, one document row, one raw-content row, one pipeline run. *)
Lemma resubmission_returns_existing_witness :
  exists st1,
    submit_document Samples.toy_hash Samples.route_settings "uuid-1"
                    Samples.hello_upload "invoice_v1" Samples.fresh_app
    = (Returned (mkDocumentSubmitResponse 1 "uuid-1" "pending"), st1)
    /\ submit_document Samples.toy_hash Samples.route_settings "uuid-2"
                       Samples.hello_upload "invoice_v1" st1
       = (Returned (mkDocumentSubmitResponse 1 "uuid-2" "pending"), st1)
    /\ length (documents (db st1)) = 1
    /\ background_tasks st1 = [(1, "uuid-1")].
Proof.
  eexists. split; [reflexivity |].
  destruct (resubmission_returns_existing Samples.toy_hash
              Samples.route_settings "uuid-1" "uuid-2"
              Samples.hello_upload Samples.hello_upload "invoice_v1"
              Samples.fresh_app _ _ _ eq_refl eq_refl eq_refl)
    as (existing & Hin & Hid & Hsecond).
  split; [| split; reflexivity].
  rewrite Hsecond. do 2 f_equal.
  apply list_elem_of_singleton in Hin. by subst existing.
Defined.

End Dedup.

(* ===================================================================== *)
(** ** The chunker                                                        *)
(* ===================================================================== *)

Module ChunkerFacts.
Import Chunking ChunkingSpec.

Lemma tokens_of_snoc (count : string -> nat) (cur : list string)
  (p : string) :
  tokens_of count (cur ++ [p]) = tokens_of count cur + count p.
Proof.
  unfold tokens_of. rewrite map_app, list_sum_app. simpl. lia.
Qed.

Section Refinement.
Variable self : ChunkingStage.

(** The state after a flush, in the specification's terms. *)
Lemma flush_spec (st : LoopState) :
  current_chunk st <> [] ->
  flush self st
  = mkLoopState
      (chunks st ++ emit_if_long (min_chunk_size self) (current_chunk st))
      (seed (chunk_overlap self) (current_chunk st))
      (tokens_of (_count_tokens self)
                 (seed (chunk_overlap self) (current_chunk st))).
Proof.
  intros Hne. unfold flush, emit_if_long, seed, tokens_of.
  destruct (current_chunk st) as [| p0 cur] eqn:Hcur; [done |].
  cbn [is_nil negb].
  destruct (min_chunk_size self <=? _);
    destruct (0 <? chunk_overlap self);
    rewrite ?app_nil_r; try reflexivity;
    destruct (last (p0 :: cur)); simpl; rewrite ?Nat.add_0_r;
    reflexivity.
Qed.

(** The loop, from any state whose size is the token count of its
    current chunk, followed by the final flush, yields what the
    specification's recursion yields. *)
Lemma loop_refines (paras : list string) :
  forall st,
    current_size st = tokens_of (_count_tokens self) (current_chunk st) ->
    final_flush self (fold_left (loop_body self) paras st)
    = chunks st
      ++ greedy_for self
           (List.filter (fun p => negb (is_empty_str p))
                        (map PyStr.strip paras))
           (current_chunk st).
Proof.
  induction paras as [| para paras IH]; intros st Hsize.
  - simpl. unfold final_flush, emit_if_long.
    destruct (current_chunk st) as [| p0 cur]; simpl;
      [by rewrite app_nil_r |].
    destruct (min_chunk_size self <=? _); [done | by rewrite app_nil_r].
  - cbn [fold_left map List.filter]. unfold loop_body at 2.
    destruct (is_empty_str (PyStr.strip para)) eqn:Hempty;
      [by apply IH |].
    unfold greedy_for. cbn [negb greedy]. fold (greedy_for self).
    rewrite <- Hsize.
    destruct ((chunk_size self
                 <? current_size st + _count_tokens self (PyStr.strip para))
              && negb (is_nil (current_chunk st))) eqn:Hcond.
    + apply andb_true_iff in Hcond as [_ Hnil].
      rewrite flush_spec
        by (destruct (current_chunk st); [discriminate | done]).
      rewrite IH; cbn [chunks current_chunk current_size].
      * by rewrite <- app_assoc.
      * by rewrite tokens_of_snoc.
    + rewrite IH; cbn [chunks current_chunk current_size].
      * reflexivity.
      * by rewrite tokens_of_snoc, Hsize.
Qed.

Lemma emit_if_long_long (cur : list string) :
  Forall (fun c => min_chunk_size self <= String.length c)
         (emit_if_long (min_chunk_size self) cur).
Proof.
  unfold emit_if_long.
  destruct (min_chunk_size self <=? _) eqn:Hle; [| constructor].
  apply Nat.leb_le in Hle. by repeat constructor.
Qed.

Lemma greedy_long (paras : list string) :
  forall cur,
    Forall (fun c => min_chunk_size self <= String.length c)
           (greedy_for self paras cur).
Proof.
  unfold greedy_for.
  induction paras as [| p paras IH]; intros cur; simpl.
  - destruct cur; [constructor | apply emit_if_long_long].
  - destruct (_ && _); [| apply IH].
    apply Forall_app. split; [apply emit_if_long_long | apply IH].
Qed.

(** C6.  What the paragraph loop and the final flush of
    [_create_chunks] produce is what the specification's greedy
    accumulation produces from the trimmed, non-empty paragraphs, with
    the chunk under construction empty at the start: when the next
    paragraph would exceed [chunk_size] and the current chunk is not
    empty, the current chunk is emitted if it has [min_chunk_size]
    characters and dropped otherwise, and the next chunk starts with
    the last paragraph of the current one when [chunk_overlap] is
    positive and empty when it is zero; the remainder is emitted under
    the same rule.  Hence every chunk the loop emits has at least
    [min_chunk_size] characters. *)
Theorem accumulate_refines_spec (text : string) :
  accumulate self text = greedy_for self (paragraphs text) []
  /\ Forall (fun c => min_chunk_size self <= String.length c)
            (accumulate self text).
Proof.
  assert (H : accumulate self text = greedy_for self (paragraphs text) []).
  { unfold accumulate, paragraphs. by rewrite loop_refines. }
  split; [exact H |]. rewrite H. apply greedy_long.
Qed.
End Refinement.

End ChunkerFacts.

(* ===================================================================== *)
(** ** The chunker's fallback                                             *)
(* ===================================================================== *)

Module Fallback.
Import Chunking ChunkingSpec.

Lemma slice_to_prefix (n : nat) (text : string) :
  text = PyStr.slice_to n text +:+ PyStr.slice_from n text.
Proof.
  revert text. induction n as [| n IH]; intros [| c r]; simpl; try done.
  change (String c r
          = String c (PyStr.slice_to n r +:+ PyStr.slice_from n r)).
  f_equal. apply IH.
Qed.

Lemma slice_to_length (n : nat) (text : string) :
  String.length (PyStr.slice_to n text) = Nat.min n (String.length text).
Proof.
  revert text. induction n as [| n IH]; intros [| c r]; simpl; try done.
  by rewrite IH.
Qed.

Lemma lstrip_all_space (s : string) :
  all_space s = true -> PyStr.lstrip s = "".
Proof.
  induction s as [| c r IH]; simpl; [done |].
  intros [Hc Hr]%andb_true_iff. rewrite Hc. by apply IH.
Qed.

Lemma strip_all_space (s : string) :
  all_space s = true -> PyStr.strip s = "".
Proof. intros H. unfold PyStr.strip. by rewrite lstrip_all_space. Qed.

Lemma all_space_of_list (l : list ascii) :
  forallb PyStr.isspace l = true ->
  all_space (string_of_list_ascii l) = true.
Proof.
  induction l as [| c l IH]; simpl; [done |].
  intros [Hc Hl]%andb_true_iff. rewrite Hc. by apply IH.
Qed.

Lemma forallb_rev {A} (p : A -> bool) (l : list A) :
  forallb p (rev l) = forallb p l.
Proof.
  induction l as [| a l IH]; simpl; [done |].
  rewrite forallb_app, IH. simpl. rewrite andb_true_r. apply andb_comm.
Qed.

(** Every piece of a text of white space is white space. *)
Lemma re_split_all_space (s : string) :
  forall cur skip,
    all_space s = true -> forallb PyStr.isspace cur = true ->
    Forall (fun p => all_space p = true) (PyStr.re_split_go s cur skip).
Proof.
  induction s as [| c r IH]; intros cur skip Hs Hcur; simpl.
  - constructor; [| constructor].
    apply all_space_of_list. rewrite forallb_rev. exact Hcur.
  - simpl in Hs. apply andb_true_iff in Hs as [Hc Hr].
    destruct skip as [| k]; [| by apply IH].
    assert (Hcons : forallb PyStr.isspace (c :: cur) = true)
      by (simpl; by rewrite Hc, Hcur).
    destruct (PyStr.is_newline c); [| by apply IH].
    destruct (PyStr.sep_len r); [| by apply IH].
    constructor; [| by apply IH].
    apply all_space_of_list. rewrite forallb_rev. exact Hcur.
Qed.

Lemma loop_ignores_space (self : ChunkingStage) (paras : list string) :
  Forall (fun p => all_space p = true) paras ->
  forall st, fold_left (loop_body self) paras st = st.
Proof.
  induction 1 as [| p paras Hp _ IH]; intros st; simpl; [done |].
  unfold loop_body at 2. rewrite (strip_all_space p Hp). simpl. apply IH.
Qed.

(** A text of white space only yields no chunk from the accumulation. *)
Lemma accumulate_all_space (self : ChunkingStage) (text : string) :
  all_space text = true -> accumulate self text = [].
Proof.
  intros Hs. unfold accumulate, PyStr.re_split_blank_lines.
  rewrite loop_ignores_space; [reflexivity |].
  by apply re_split_all_space.
Qed.

(** C5, as the code has it.  For a text that is not empty the chunker
    returns at least one chunk.  When the accumulation produced none
    (as it does for a text of white space only) it returns exactly one
    chunk, the first [chunk_size] characters of the text, which is a
    prefix of the text; otherwise it returns what the accumulation
    produced.  For the empty text it returns no chunk. *)
Theorem create_chunks_fallback (self : ChunkingStage) (text : string) :
  text <> "" ->
  1 <= length (_create_chunks self text)
  /\ (accumulate self text = [] ->
      _create_chunks self text = [PyStr.slice_to (chunk_size self) text]
      /\ text = PyStr.slice_to (chunk_size self) text
                +:+ PyStr.slice_from (chunk_size self) text
      /\ String.length (PyStr.slice_to (chunk_size self) text)
         = Nat.min (chunk_size self) (String.length text))
  /\ (accumulate self text <> [] ->
      _create_chunks self text = accumulate self text)
  /\ (all_space text = true -> accumulate self text = [])
  /\ _create_chunks self "" = [].
Proof.
  intros Hne. unfold _create_chunks.
  destruct text as [| c r]; [done |]. cbn [is_empty_str].
  destruct (accumulate self (String c r)) as [| c0 cs] eqn:Hacc.
  - split; [simpl; lia |]. split.
    + intros _. split; [done |].
      split; [apply slice_to_prefix | apply slice_to_length].
    + split; [done |]. split; [done | reflexivity].
  - split; [simpl; lia |]. split; [done |]. split; [done |].
    split; [| reflexivity].
    intros Hs. rewrite <- Hacc. by apply accumulate_all_space.
Qed.

(** Three blanks, default settings: one chunk, the text itself. *)
Lemma create_chunks_fallback_witness :
  _create_chunks Samples.default_chunker "   " = ["   "].
Proof.
  destruct (create_chunks_fallback Samples.default_chunker "   "
              ltac:(discriminate)) as (_ & Hfall & _ & Hspace & _).
  destruct (Hfall (Hspace eq_refl)) as (-> & _). reflexivity.
Defined.

(** The claim as the specification states it, that every text yields at
    least one chunk, fails for the empty text. *)
Lemma create_chunks_empty_text :
  ~ (forall (self : ChunkingStage) (text : string),
       1 <= length (_create_chunks self text)).
Proof.
  intros H. specialize (H Samples.default_chunker ""). simpl in H. lia.
Qed.

End Fallback.

(* ===================================================================== *)
(** ** The model client: errors and token counts                          *)
(* ===================================================================== *)

Module ClientFacts.
Import Errors LLM ClientSpec Notions.







Lemma check_status_none (status_code : Z) :
  check_status status_code = None -> status_code = 200%Z.
Proof.
  unfold check_status.
  destruct (Z.eqb_spec status_code 429); [discriminate |].
  destruct (Z.leb_spec 500 status_code); [discriminate |].
  destruct (Z.eqb_spec status_code 200); [done | discriminate].
Qed.

(** What [usage_tokens] returns when it returns. *)
Lemma usage_tokens_ok (data : json) (tokens : json * json) :
  usage_tokens data = Ok tokens ->
  exists usage,
    dict_get data "usage" (JDict []) = Ok (JDict usage)
    /\ fst tokens = lookup_or "prompt_tokens" (JInt 0) usage
    /\ snd tokens = lookup_or "completion_tokens" (JInt 0) usage.
Proof.
  unfold usage_tokens.
  destruct (dict_get data "usage" (JDict [])) as [usage | e];
    [| discriminate]. cbn [rbind].
  destruct usage as [| | | | | | usage]; try discriminate.
  unfold dict_get, lookup_or.
  destruct (assoc "prompt_tokens" usage) eqn:Hin;
    destruct (assoc "completion_tokens" usage) eqn:Hout;
    cbn [rbind]; intros [= <-]; exists usage; rewrite Hin, Hout;
    by repeat split.
Qed.

(** C8, as the code has it.  A successful call of the OpenAI-compatible
    client answers a 200 response; its token counts are the values the
    response's usage object holds under [prompt_tokens] and
    [completion_tokens], and 0 for a count the usage object does not
    hold (the usage object itself defaulting to an empty one).  A
    successful call of the HuggingFace client reads no count from the
    response: each direction is the integer part of 1.3 times the number
    of words, of the prompt sent and of the text generated. *)
Theorem token_counts_reported_or_default
  (json_loads : string -> option json) :
  (forall outcome r,
     openai_generate_structured json_loads outcome = Ok r ->
     exists text data usage,
       outcome = Response 200 text
       /\ json_loads text = Some data
       /\ dict_get data "usage" (JDict []) = Ok (JDict usage)
       /\ tokens_in r = lookup_or "prompt_tokens" (JInt 0) usage
       /\ tokens_out r = lookup_or "completion_tokens" (JInt 0) usage)
  /\ (forall full_prompt outcome r,
        huggingface_generate_structured json_loads full_prompt outcome
          = Ok r ->
        tokens_in r = estimate_tokens full_prompt
        /\ tokens_out r = estimate_tokens (raw_response r)).
Proof.
  split.
  - intros [status_code text | | msg | name msg] r Hrun;
      try discriminate.
    unfold openai_generate_structured in Hrun.
    destruct (check_status status_code) as [e |] eqn:Hstatus;
      [discriminate |].
    apply check_status_none in Hstatus as ->.
    unfold response_json in Hrun.
    destruct (json_loads text) as [data |] eqn:Hbody; [| discriminate].
    cbn [rbind] in Hrun.
    destruct (message_content data) as [raw | e]; [| discriminate].
    cbn [rbind] in Hrun.
    destruct (usage_tokens data) as [tokens | e] eqn:Husage;
      [| discriminate].
    cbn [rbind] in Hrun.
    destruct (as_str raw) as [s | e]; [| discriminate].
    cbn [rbind] in Hrun.
    destruct (parse_content json_loads s) as [parsed | e];
      [| discriminate].
    cbn [rbind] in Hrun.
    destruct (choice_finish_reason data) as [f | e]; [| discriminate].
    cbn [rbind] in Hrun. injection Hrun as <-. cbn [tokens_in tokens_out].
    destruct (usage_tokens_ok _ _ Husage) as (usage & Hu & Hin & Hout).
    exists text, data, usage. by repeat split.
  - intros full_prompt [status_code text | | msg | name msg] r Hrun;
      try discriminate.
    unfold huggingface_generate_structured in Hrun.
    destruct (check_status status_code); [discriminate |].
    destruct (response_json json_loads text) as [data | e];
      [| discriminate].
    cbn [rbind] in Hrun.
    match type of Hrun with
    | rbind ?c _ = _ => destruct c as [raw | e]; [| discriminate]
    end.
    cbn [rbind] in Hrun.
    destruct (as_str raw) as [s | e]; [| discriminate].
    cbn [rbind] in Hrun.
    destruct (parse_content json_loads s) as [parsed | e];
      [| discriminate].
    cbn [rbind] in Hrun. injection Hrun as <-. by split.
Qed.

(** A response that reports 12 and 3 tokens, and the HuggingFace answer
    to a prompt of four words. *)
Lemma token_counts_reported_or_default_witness :
  (exists r,
     openai_generate_structured Samples.sample_json_loads
       (Response 200 Samples.body_with_usage) = Ok r
     /\ tokens_in r = JInt 12 /\ tokens_out r = JInt 3)
  /\ (exists r,
        huggingface_generate_structured Samples.sample_json_loads
          "Extract the invoice total" (Response 200 Samples.hf_body) = Ok r
        /\ tokens_in r = JInt 5 /\ tokens_out r = JInt 1).
Proof.
  destruct (token_counts_reported_or_default Samples.sample_json_loads)
    as [Hopenai Hhf].
  split.
  - eexists. split; [reflexivity |].
    destruct (Hopenai (Response 200 Samples.body_with_usage) _ eq_refl)
      as (text & data & usage & Heq & Hbody & Hu & Hin & Hout).
    injection Heq as <-. vm_compute in Hbody. injection Hbody as <-.
    vm_compute in Hu. injection Hu as <-.
    split; [exact Hin | exact Hout].
  - eexists. split; [reflexivity |].
    exact (Hhf "Extract the invoice total" (Response 200 Samples.hf_body)
               _ eq_refl).
Defined.

(** The claim as the specification states it fails for the
    OpenAI-compatible client: a response without a usage object yields
    the count 0, though the generated text has one word, for which the
    specification's estimate is 1.3. *)
Lemma openai_tokens_counterexample :
  exists r,
    openai_generate_structured Samples.sample_json_loads
      (Response 200 Samples.body_without_usage) = Ok r
    /\ json_number (tokens_out r) = Some (inject_Z 0)
    /\ ~ (claimed_token_count None (raw_response r) == inject_Z 0)%Q.
Proof.
  eexists. split; [reflexivity |]. split; [reflexivity |].
  vm_compute. discriminate.
Qed.

End ClientFacts.

(* ===================================================================== *)
(** ** The retry loop: what it raises and what it records                 *)
(* ===================================================================== *)

Module RetryFacts.
Import Errors Db Engine Notions RunNotions RunTableFacts AttemptFacts
       LoopFacts SingleAttempt.

Lemma next_id_snoc (ids : list nat) :
  next_id (ids ++ [next_id ids]) = S (next_id ids).
Proof.
  unfold next_id. rewrite list_max_app. simpl. lia.
Qed.

Section Loop.
Variables (self : PipelineEngine) (document_id : nat)
          (stage_name : string) (stage : PipelineStage)
          (correlation_id : option string).


(** What a failed pass through the loop body leaves, in short. *)
Lemma attempt_once_failure_summary (a : nat) (w w1 : World)
  (r : Result (option string)) (e : Exception) (s' : Store) :
  stage document_id
        (started document_id stage_name a correlation_id (store w))
    = (Some e, s') ->
  attempt_once self document_id stage_name stage correlation_id a w
    = (r, w1) ->
  store w1 = after_failure (fresh_run_id (store w)) e s'
  /\ executions (trace w1) = S (executions (trace w))
  /\ (r = Raise e
      \/ (r = Ok None /\ is_retryable e = true /\ a <= max_retries self)).
Proof.
  intros Hst Hrun.
  rewrite (attempt_once_failure _ _ _ _ _ _ _ _ _ Hst) in Hrun.
  destruct (is_retryable e); cbn [negb] in Hrun.
  2: { injection Hrun as <- <-. cbn [store trace].
       rewrite executions_app. simpl. split; [done |].
       split; [lia | by left]. }
  destruct (max_retries self <? a) eqn:Hlt.
  { injection Hrun as <- <-. cbn [store trace].
    rewrite executions_app. simpl. split; [done |].
    split; [lia | by left]. }
  apply Nat.ltb_ge in Hlt.
  destruct (use_jitter self); injection Hrun as <- <-;
    cbn [store trace]; rewrite !executions_app; simpl;
    (split; [done |]); (split; [lia | right; by repeat split]).
Qed.

Hypothesis stage_keeps_run_tables : keeps_run_tables stage.

Lemma stage_keeps (a : nat) (s s' : Store) (o : option Exception) :
  stage document_id
        (started document_id stage_name a correlation_id s) = (o, s') ->
  pipeline_runs s'
    = pipeline_runs (started document_id stage_name a correlation_id s)
  /\ metrics s' = metrics s.
Proof.
  intros Hst.
  destruct (stage_keeps_run_tables document_id
              (started document_id stage_name a correlation_id s))
    as [Hr Hm].
  rewrite Hst in Hr, Hm. by split.
Qed.

(** The rows, the metrics and the executions of one run of the loop
    over the attempts [a .. max_retries + 1]. *)
Lemma retry_loop_rows (n : nat) :
  forall a w r w',
    a + n = max_retries self + 1 ->
    retry_loop self document_id stage_name stage correlation_id
               (seq a (S n)) w = (r, w') ->
    exists rows,
      rows <> [] /\ length rows <= S n
      /\ pipeline_runs (store w') = pipeline_runs (store w) ++ rows
      /\ metrics (store w')
         = metrics (store w)
           ++ map (fun row => mkMetric (run_id row) stage_name) rows
      /\ executions (trace w')
         = executions (trace w) + length rows
      /\ map run_id rows = seq (fresh_run_id (store w)) (length rows)
      /\ map run_attempt rows = seq a (length rows)
      /\ map run_status rows
         = attempt_statuses (length rows) (returned r)
      /\ (forall d name,
            length (List.filter (is_completed_run d name) rows)
            = if returned r && (d =? document_id)
                 && String.eqb name stage_name
              then 1 else 0).
Proof.
  induction n as [| n IH]; intros a w r w' Han Hrun.
  all: change (seq a (S ?k)) with (a :: seq (S a) k) in Hrun;
    cbn [retry_loop] in Hrun.
  all: destruct (stage document_id
                   (started document_id stage_name a correlation_id
                            (store w))) as [[e |] s'] eqn:Hst;
    destruct (stage_keeps _ _ _ _ Hst) as [Hruns Hmet].
  (* the last attempt raises *)
  - apply bind_inv in Hrun as [(o & w1 & Hatt & Hk) | (e1 & Hatt & ->)];
      destruct (attempt_once_failure_summary _ _ _ _ _ _ Hst Hatt)
        as (Hstore & Hexec & [Hr | (_ & _ & Hle)]);
      try discriminate; try lia.
    destruct (after_failure_tables _ _ _ _ _ _ e Hruns)
      as (Hr1 & Hm1 & _).
    exists [failed_run (fresh_run_id (store w)) document_id stage_name
                       a correlation_id e].
    rewrite Hstore, Hr1, Hm1, Hmet, Hexec. simpl.
    repeat split; try done; try lia.
    intros d name. unfold is_completed_run. simpl.
    by rewrite andb_false_r.
  (* the last attempt returns *)
  - unfold bind in Hrun.
    rewrite (attempt_once_success _ _ _ _ _ _ _ _ Hst) in Hrun.
    injection Hrun as <- <-.
    destruct (after_success_tables _ _ _ _ _ _ Hruns) as (Hr1 & Hm1 & _).
    exists [completed_run (fresh_run_id (store w)) document_id
                          stage_name a correlation_id].
    cbn [store trace]. rewrite Hr1, Hm1, Hmet, executions_app. simpl.
    repeat split; try done; try lia.
    intros d name. unfold is_completed_run. simpl.
    rewrite (Nat.eqb_sym document_id d), (String.eqb_sym stage_name name).
    destruct (d =? document_id), (String.eqb name stage_name); done.
  (* an earlier attempt raises or goes on *)
  - destruct (after_failure_tables _ _ _ _ _ _ e Hruns)
      as (Hr1 & Hm1 & _).
    apply bind_inv in Hrun as [(o & w1 & Hatt & Hk) | (e1 & Hatt & ->)];
      destruct (attempt_once_failure_summary _ _ _ _ _ _ Hst Hatt)
        as (Hstore & Hexec & [Hr | (Hr & _ & Hle)]);
      try discriminate.
    + (* goes on *)
      injection Hr as ->.
      destruct (IH (S a) w1 r w' ltac:(lia) Hk)
        as (rows & Hne & Hlen & Hrows & Hmets & Hex & Hids & Hatts
            & Hstat & Hcount).
      assert (Hfresh : fresh_run_id (store w1)
                       = S (fresh_run_id (store w))).
      { unfold fresh_run_id. rewrite Hstore, Hr1, map_app. simpl.
        apply next_id_snoc. }
      exists (failed_run (fresh_run_id (store w)) document_id stage_name
                         a correlation_id e :: rows).
      rewrite Hrows, Hmets, Hex, Hstore, Hr1, Hm1, Hmet, Hexec.
      rewrite <- !app_assoc. cbn [app map length].
      rewrite Hids, Hatts, Hstat, Hfresh.
      split; [done |]. split; [lia |]. split; [done |].
      split; [done |]. split; [lia |]. split; [done |].
      split; [done |]. split.
      * unfold attempt_statuses, failed_run. cbn [run_status].
        destruct rows as [| row rows]; [done |]. simpl.
        by rewrite Nat.sub_0_r.
      * intros d name. cbn [List.filter].
        unfold is_completed_run at 1. cbn [failed_run run_status].
        rewrite andb_false_r. apply Hcount.
    + (* raises *)
      exists [failed_run (fresh_run_id (store w)) document_id stage_name
                         a correlation_id e].
      rewrite Hstore, Hr1, Hm1, Hmet, Hexec. simpl.
      repeat split; try done; try lia.
      intros d name. unfold is_completed_run. simpl.
      by rewrite andb_false_r.
  (* an earlier attempt returns *)
  - unfold bind in Hrun.
    rewrite (attempt_once_success _ _ _ _ _ _ _ _ Hst) in Hrun.
    injection Hrun as <- <-.
    destruct (after_success_tables _ _ _ _ _ _ Hruns) as (Hr1 & Hm1 & _).
    exists [completed_run (fresh_run_id (store w)) document_id
                          stage_name a correlation_id].
    cbn [store trace]. rewrite Hr1, Hm1, Hmet, executions_app. simpl.
    repeat split; try done; try lia.
    intros d name. unfold is_completed_run. simpl.
    rewrite (Nat.eqb_sym document_id d), (String.eqb_sym stage_name name).
    destruct (d =? document_id), (String.eqb name stage_name); done.
Qed.
End Loop.

End RetryFacts.

(* ===================================================================== *)
(** ** Further properties of the engine                                   *)
(* ===================================================================== *)

Module EngineExtras.
Import Errors Db Engine Notions RunNotions RunTableFacts AttemptFacts
       LoopFacts SingleAttempt Backoff Skipping Idempotency RetryFacts.

Lemma sample_stages_keep_run_tables (second : PipelineStage) :
  keeps_run_tables second ->
  forall name stage,
    _stages (registry (Samples.two_stage_engine second false)) !! name
      = Some stage ->
    keeps_run_tables stage.
Proof.
  intros Hsecond name stage Hl.
  cbn [Samples.two_stage_engine registry _stages] in Hl.
  apply lookup_insert_Some in Hl as [[_ <-] | [_ Hl]]; [by split |].
  apply lookup_insert_Some in Hl as [[_ <-] | [_ Hl]]; [done |].
  by rewrite lookup_empty in Hl.
Qed.



(** X2.  Let the stage leave the run and metric tables alone.  One call
    of [_execute_stage_with_retry] then makes between one and
    [max_retries + 1] attempts, and for each attempt it executes the
    stage once, adds one run row and one metric row for that run.  The
    rows carry consecutive fresh keys and the attempt numbers 1, 2, ...;
    all are marked [failed] except that the last is marked [completed]
    when the call returned.  No row is left [running]. *)
Theorem retry_accounting (self : PipelineEngine) (document_id : nat)
  (stage_name : string) (stage : PipelineStage)
  (correlation_id : option string) (w w' : World) (r : Result string) :
  keeps_run_tables stage ->
  _execute_stage_with_retry self document_id stage_name stage
                            correlation_id w = (r, w') ->
  exists rows,
    1 <= length rows <= max_retries self + 1
    /\ pipeline_runs (store w') = pipeline_runs (store w) ++ rows
    /\ metrics (store w')
       = metrics (store w)
         ++ map (fun row => mkMetric (run_id row) stage_name) rows
    /\ executions (trace w') = executions (trace w) + length rows
    /\ map run_id rows = seq (fresh_run_id (store w)) (length rows)
    /\ map run_attempt rows = seq 1 (length rows)
    /\ map run_status rows = attempt_statuses (length rows) (returned r).
Proof.
  intros Hkeeps Hrun. unfold _execute_stage_with_retry in Hrun.
  rewrite Nat.add_1_r in Hrun.
  destruct (retry_loop_rows self document_id stage_name stage
              correlation_id Hkeeps (max_retries self) 1 w r w'
              ltac:(lia) Hrun)
    as (rows & Hne & Hlen & Hrows & Hmets & Hex & Hids & Hatts & Hstat & _).
  exists rows. repeat split; try done.
  - destruct rows; [done | simpl; lia].
  - lia.
Qed.

(** A stage that is rate limited every time, with three retries: four
    rows, all failed. *)
Lemma retry_accounting_witness :
  exists w' rows,
    _execute_stage_with_retry
      (Samples.two_stage_engine (Samples.fails_with Samples.rate_limited)
                                false)
      1 "structured_extraction" (Samples.fails_with Samples.rate_limited)
      None Samples.world1 = (Raise Samples.rate_limited, w')
    /\ pipeline_runs (store w') = rows
    /\ map run_attempt rows = [1; 2; 3; 4]
    /\ map run_status rows = ["failed"; "failed"; "failed"; "failed"].
Proof.
  destruct (_execute_stage_with_retry
              (Samples.two_stage_engine
                 (Samples.fails_with Samples.rate_limited) false)
              1 "structured_extraction"
              (Samples.fails_with Samples.rate_limited) None
              Samples.world1) as [r w'] eqn:Hrun.
  assert (Hkeeps : keeps_run_tables
                     (Samples.fails_with Samples.rate_limited))
    by (intros d s; split; reflexivity).
  destruct (retry_accounting _ _ _ _ _ _ _ _ Hkeeps Hrun)
    as (rows & _ & Hrows & _ & _ & _ & Hatts & Hstat).
  vm_compute in Hrun. injection Hrun as <- <-.
  vm_compute in Hrows. subst rows.
  eexists. eexists. split; [reflexivity |].
  split; [reflexivity |]. split; [exact Hatts | exact Hstat].
Defined.



Lemma find_none_filter {A} (p : A -> bool) (l : list A) :
  find p l = None -> List.filter p l = [].
Proof.
  induction l as [| x l IH]; simpl; [done |].
  destruct (p x); [done | exact IH].
Qed.

Section Invariant.
Variables (self : PipelineEngine) (document_id : nat)
          (correlation_id : option string).
Hypothesis stages_keep_runs :
  forall name stage,
    _stages (registry self) !! name = Some stage ->
    keeps_run_tables stage.

(** One call of the retry loop adds one completed run for its stage
    and document when it returns, and none otherwise. *)
Lemma retry_completed_count (stage_name : string)
  (stage : PipelineStage) (w w' : World) (r : Result string) :
  _stages (registry self) !! stage_name = Some stage ->
  _execute_stage_with_retry self document_id stage_name stage
                            correlation_id w = (r, w') ->
  forall d name,
    completed_count d name (store w')
    = completed_count d name (store w)
      + (if returned r && (d =? document_id)
            && String.eqb name stage_name then 1 else 0).
Proof.
  intros Hreg Hrun d name. unfold _execute_stage_with_retry in Hrun.
  rewrite Nat.add_1_r in Hrun.
  destruct (retry_loop_rows self document_id stage_name stage
              correlation_id (stages_keep_runs _ _ Hreg)
              (max_retries self) 1 w r w' ltac:(lia) Hrun)
    as (rows & _ & _ & Hrows & _ & _ & _ & _ & _ & Hcount).
  unfold completed_count. rewrite Hrows, List.filter_app, length_app.
  by rewrite Hcount.
Qed.

Lemma run_stages_keeps_invariant (stages : list string) :
  forall results w r w',
    run_stages self document_id correlation_id stages results w
      = (r, w') ->
    at_most_one_completed (store w) ->
    at_most_one_completed (store w').
Proof.
  induction stages as [| stage_name stages IH];
    intros results w r w' Hrun Hinv.
  - simpl in Hrun. inversion Hrun; by subst.
  - cbn [run_stages] in Hrun. unfold get_stage in Hrun.
    destruct (_stages (registry self) !! stage_name) as [stage |] eqn:Hreg.
    2: { inversion Hrun; by subst. }
    unfold bind at 1 in Hrun. unfold ret at 1 in Hrun.
    unfold bind at 1 in Hrun.
    unfold _is_stage_completed, db_read in Hrun.
    destruct (find (is_completed_run document_id stage_name)
                   (pipeline_runs (store w))) as [row |] eqn:Hfind.
    + by eapply IH.
    + apply find_none_filter in Hfind.
      assert (Hstep : forall r1 w1,
                _execute_stage_with_retry self document_id stage_name
                  stage correlation_id w = (r1, w1) ->
                at_most_one_completed (store w1)).
      { intros r1 w1 Hretry d name.
        rewrite (retry_completed_count _ _ _ _ _ Hreg Hretry).
        destruct (returned r1 && (d =? document_id)
                  && String.eqb name stage_name) eqn:Hc.
        - apply andb_true_iff in Hc as [Hc Hn].
          apply andb_true_iff in Hc as [_ Hd].
          apply Nat.eqb_eq in Hd. apply String.eqb_eq in Hn. subst.
          unfold completed_count. rewrite Hfind. simpl. lia.
        - specialize (Hinv d name). lia. }
      apply bind_inv in Hrun
        as [(v & w1 & Hretry & Hk) | (e & Hretry & _)].
      * eapply IH; [exact Hk | by eapply Hstep].
      * by eapply Hstep.
Qed.
End Invariant.

(** X4.  Let the registered stages leave the run and metric tables alone.
    If the run table holds at most one completed run for every document
    and stage, it still does after a pipeline run, however that run
    ends. *)
Theorem pipeline_keeps_one_completed_run (self : PipelineEngine)
  (document_id : nat) (correlation_id : option string) (w w' : World)
  (r : Result (gmap string string)) :
  (forall name stage,
     _stages (registry self) !! name = Some stage ->
     keeps_run_tables stage) ->
  at_most_one_completed (store w) ->
  execute_pipeline self document_id correlation_id w = (r, w') ->
  at_most_one_completed (store w').
Proof.
  intros Hkeeps Hinv Hrun. unfold execute_pipeline in Hrun.
  apply bind_inv in Hrun as [(res & w1 & Hloop & Hk) | (e & Hloop & _)].
  - unfold bind, db_write, ret in Hk. simpl in Hk.
    injection Hk as _ <-.
    exact (run_stages_keeps_invariant self document_id correlation_id
             Hkeeps _ _ _ _ _ Hloop Hinv).
  - exact (run_stages_keeps_invariant self document_id correlation_id
             Hkeeps _ _ _ _ _ Hloop Hinv).
Qed.

Lemma pipeline_keeps_one_completed_run_witness :
  exists w',
    snd (execute_pipeline
           (Samples.two_stage_engine (Samples.writes_status "extracted")
                                     false)
           1 None Samples.world1) = w'
    /\ completed_count 1 "ingest" (store w') = 1
    /\ at_most_one_completed (store w').
Proof.
  destruct (execute_pipeline
              (Samples.two_stage_engine (Samples.writes_status "extracted")
                                        false)
              1 None Samples.world1) as [r w'] eqn:Hrun.
  exists w'. split; [reflexivity |]. split.
  - vm_compute in Hrun. by injection Hrun as _ <-.
  - refine (pipeline_keeps_one_completed_run _ _ _ _ _ _ _ _ Hrun).
    + apply sample_stages_keep_run_tables. by split.
    + intros d name. unfold completed_count. simpl. lia.
Defined.

(** X5.  Let the registered stages leave the run and metric tables alone.
    After a pipeline run that returned, a further run for the same
    document returns [skipped] for every stage of the order and leaves
    the world exactly as it found it: no stage is executed, no sleep, no
    row added, and the documents table is unchanged. *)
Theorem pipeline_rerun_is_noop (self : PipelineEngine) (document_id : nat)
  (correlation_id : option string) (w0 w1 : World)
  (results : gmap string string) :
  (forall name stage,
     _stages (registry self) !! name = Some stage ->
     keeps_run_tables stage) ->
  execute_pipeline self document_id correlation_id w0 = (Ok results, w1) ->
  exists results',
    execute_pipeline self document_id correlation_id w1 = (Ok results', w1)
    /\ forall name, name ∈ get_ordered_stages (registry self) ->
                    results' !! name = Some "skipped".
Proof.
  intros Hkeeps Hrun. eexists. split.
  - by eapply second_run_changes_nothing.
  - intros name Hin. by apply all_skipped_lookup.
Qed.

Lemma pipeline_rerun_is_noop_witness :
  exists results w1 results',
    execute_pipeline
      (Samples.two_stage_engine (Samples.writes_status "extracted") false)
      1 None Samples.world1 = (Ok results, w1)
    /\ execute_pipeline
         (Samples.two_stage_engine (Samples.writes_status "extracted")
                                   false)
         1 None w1 = (Ok results', w1)
    /\ results' !! "ingest" = Some "skipped".
Proof.
  destruct (execute_pipeline
              (Samples.two_stage_engine (Samples.writes_status "extracted")
                                        false)
              1 None Samples.world1) as [r w1] eqn:Hrun.
  destruct r as [results | e];
    [| exfalso; vm_compute in Hrun; discriminate].
  assert (Hkeeps : keeps_run_tables (Samples.writes_status "extracted"))
    by (intros d s; split; reflexivity).
  destruct (pipeline_rerun_is_noop _ _ _ _ _ _
              (sample_stages_keep_run_tables _ Hkeeps) Hrun)
    as (results' & Hsecond & Hskipped).
  exists results, w1, results'. split; [reflexivity |].
  split; [exact Hsecond |]. apply Hskipped.
  apply list_elem_of_here.
Defined.

End EngineExtras.

(* ===================================================================== *)
(** ** The database-only stages                                           *)
(* ===================================================================== *)

Module StageFacts.
Import Errors Db Engine Notions RunNotions RunTableFacts AttemptFacts
       LoopFacts SingleAttempt ErrorFacts Stages StageNotions.

Lemma update_status_missing (document_id : nat) (status : string)
  (docs : list Document) :
  Forall (fun d => doc_id d <> document_id) docs ->
  update_document_status document_id status docs = docs.
Proof.
  unfold update_document_status.
  induction 1 as [| d docs Hd _ IH]; simpl; [done |].
  apply Nat.eqb_neq in Hd. by rewrite Hd, IH.
Qed.

Lemma update_status_ids (document_id : nat) (status : string)
  (docs : list Document) :
  map doc_key (update_document_status document_id status docs)
  = map doc_key docs.
Proof.
  unfold update_document_status. rewrite map_map. apply map_ext.
  intros d. by destruct (doc_id d =? document_id).
Qed.

Lemma ingest_clean (hash_content : string -> string) :
  keeps_run_tables (ingest_execute hash_content)
  /\ clean_failure (ingest_execute hash_content).
Proof.
  split.
  - intros d s. unfold ingest_execute.
    destruct (select_document d s); [| by split].
    destruct (select_raw_content d s); [| by split].
    destruct (negb _); by split.
  - intros d s e s'. unfold ingest_execute.
    destruct (select_document d s); [| by intros [= <- <-]].
    destruct (select_raw_content d s); [| by intros [= <- <-]].
    destruct (negb _); [by intros [= <- <-] | discriminate].
Qed.

Lemma chunking_clean (self : Chunking.ChunkingStage)
  (decode : string -> string) :
  keeps_run_tables (chunking_execute self decode)
  /\ clean_failure (chunking_execute self decode).
Proof.
  split.
  - intros d s. unfold chunking_execute.
    destruct (select_document_with_content d s) as [| [doc row] rest];
      by split.
  - intros d s e s'. unfold chunking_execute.
    destruct (select_document_with_content d s) as [| [doc row] rest];
      [by intros [= <- <-] | discriminate].
Qed.

(** The loop executes a registered stage that has no completed run. *)
Lemma run_stages_execute (self : PipelineEngine) (document_id : nat)
  (correlation_id : option string) (stage_name : string)
  (stage : PipelineStage) (rest : list string)
  (results : gmap string string) (w : World) :
  _stages (registry self) !! stage_name = Some stage ->
  ~ has_completed_run document_id stage_name (store w) ->
  run_stages self document_id correlation_id (stage_name :: rest) results w
  = bind (_execute_stage_with_retry self document_id stage_name stage
                                    correlation_id)
         (fun result =>
            run_stages self document_id correlation_id rest
                       (<[stage_name := result]> results)) w.
Proof.
  intros Hreg Hnone.
  destruct (is_stage_completed_spec document_id stage_name w)
    as (b & Hq & Hb).
  destruct b; [exfalso; by apply Hnone, Hb |].
  cbn [run_stages]. unfold get_stage. rewrite Hreg.
  unfold bind at 1. unfold ret at 1. unfold bind at 1. by rewrite Hq.
Qed.

Lemma status_writer_clean (status : string) :
  let stage : PipelineStage :=
    fun document_id s =>
      (None, set_documents (update_document_status document_id status) s)
  in keeps_run_tables stage /\ clean_failure stage.
Proof. split; [by split | discriminate]. Qed.

(** X6.  Each of the stages [ingest], [layout_normalization], [chunking],
    [persistence] and [metrics_and_audit] leaves the run and metric
    tables alone whether it returns or raises; and when it raises, it
    has changed nothing in the database and its error is not retryable,
    so the engine makes no second attempt. *)
Theorem database_stages_fail_cleanly (hash_content : string -> string)
  (chunker : Chunking.ChunkingStage) (decode : string -> string) :
  Forall (fun named : string * PipelineStage =>
            keeps_run_tables (snd named)
            /\ clean_failure (snd named)
            /\ failing_keeps_documents (snd named))
         (database_stages hash_content chunker decode).
Proof.
  assert (Hall : forall stage,
            keeps_run_tables stage /\ clean_failure stage ->
            keeps_run_tables stage /\ clean_failure stage
            /\ failing_keeps_documents stage).
  { intros stage [Hkeeps Hclean]. split; [done |]. split; [done |].
    intros d s e s' Hst. by destruct (Hclean d s e s' Hst) as [-> _]. }
  unfold database_stages.
  apply Forall_cons; split; [apply Hall, ingest_clean |].
  apply Forall_cons; split;
    [apply Hall, (status_writer_clean "layout_normalized") |].
  apply Forall_cons; split; [apply Hall, chunking_clean |].
  apply Forall_cons; split;
    [apply Hall, (status_writer_clean "persisted") |].
  apply Forall_cons; split;
    [apply Hall, (status_writer_clean "completed") |].
  constructor.
Qed.

(** X7.  Let [ingest] be the first stage of the order and be registered,
    and let there be no completed ingest run for the document.  A
    pipeline run for a document key that is not in the documents table
    ends in the ingest stage with a [PipelineStateError]: after one
    execution and no sleep, with one failed run of error type
    [pipeline_state] added, and the documents table unchanged. *)
Theorem pipeline_for_missing_document (self : PipelineEngine)
  (hash_content : string -> string) (document_id : nat)
  (correlation_id : option string) (rest : list string) (w : World) :
  get_ordered_stages (registry self) = "ingest" :: rest ->
  _stages (registry self) !! "ingest" = Some (ingest_execute hash_content) ->
  select_document document_id (store w) = None ->
  ~ has_completed_run document_id "ingest" (store w) ->
  exists e w',
    execute_pipeline self document_id correlation_id w = (Raise e, w')
    /\ exc_class e = PipelineStateError
    /\ pipeline_runs (store w')
       = pipeline_runs (store w)
         ++ [failed_run (fresh_run_id (store w)) document_id "ingest" 1
                        correlation_id e]
    /\ classify_error e = "pipeline_state"
    /\ documents (store w') = documents (store w)
    /\ executions (trace w') = S (executions (trace w))
    /\ sleeps (trace w') = sleeps (trace w).
Proof.
  intros Horder Hreg Hmissing Hnone.
  set (e := mkException PipelineStateError
              ("Document not found: " +:+ pretty document_id)
              (document_details document_id)).
  assert (Hstage : ingest_execute hash_content document_id
                     (started document_id "ingest" 1 correlation_id
                              (store w))
                   = (Some e,
                      started document_id "ingest" 1 correlation_id
                              (store w))).
  { unfold ingest_execute.
    change (select_document document_id (started _ _ _ _ (store w)))
      with (select_document document_id (store w)).
    by rewrite Hmissing. }
  exists e. eexists. split.
  - unfold execute_pipeline. rewrite Horder. unfold bind at 1.
    rewrite (run_stages_execute _ _ _ _ _ _ _ _ Hreg Hnone).
    unfold bind at 1.
    by rewrite (first_attempt_not_retryable self document_id "ingest"
                  (ingest_execute hash_content) correlation_id w e _
                  Hstage eq_refl).
  - cbn [store trace].
    destruct (after_failure_tables document_id "ingest" 1 correlation_id
                (store w) _ e eq_refl) as (-> & _ & -> & _).
    rewrite executions_app, sleeps_app. simpl.
    rewrite app_nil_r, Nat.add_1_r. by repeat split.
Qed.

(** An engine whose first stage is the ingest stage, run for the
    document 7 on a database that holds only the document 1. *)
Lemma pipeline_for_missing_document_witness :
  exists e w',
    execute_pipeline
      (mkPipelineEngine
         (register "ingest" (ingest_execute Samples.toy_hash) new_registry)
         3 2 60 true)
      7 None Samples.world1 = (Raise e, w')
    /\ map run_status (pipeline_runs (store w')) = ["failed"]
    /\ documents (store w') = [Samples.doc1].
Proof.
  destruct (pipeline_for_missing_document
              (mkPipelineEngine
                 (register "ingest" (ingest_execute Samples.toy_hash)
                           new_registry) 3 2 60 true)
              Samples.toy_hash 7 None _ Samples.world1
              eq_refl eq_refl eq_refl)
    as (e & w' & Hrun & _ & Hruns & _ & Hdocs & _).
  - intros (r & Hin & _). by apply elem_of_nil in Hin.
  - exists e, w'. split; [exact Hrun |]. rewrite Hruns, Hdocs. by split.
Defined.

End StageFacts.

(* ===================================================================== *)
(** ** The chunking stage and the chunks table                            *)
(* ===================================================================== *)

Module ChunkTableFacts.
Import Errors Db Engine Notions Stages StageNotions StageFacts.

Lemma insert_chunks_spec (self : Chunking.ChunkingStage)
  (document_id : nat) (text_chunks : list string) :
  forall sequence rows,
    exists new,
      insert_chunks self document_id sequence text_chunks rows
        = rows ++ new
      /\ map chunk_text new = text_chunks
      /\ map chunk_sequence new = seq sequence (length text_chunks)
      /\ map chunk_token_count new
         = map (Chunking._count_tokens self) text_chunks
      /\ map chunk_id new
         = seq (next_id (map chunk_id rows)) (length text_chunks)
      /\ Forall (fun c => chunk_document_id c = document_id) new.
Proof.
  induction text_chunks as [| t texts IH]; intros sequence rows.
  - exists []. rewrite app_nil_r. by repeat split.
  - cbn [insert_chunks].
    destruct (IH (S sequence)
                (rows ++ [mkChunk (next_id (map chunk_id rows)) document_id
                            sequence t (Chunking._count_tokens self t)]))
      as (new & Heq & Ht & Hs & Hc & Hi & Hd).
    eexists (_ :: new). rewrite Heq, <- app_assoc. split; [reflexivity |].
    cbn [map length seq chunk_text chunk_sequence chunk_token_count
           chunk_id].
    rewrite Ht, Hs, Hc, Hi, map_app. cbn [map chunk_id].
    rewrite RetryFacts.next_id_snoc. repeat split.
    by apply Forall_cons.
Qed.

Lemma filter_document_new (document_id : nat) (new : list Chunk) :
  Forall (fun c => chunk_document_id c = document_id) new ->
  List.filter (fun c => chunk_document_id c =? document_id) new = new
  /\ delete_chunks document_id new = [].
Proof.
  unfold delete_chunks.
  induction 1 as [| c new Hc _ [IH1 IH2]]; simpl; [done |].
  apply Nat.eqb_eq in Hc. rewrite Hc. simpl. by rewrite IH1, IH2.
Qed.

Lemma delete_chunks_spec (document_id : nat) (rows : list Chunk) :
  List.filter (fun c => chunk_document_id c =? document_id)
              (delete_chunks document_id rows) = []
  /\ delete_chunks document_id (delete_chunks document_id rows)
     = delete_chunks document_id rows.
Proof.
  unfold delete_chunks. induction rows as [| c rows [IH1 IH2]]; [done |].
  simpl. destruct (chunk_document_id c =? document_id) eqn:Hc; simpl;
    [done |]. rewrite Hc. simpl. by rewrite IH1, IH2.
Qed.

Lemma delete_chunks_app (document_id : nat) (rows new : list Chunk) :
  delete_chunks document_id (rows ++ new)
  = delete_chunks document_id rows ++ delete_chunks document_id new.
Proof. unfold delete_chunks. apply List.filter_app. Qed.

(** The join sees the same raw-content rows after a status update. *)
Lemma select_after_status_update (document_id d : nat) (status : string)
  (s s' : Store) :
  documents s' = update_document_status d status (documents s) ->
  raw_content s' = raw_content s ->
  map snd (select_document_with_content document_id s')
  = map snd (select_document_with_content document_id s).
Proof.
  intros Hdocs Hraw. unfold select_document_with_content.
  rewrite Hdocs, Hraw. clear Hdocs Hraw. unfold update_document_status.
  induction (documents s) as [| doc docs IH]; [done |].
  cbn [map List.filter].
  assert (Hid : doc_id (if doc_id doc =? d then with_doc_status status doc
                        else doc) = doc_id doc)
    by (by destruct (doc_id doc =? d)).
  rewrite Hid. destruct (doc_id doc =? document_id); [| exact IH].
  cbn [flat_map]. rewrite !map_app, IH, Hid. f_equal.
  by rewrite !map_map.
Qed.

Section Chunking.
Variables (self : Chunking.ChunkingStage) (decode : string -> string).

(** What a successful execution leaves in the chunks table. *)
Lemma chunking_execute_spec (document_id : nat) (s : Store)
  (doc : Document) (row : RawContent)
  (others : list (Document * RawContent)) :
  select_document_with_content document_id s = (doc, row) :: others ->
  exists s',
    chunking_execute self decode document_id s = (None, s')
    /\ documents s'
       = update_document_status document_id "chunked" (documents s)
    /\ raw_content s' = raw_content s
    /\ map chunk_text (chunks_of document_id s')
       = Chunking._create_chunks self (decode (raw_bytes row))
    /\ map chunk_sequence (chunks_of document_id s')
       = seq 0 (length (Chunking._create_chunks self
                          (decode (raw_bytes row))))
    /\ map chunk_token_count (chunks_of document_id s')
       = map (Chunking._count_tokens self)
             (Chunking._create_chunks self (decode (raw_bytes row)))
    /\ map chunk_id (chunks_of document_id s')
       = seq (next_id (map chunk_id (chunks_of_others document_id s)))
             (length (Chunking._create_chunks self
                        (decode (raw_bytes row))))
    /\ chunks_of_others document_id s' = chunks_of_others document_id s.
Proof.
  intros Hsel. unfold chunking_execute. rewrite Hsel.
  eexists. split; [reflexivity |].
  unfold chunks_of, chunks_of_others. cbn [documents raw_content Db.chunks
    set_documents set_chunks].
  destruct (insert_chunks_spec self document_id
              (Chunking._create_chunks self (decode (raw_bytes row)))
              0 (delete_chunks document_id (Db.chunks s)))
    as (new & -> & Ht & Hs & Hc & Hi & Hd).
  destruct (filter_document_new document_id new Hd) as [Hf1 Hf2].
  destruct (delete_chunks_spec document_id (Db.chunks s)) as [Hd1 Hd2].
  rewrite List.filter_app, Hd1, Hf1. cbn [app].
  rewrite delete_chunks_app, Hd2, Hf2, app_nil_r. by repeat split.
Qed.
End Chunking.

(** X8.  When the join of the document with its raw content finds a row,
    [ChunkingStage.execute] returns and leaves in the chunks table, for
    that document, exactly the chunks [_create_chunks] makes of the
    decoded content: in order, numbered 0, 1, 2, ... without gaps, each
    with its token count and with a fresh key; the chunks the document
    had before are gone, the chunks of every other document are
    untouched, and the document's status is [chunked]. *)
Theorem chunking_rewrites_chunks (self : Chunking.ChunkingStage)
  (decode : string -> string) (document_id : nat) (s : Store)
  (doc : Document) (row : RawContent)
  (others : list (Document * RawContent)) :
  select_document_with_content document_id s = (doc, row) :: others ->
  exists s',
    chunking_execute self decode document_id s = (None, s')
    /\ map chunk_text (chunks_of document_id s')
       = Chunking._create_chunks self (decode (raw_bytes row))
    /\ map chunk_sequence (chunks_of document_id s')
       = seq 0 (length (chunks_of document_id s'))
    /\ map chunk_token_count (chunks_of document_id s')
       = map (Chunking._count_tokens self)
             (map chunk_text (chunks_of document_id s'))
    /\ Forall (fun c => Forall (fun o => chunk_id o < chunk_id c)
                               (chunks_of_others document_id s'))
              (chunks_of document_id s')
    /\ chunks_of_others document_id s' = chunks_of_others document_id s
    /\ documents s'
       = update_document_status document_id "chunked" (documents s).
Proof.
  intros Hsel.
  destruct (chunking_execute_spec self decode document_id s doc row others
              Hsel)
    as (s' & Hrun & Hdocs & _ & Ht & Hs & Hc & Hi & Ho).
  exists s'. split; [exact Hrun |].
  assert (Hlen : length (chunks_of document_id s')
                 = length (Chunking._create_chunks self
                             (decode (raw_bytes row))))
    by (by rewrite <- Ht, length_map).
  rewrite Hlen, Ht, Ho. repeat split; try done.
  apply Forall_forall. intros c Hc'.
  assert (Hge : next_id (map chunk_id (chunks_of_others document_id s))
                <= chunk_id c).
  { apply (list_elem_of_fmap_2 chunk_id) in Hc'.
    change (chunk_id <$> chunks_of document_id s')
      with (map chunk_id (chunks_of document_id s')) in Hc'.
    rewrite Hi in Hc'. apply list_elem_of_In, in_seq in Hc'. lia. }
  apply Forall_forall. intros o Ho'.
  pose proof (proj1 (list_max_le
                       (map chunk_id (chunks_of_others document_id s)) _)
                    (Nat.le_refl _)) as Hmax.
  rewrite List.Forall_map in Hmax.
  rewrite Forall_forall in Hmax. specialize (Hmax o Ho').
  unfold next_id in Hge. simpl in Hmax. lia.
Qed.

Lemma chunking_rewrites_chunks_witness :
  exists s',
    chunking_execute Samples.small_chunker (fun bytes => bytes) 1
                     MoreSamples.text_store = (None, s')
    /\ map chunk_text (chunks_of 1 s')
       = ["alpha beta"; MoreSamples.two_paragraphs]
    /\ map chunk_sequence (chunks_of 1 s') = [0; 1]
    /\ chunks_of_others 1 s' = [mkChunk 2 2 0 "other" 1].
Proof.
  destruct (chunking_rewrites_chunks Samples.small_chunker
              (fun bytes => bytes) 1 MoreSamples.text_store _ _ _ eq_refl)
    as (s' & Hrun & Ht & Hs & _ & _ & Ho & _).
  exists s'. split; [exact Hrun |].
  rewrite Hs, <- (length_map chunk_text), Ht, Ho.
  split; [reflexivity |]. split; reflexivity.
Defined.

(** X9.  Executing the chunking stage a second time, right after an
    execution that returned, returns again and leaves the same chunk
    texts, sequence numbers and token counts for the document, the same
    chunks of the other documents, and the same documents table. *)
Theorem chunking_rerun_same_chunks (self : Chunking.ChunkingStage)
  (decode : string -> string) (document_id : nat) (s s1 : Store) :
  chunking_execute self decode document_id s = (None, s1) ->
  exists s2,
    chunking_execute self decode document_id s1 = (None, s2)
    /\ map chunk_text (chunks_of document_id s2)
       = map chunk_text (chunks_of document_id s1)
    /\ map chunk_sequence (chunks_of document_id s2)
       = map chunk_sequence (chunks_of document_id s1)
    /\ map chunk_token_count (chunks_of document_id s2)
       = map chunk_token_count (chunks_of document_id s1)
    /\ chunks_of_others document_id s2 = chunks_of_others document_id s1
    /\ documents s2 = documents s1.
Proof.
  intros Hrun.
  destruct (select_document_with_content document_id s)
    as [| [doc row] others] eqn:Hsel.
  { unfold chunking_execute in Hrun. rewrite Hsel in Hrun. discriminate. }
  destruct (chunking_execute_spec self decode document_id s doc row others
              Hsel)
    as (s1' & Hrun1 & Hdocs & Hraw & Ht & Hs & Hc & Hi & Ho).
  rewrite Hrun in Hrun1. injection Hrun1 as <-.
  pose proof (select_after_status_update document_id document_id "chunked"
                s s1 Hdocs Hraw) as Hsame.
  rewrite Hsel in Hsame.
  destruct (select_document_with_content document_id s1)
    as [| [doc1 row1] others1] eqn:Hsel1; [discriminate |].
  injection Hsame as -> _.
  destruct (chunking_execute_spec self decode document_id s1 doc1 row
              others1 Hsel1)
    as (s2 & Hrun2 & Hdocs2 & _ & Ht2 & Hs2 & Hc2 & _ & Ho2).
  exists s2. split; [exact Hrun2 |].
  rewrite Ht2, Hs2, Hc2, Ho2, Ht, Hs, Hc, Hdocs2, Hdocs.
  repeat split. apply Idempotency.update_document_status_twice.
Qed.

Lemma chunking_rerun_same_chunks_witness :
  exists s1 s2,
    chunking_execute Samples.small_chunker (fun bytes => bytes) 1
                     MoreSamples.text_store = (None, s1)
    /\ chunking_execute Samples.small_chunker (fun bytes => bytes) 1 s1
       = (None, s2)
    /\ map chunk_text (chunks_of 1 s2) = map chunk_text (chunks_of 1 s1).
Proof.
  eexists.
  destruct (chunking_rerun_same_chunks Samples.small_chunker
              (fun bytes => bytes) 1 MoreSamples.text_store _ eq_refl)
    as (s2 & Hrun2 & Ht & _).
  exists s2. split; [reflexivity |]. split; [exact Hrun2 | exact Ht].
Defined.

End ChunkTableFacts.

(* ===================================================================== *)
(** ** Submissions and the tables they fill                               *)
(* ===================================================================== *)

Module RouteFacts.
Import Errors Db Engine Documents Notions RouteNotions Stages Dedup.

Lemma next_id_fresh (ids : list nat) : next_id ids ∉ ids.
Proof.
  intros Hin. apply list_elem_of_In in Hin.
  pose proof (proj1 (list_max_le ids _) (Nat.le_refl _)) as Hmax.
  rewrite List.Forall_forall in Hmax. specialize (Hmax _ Hin).
  unfold next_id in Hmax. lia.
Qed.

Lemma find_none_key (h v : string) (docs : list Document) :
  find (same_hash_and_schema h v) docs = None ->
  (h, v) ∉ map dedup_key docs.
Proof.
  intros Hnone Hin. apply list_elem_of_In, in_map_iff in Hin
    as (d & Hk & Hd).
  pose proof (find_none _ _ Hnone d Hd) as Hf.
  unfold dedup_key in Hk. injection Hk as Hh Hv.
  unfold same_hash_and_schema in Hf.
  by rewrite Hh, Hv, !String.eqb_refl in Hf.
Qed.

Lemma NoDup_snoc {A} (l : list A) (x : A) :
  NoDup l -> x ∉ l -> NoDup (l ++ [x]).
Proof.
  intros Hl Hx. apply NoDup_app. split; [done |]. split.
  - intros y Hy Hy'. apply list_elem_of_singleton in Hy'. by subst.
  - apply NoDup_singleton.
Qed.

Section Handler.
Variable hash_content : string -> string.
Variable settings : Settings.

(** The three ways a submission can go. *)
Lemma submit_cases (uuid : string) (file : UploadFile)
  (schema_version : string) (st st1 : AppState) (reply : Reply) :
  submit_document hash_content settings uuid file schema_version st
    = (reply, st1) ->
  (st1 = st /\ exists detail, reply = HTTPException 413 detail)
  \/ (st1 = st
      /\ exists existing,
           existing ∈ documents (db st)
           /\ reply = Returned (mkDocumentSubmitResponse
                                  (doc_id existing) uuid
                                  (doc_status existing)))
  \/ (let document_id := next_id (map doc_id (documents (db st))) in
      reply = Returned (mkDocumentSubmitResponse document_id uuid
                                                 "pending")
      /\ find (same_hash_and_schema (hash_content (content file))
                                    schema_version)
              (documents (db st)) = None
      /\ documents (db st1)
         = documents (db st)
           ++ [mkDocument document_id
                 (or_default (filename file) "upload")
                 (hash_content (content file)) schema_version "pending"
                 (String.length (content file))
                 (or_default (content_type file)
                             "application/octet-stream")]
      /\ raw_content (db st1)
         = raw_content (db st)
           ++ [mkRawContent document_id (content file)
                            (storage_hash_raw_content settings)]
      /\ background_tasks st1
         = background_tasks st ++ [(document_id, uuid)]).
Proof.
  unfold submit_document. cbv zeta.
  destruct (_ <? _)%N.
  - intros [= <- <-]. left. eauto.
  - destruct (find _ (documents (db st))) as [existing |] eqn:Hfind.
    + intros [= <- <-]. right. left. split; [done |].
      exists existing. split; [| done].
      apply find_some in Hfind as [Hin _]. by apply list_elem_of_In.
    + intros [= <- <-]. right. right. by repeat split.
Qed.

Lemma submit_keeps_consistent (uuid : string) (file : UploadFile)
  (schema_version : string) (st : AppState) :
  consistent hash_content (db st) ->
  consistent hash_content
    (db (snd (submit_document hash_content settings uuid file
                              schema_version st))).
Proof.
  intros (Hids & Hkeys & Hraw).
  destruct (submit_document hash_content settings uuid file
                            schema_version st) as [reply st1] eqn:Hrun.
  apply submit_cases in Hrun
    as [[-> _] | [[-> _] | (_ & Hnone & Hdocs & Hraws & _)]];
    cbn [snd]; try by repeat split.
  unfold consistent. rewrite Hdocs, Hraws, !map_app. cbn [map].
  split; [apply NoDup_snoc; [done | apply next_id_fresh] |].
  split; [apply NoDup_snoc; [done | by apply find_none_key] |].
  apply Forall2_app; [done |]. by repeat constructor.
Qed.

(** X10.  The submission route keeps the documents and raw-content
    tables consistent: if document keys are distinct, no two documents
    share a content hash and schema version, and the raw-content rows
    are the contents of the documents row by row (same key, bytes that
    hash to the document's content hash, and the recorded size), then
    the same holds after any sequence of submissions, accepted or
    rejected.  It holds of the empty database. *)
Theorem submission_keeps_tables_consistent
  (requests : list (string * UploadFile * string)) (st : AppState) :
  consistent hash_content (db st) ->
  consistent hash_content
    (db (fold_left
           (fun st '(uuid, file, schema_version) =>
              snd (submit_document hash_content settings uuid file
                                   schema_version st))
           requests st))
  /\ consistent hash_content empty_store.
Proof.
  intros Hst. split; [| repeat split; constructor].
  revert st Hst.
  induction requests as [| [[uuid file] schema_version] requests IH];
    intros st Hst; [done |].
  cbn [fold_left]. by apply IH, submit_keeps_consistent.
Qed.
End Handler.

Lemma submission_keeps_tables_consistent_witness :
  consistent Samples.toy_hash
    (db (snd (submit_document Samples.toy_hash Samples.route_settings
                "uuid-2" Samples.hello_upload "invoice_v1"
                (snd (submit_document Samples.toy_hash
                        Samples.route_settings "uuid-1"
                        Samples.hello_upload "invoice_v1"
                        Samples.fresh_app))))).
Proof.
  refine (proj1 (submission_keeps_tables_consistent Samples.toy_hash
                   Samples.route_settings
                   [("uuid-1", Samples.hello_upload, "invoice_v1");
                    ("uuid-2", Samples.hello_upload, "invoice_v1")]
                   Samples.fresh_app _)).
  repeat split; constructor.
Defined.

(** A document of a consistent database passes the ingest stage. *)
Lemma paired_rows_found (hash_content : string -> string)
  (docs : list Document) (raws : list RawContent) (d : Document) :
  Forall2 (content_of hash_content) docs raws ->
  d ∈ docs ->
  exists d' r,
    find (fun x => doc_id x =? doc_id d) docs = Some d'
    /\ find (fun x => raw_document_id x =? doc_id d) raws = Some r
    /\ content_of hash_content d' r.
Proof.
  induction 1 as [| d0 r0 docs raws Hc Hrest IH]; intros Hin.
  - by apply elem_of_nil in Hin.
  - cbn [find]. destruct Hc as (Hid & Hh & Hsz).
    rewrite Hid. destruct (doc_id d0 =? doc_id d) eqn:E.
    + exists d0, r0. by repeat split.
    + apply elem_of_cons in Hin as [-> | Hin].
      * by rewrite Nat.eqb_refl in E.
      * by apply IH.
Qed.

Lemma ingest_of_consistent (hash_content : string -> string) (s : Store)
  (d : Document) :
  consistent hash_content s ->
  d ∈ documents s ->
  ingest_execute hash_content (doc_id d) s
  = (None,
     set_documents (update_document_status (doc_id d) "ingested") s).
Proof.
  intros (_ & _ & Hraw) Hin.
  destruct (paired_rows_found _ _ _ _ Hraw Hin)
    as (d' & r & Hd & Hr & _ & Hh & _).
  unfold ingest_execute, select_document, select_raw_content.
  by rewrite Hd, Hr, Hh, String.eqb_refl.
Qed.

(** X11.  A document the submission route answers for passes the ingest
    stage: on a consistent database, whenever [submit_document] returns
    a response (for a new document or for the one that was already
    there), [IngestStage.execute] for the returned key finds the
    document and its content, the hash check succeeds, no error is
    raised, and the stage only writes the status. *)
Theorem submitted_document_passes_ingest
  (hash_content : string -> string) (settings : Settings) (uuid : string)
  (file : UploadFile) (schema_version : string) (st st1 : AppState)
  (r : DocumentSubmitResponse) :
  consistent hash_content (db st) ->
  submit_document hash_content settings uuid file schema_version st
    = (Returned r, st1) ->
  ingest_execute hash_content (document_id r) (db st1)
  = (None,
     set_documents (update_document_status (document_id r) "ingested")
                   (db st1)).
Proof.
  intros Hcons Hrun.
  pose proof (submit_cases _ _ _ _ _ _ _ _ Hrun) as Hcases.
  destruct Hcases
    as [[_ [detail [=]]]
       | [[-> (existing & Hin & [= ->])]
         | ([= ->] & Hnone & Hdocs & Hraws & _)]].
  - by apply (ingest_of_consistent _ _ existing).
  - cbn [document_id].
    set (new := mkDocument _ _ _ _ _ _ _) in Hdocs.
    apply (ingest_of_consistent hash_content (db st1) new).
    + pose proof (submit_keeps_consistent hash_content settings uuid
                    file schema_version st Hcons) as Hkept.
      by rewrite Hrun in Hkept.
    + rewrite Hdocs. apply elem_of_app. right. apply list_elem_of_here.
Qed.

Lemma submitted_document_passes_ingest_witness :
  fst (ingest_execute Samples.toy_hash 1
         (db (snd (submit_document Samples.toy_hash
                     Samples.route_settings "uuid-1" Samples.hello_upload
                     "invoice_v1" Samples.fresh_app))))
  = None.
Proof.
  pose proof (submitted_document_passes_ingest Samples.toy_hash
                Samples.route_settings "uuid-1" Samples.hello_upload
                "invoice_v1" Samples.fresh_app _ _
                ltac:(repeat split; constructor) eq_refl) as H.
  cbn [document_id] in H. exact (f_equal fst H).
Defined.



Lemma find_app_some {A} (f : A -> bool) (l l' : list A) (x : A) :
  find f l = Some x -> find f (l ++ l') = Some x.
Proof.
  induction l as [| a l IH]; [done |]. cbn [find app].
  by destruct (f a).
Qed.

(** X13.  The command-line submission does not de-duplicate.  It always
    inserts a document under a fresh key, together with its content, so
    keys stay distinct and rows stay paired; but when a document with
    the same content hash and schema version is already there, the
    table afterwards holds two documents with that hash and version, so
    the database is no longer in the state the HTTP route keeps it in,
    and the route, given the same content, answers with the older
    document. *)
Theorem cli_submission_is_not_deduplicated
  (hash_content : string -> string) (settings : Settings)
  (source content mime_type schema_version : string) (s : Store)
  (existing : Document) :
  consistent hash_content s ->
  existing ∈ documents s ->
  dedup_key existing = (hash_content content, schema_version) ->
  let new_id := fst (Cli.submit_document hash_content source content
                                         mime_type schema_version s) in
  let s' := snd (Cli.submit_document hash_content source content
                                     mime_type schema_version s) in
  (new_id ∉ map doc_id (documents s))
  /\ NoDup (map doc_id (documents s'))
  /\ Forall2 (content_of hash_content) (documents s') (raw_content s')
  /\ ~ NoDup (map dedup_key (documents s'))
  /\ forall uuid file tasks,
       Documents.content file = content ->
       (N.of_nat (String.length content)
        <= storage_max_file_size_mb settings * 1024 * 1024)%N ->
       exists older,
         older ∈ documents s
         /\ submit_document hash_content settings uuid file schema_version
                            (mkAppState s' tasks)
            = (Returned (mkDocumentSubmitResponse (doc_id older) uuid
                                                  (doc_status older)),
               mkAppState s' tasks).
Proof.
  intros (Hids & Hkeys & Hraw) Hin Hkey.
  unfold Cli.submit_document. cbv zeta. cbn [fst snd documents raw_content
    set_documents set_raw_content].
  split; [apply next_id_fresh |].
  split; [rewrite map_app; apply NoDup_snoc;
          [done | apply next_id_fresh] |].
  split; [apply Forall2_app; [done |]; by repeat constructor |].
  split.
  - rewrite map_app. cbn [map]. intros Hnd.
    apply NoDup_app in Hnd as (_ & Hdisj & _).
    apply (Hdisj (hash_content content, schema_version)).
    + rewrite <- Hkey. apply list_elem_of_In, in_map.
      by apply list_elem_of_In.
    + apply list_elem_of_here.
  - intros uuid file tasks Hfile Hsize.
    unfold submit_document. cbv zeta. rewrite Hfile.
    apply N.ltb_ge in Hsize. rewrite Hsize. cbn [db documents].
    assert (Hmatch : same_hash_and_schema (hash_content content)
                       schema_version existing = true).
    { unfold dedup_key in Hkey. injection Hkey as Hh Hv.
      unfold same_hash_and_schema.
      by rewrite Hh, Hv, !String.eqb_refl. }
    destruct (find (same_hash_and_schema (hash_content content)
                      schema_version) (documents s)) as [older |] eqn:Hf.
    + exists older. split.
      * apply find_some in Hf as [Ho _]. by apply list_elem_of_In.
      * cbn [set_documents set_raw_content documents].
        by rewrite (find_app_some _ _ _ _ Hf).
    + apply list_elem_of_In in Hin.
      pose proof (find_none _ _ Hf _ Hin) as Hno. congruence.
Qed.

Lemma cli_submission_is_not_deduplicated_witness :
  ~ NoDup (map dedup_key
             (documents
                (snd (Cli.submit_document Samples.toy_hash "hello.txt"
                        "hello" "text/plain" "invoice_v1"
                        (db (snd (submit_document Samples.toy_hash
                                    Samples.route_settings "uuid-1"
                                    Samples.hello_upload "invoice_v1"
                                    Samples.fresh_app))))))).
Proof.
  refine (proj1 (proj2 (proj2 (proj2
            (cli_submission_is_not_deduplicated Samples.toy_hash
               Samples.route_settings "hello.txt" "hello" "text/plain"
               "invoice_v1" _
               (mkDocument 1 "hello.txt" (Samples.toy_hash "hello")
                           "invoice_v1" "pending" 5 "text/plain")
               _ _ _))))).
  - apply (submit_keeps_consistent Samples.toy_hash
             Samples.route_settings "uuid-1" Samples.hello_upload
             "invoice_v1" Samples.fresh_app).
    repeat split; constructor.
  - apply list_elem_of_here.
  - reflexivity.
Defined.

End RouteFacts.

(* ===================================================================== *)
(** ** The model clients: what is worth a retry, and what is returned     *)
(* ===================================================================== *)

Module ClientExtras.
Import Errors LLM Notions ClientNotions ErrorFacts.

Lemma builtin_not_retryable (n msg : string) (d : list (string * string)) :
  is_retryable (mkException (Builtin n) msg d) = false.
Proof.
  destruct (is_retryable _) eqn:E; [| done].
  by apply is_retryable_iff in E.
Qed.

Lemma reading_error_not_retryable (e : Exception) :
  reading_error e -> is_retryable e = false.
Proof.
  intros He. destruct (is_retryable e) eqn:E; [| done].
  apply is_retryable_iff in E. destruct He as [He | [n He]]; congruence.
Qed.

Lemma error_builtin {A} (n msg : string) (e : Exception) :
  @error A (Builtin n) msg = Raise e -> reading_error e.
Proof. intros [= <-]. right. by exists n. Qed.

Lemma getitem_str_raises (obj : json) (key : string) (e : Exception) :
  getitem_str obj key = Raise e -> reading_error e.
Proof.
  destruct obj as [| | | | | | items]; cbn [getitem_str];
    try apply error_builtin.
  destruct (assoc key items); [discriminate | apply error_builtin].
Qed.

Lemma getitem_0_raises (obj : json) (e : Exception) :
  getitem_0 obj = Raise e -> reading_error e.
Proof.
  destruct obj as [| | | | s | l |]; cbn [getitem_0];
    try apply error_builtin.
  - destruct s; [apply error_builtin | discriminate].
  - destruct l; [apply error_builtin | discriminate].
Qed.

Lemma dict_get_raises (obj : json) (key : string) (default : json)
  (e : Exception) :
  dict_get obj key default = Raise e -> reading_error e.
Proof.
  destruct obj as [| | | | | | items]; cbn [dict_get];
    try apply error_builtin.
  by destruct (assoc key items).
Qed.

Lemma as_str_raises (obj : json) (e : Exception) :
  as_str obj = Raise e -> reading_error e.
Proof. destruct obj; cbn [as_str]; try apply error_builtin. done. Qed.

Lemma parse_content_raises (json_loads : string -> option json)
  (raw : string) (e : Exception) :
  parse_content json_loads raw = Raise e -> reading_error e.
Proof.
  unfold parse_content. destruct (json_loads _); [done |].
  intros [= <-]. by left.
Qed.

Lemma response_json_raises (json_loads : string -> option json)
  (text : string) (e : Exception) :
  response_json json_loads text = Raise e -> reading_error e.
Proof.
  unfold response_json. destruct (json_loads _); [done |].
  apply error_builtin.
Qed.

Lemma rbind_raises {A B} (c : Result A) (k : A -> Result B)
  (e : Exception) :
  rbind c k = Raise e ->
  c = Raise e \/ exists a, c = Ok a /\ k a = Raise e.
Proof. destruct c as [a | e']; cbn; [eauto | intros [= ->]; by left]. Qed.

Create HintDb reading.

#[local] Hint Resolve getitem_str_raises getitem_0_raises dict_get_raises
  as_str_raises parse_content_raises response_json_raises : reading.

Ltac step_raise H :=
  apply rbind_raises in H as [H | (? & _ & H)]; [by eauto with reading |].

Lemma message_content_raises (data : json) (e : Exception) :
  message_content data = Raise e -> reading_error e.
Proof.
  unfold message_content. intros H. do 3 step_raise H.
  eauto with reading.
Qed.

Lemma usage_tokens_raises (data : json) (e : Exception) :
  usage_tokens data = Raise e -> reading_error e.
Proof. unfold usage_tokens. intros H. do 3 step_raise H. done. Qed.

Lemma choice_finish_reason_raises (data : json) (e : Exception) :
  choice_finish_reason data = Raise e -> reading_error e.
Proof.
  unfold choice_finish_reason. intros H. do 2 step_raise H.
  eauto with reading.
Qed.

#[local] Hint Resolve message_content_raises usage_tokens_raises
  choice_finish_reason_raises : reading.

Lemma check_status_retryable (status_code : Z) (text : string) :
  match check_status status_code with
  | Some e => is_retryable e = transient_outcome (Response status_code text)
  | None => transient_outcome (Response status_code text) = false
  end.
Proof.
  unfold check_status, transient_outcome.
  destruct (status_code =? 429)%Z; [done |].
  destruct (500 <=? status_code)%Z; [done |].
  by destruct (status_code =? 200)%Z.
Qed.

Lemma openai_reading_raises (json_loads : string -> option json)
  (text : string) (e : Exception) :
  (let? data := response_json json_loads text in
   let? raw := message_content data in
   let? tokens := usage_tokens data in
   let? s := as_str raw in
   let? parsed := parse_content json_loads s in
   let? finish := choice_finish_reason data in
   Ok (mkLLMResponse s parsed (fst tokens) (snd tokens) finish))
  = Raise e ->
  reading_error e.
Proof. intros H. do 6 step_raise H. done. Qed.

Lemma huggingface_reading_raises (json_loads : string -> option json)
  (full_prompt text : string) (e : Exception) :
  (let? data := response_json json_loads text in
   let? raw :=
     (if is_nonempty_list data
      then let? first := getitem_0 data in
           dict_get first "generated_text" (JStr "")
      else dict_get data "generated_text" (JStr "")) in
   let t_in := estimate_tokens full_prompt in
   let? s := as_str raw in
   let t_out := estimate_tokens s in
   let? parsed := parse_content json_loads s in
   Ok (mkLLMResponse s parsed t_in t_out JNull))
  = Raise e ->
  reading_error e.
Proof.
  intros H. step_raise H.
  apply rbind_raises in H as [H | (? & _ & H)].
  - destruct (is_nonempty_list _); [| by eauto with reading].
    step_raise H. eauto with reading.
  - cbv zeta in H. do 2 step_raise H. done.
Qed.

(** X14.  Both model clients raise a retryable error exactly on the
    transient outcomes of the request.  Whenever
    [OpenAIProvider.generate_structured] or
    [HuggingFaceProvider.generate_structured] raises, the engine's
    [is_retryable] holds of the error if and only if the request timed
    out, met a network error, or was answered with status 429 or a
    status from 500 on; and on each of those outcomes the client does
    raise.  Everything that goes wrong while a 200 response is read
    (a body that is not JSON, a missing key, content that is not a
    string or does not parse) is not retried. *)
Theorem clients_retryable_iff_transient
  (json_loads : string -> option json) (full_prompt : string)
  (outcome : HttpOutcome) :
  (forall e,
     openai_generate_structured json_loads outcome = Raise e ->
     is_retryable e = transient_outcome outcome)
  /\ (forall e,
        huggingface_generate_structured json_loads full_prompt outcome
          = Raise e ->
        is_retryable e = transient_outcome outcome)
  /\ (transient_outcome outcome = true ->
      raises TransientExternalError
             (openai_generate_structured json_loads outcome)
      /\ raises TransientExternalError
                (huggingface_generate_structured json_loads full_prompt
                                                 outcome)).
Proof.
  destruct outcome as [status_code text | | msg | name msg];
    cbn [openai_generate_structured huggingface_generate_structured
         transient_outcome].
  2, 3: by repeat split; try (intros e [= <-]); try (intros _; split);
          try (eexists; split; [reflexivity |]).
  2: { repeat split; try (intros e [= <-]; apply builtin_not_retryable).
       all: discriminate. }
  pose proof (check_status_retryable status_code text) as Hst.
  cbn [transient_outcome] in Hst.
  destruct (check_status status_code) as [e0 |].
  - split; [by intros e [= <-] |]. split; [by intros e [= <-] |].
    intros Htr. rewrite Htr in Hst. apply is_retryable_iff in Hst.
    split; by exists e0.
  - rewrite Hst. split; [| split; [| discriminate]]; intros e He;
      apply reading_error_not_retryable.
    + by apply openai_reading_raises in He.
    + by apply huggingface_reading_raises in He.
Qed.

Lemma clients_retryable_iff_transient_witness :
  raises TransientExternalError
         (openai_generate_structured Samples.sample_json_loads
            (Response 502 "Bad Gateway"))
  /\ raises TransientExternalError
            (huggingface_generate_structured Samples.sample_json_loads
               "Extract the invoice total" (Response 502 "Bad Gateway")).
Proof.
  exact (proj2 (proj2 (clients_retryable_iff_transient
                         Samples.sample_json_loads
                         "Extract the invoice total"
                         (Response 502 "Bad Gateway"))) eq_refl).
Defined.

Lemma rbind_ok {A B} (c : Result A) (k : A -> Result B) (b : B) :
  rbind c k = Ok b -> exists a, c = Ok a /\ k a = Ok b.
Proof. destruct c as [a | e]; cbn; [eauto | discriminate]. Qed.

Lemma parse_content_ok (json_loads : string -> option json)
  (raw : string) (parsed : json) :
  parse_content json_loads raw = Ok parsed ->
  json_loads (strip_fences raw) = Some parsed.
Proof.
  unfold parse_content. destruct (json_loads _); [| discriminate].
  by intros [= ->].
Qed.

Lemma check_status_ok (status_code : Z) :
  check_status status_code = None -> status_code = 200%Z.
Proof.
  unfold check_status.
  destruct (Z.eqb_spec status_code 429); [discriminate |].
  destruct (Z.leb_spec 500 status_code); [discriminate |].
  destruct (Z.eqb_spec status_code 200); [done | discriminate].
Qed.

(** X15.  What a model client returns, when it returns.  A call of
    either client that does not raise was answered with status 200 and
    a body that parses; the [raw_response] of the result is the string
    found in the body (under [choices[0].message.content] for the
    OpenAI-compatible client; under [generated_text] of the body or of
    its first element, with the empty string as default, for the
    HuggingFace client), unstripped; and [parsed_json] is the value
    [json.loads] gives for that string with its markdown fence
    stripped.  So a returned response never has [parsed_json] unset. *)
Theorem client_result_parsed_from_raw
  (json_loads : string -> option json) (full_prompt : string)
  (outcome : HttpOutcome) (r : LLMResponse) :
  openai_generate_structured json_loads outcome = Ok r
  \/ huggingface_generate_structured json_loads full_prompt outcome = Ok r
  ->
  exists text data,
    outcome = Response 200 text
    /\ json_loads text = Some data
    /\ json_loads (strip_fences (raw_response r)) = Some (parsed_json r)
    /\ (openai_generate_structured json_loads outcome = Ok r ->
        message_content data = Ok (JStr (raw_response r)))
    /\ (huggingface_generate_structured json_loads full_prompt outcome
          = Ok r ->
        (if is_nonempty_list data
         then let? first := getitem_0 data in
              dict_get first "generated_text" (JStr "")
         else dict_get data "generated_text" (JStr ""))
        = Ok (JStr (raw_response r))).
Proof.
  assert (Hjson : forall text data,
            response_json json_loads text = Ok data ->
            json_loads text = Some data).
  { intros text data. unfold response_json.
    destruct (json_loads text); [by intros [= ->] | discriminate]. }
  assert (Hstr : forall raw s, as_str raw = Ok s -> raw = JStr s).
  { intros raw s. destruct raw; try discriminate. by intros [= ->]. }
  intros [H | H].
  - destruct outcome as [status_code text | | msg | name msg];
      cbn [openai_generate_structured] in H; try discriminate.
    destruct (check_status status_code) eqn:Hst; [discriminate |].
    apply check_status_ok in Hst as ->.
    apply rbind_ok in H as (data & Hdata & H).
    apply rbind_ok in H as (raw & Hraw & H).
    apply rbind_ok in H as (tokens & _ & H).
    apply rbind_ok in H as (s & Hs & H).
    apply rbind_ok in H as (parsed & Hparsed & H).
    apply rbind_ok in H as (finish & _ & [= <-]).
    exists text, data. cbn [raw_response parsed_json].
    apply Hstr in Hs as ->. apply parse_content_ok in Hparsed.
    repeat split; auto.
    intros H'. cbn [huggingface_generate_structured] in H'.
    change (check_status 200) with (@None Exception) in H'.
    cbv iota in H'.
    apply rbind_ok in H' as (data' & Hdata' & H').
    rewrite Hdata in Hdata'. injection Hdata' as <-.
    apply rbind_ok in H' as (raw' & Hraw' & H'). cbv zeta in H'.
    apply rbind_ok in H' as (s' & Hs' & H').
    apply rbind_ok in H' as (parsed' & _ & [= Hs'' _]).
    apply Hstr in Hs' as ->. by rewrite Hraw', Hs''.
  - destruct outcome as [status_code text | | msg | name msg];
      cbn [huggingface_generate_structured] in H; try discriminate.
    destruct (check_status status_code) eqn:Hst; [discriminate |].
    apply check_status_ok in Hst as ->.
    apply rbind_ok in H as (data & Hdata & H).
    apply rbind_ok in H as (raw & Hraw & H). cbv zeta in H.
    apply rbind_ok in H as (s & Hs & H).
    apply rbind_ok in H as (parsed & Hparsed & [= <-]).
    exists text, data. cbn [raw_response parsed_json].
    apply Hstr in Hs as ->. apply parse_content_ok in Hparsed.
    repeat split; auto.
    intros H'. cbn [openai_generate_structured] in H'.
    change (check_status 200) with (@None Exception) in H'.
    cbv iota in H'.
    apply rbind_ok in H' as (data' & Hdata' & H').
    rewrite Hdata in Hdata'. injection Hdata' as <-.
    apply rbind_ok in H' as (raw' & Hraw' & H').
    apply rbind_ok in H' as (tokens & _ & H').
    apply rbind_ok in H' as (s' & Hs' & H').
    apply rbind_ok in H' as (parsed' & _ & H').
    apply rbind_ok in H' as (finish & _ & [= Hs'' _]).
    apply Hstr in Hs' as ->. by rewrite Hraw', Hs''.
Qed.

Lemma client_result_parsed_from_raw_witness :
  exists r,
    huggingface_generate_structured Samples.sample_json_loads
      "Extract the invoice total" (Response 200 Samples.hf_body) = Ok r
    /\ Samples.sample_json_loads (strip_fences (raw_response r))
       = Some (parsed_json r).
Proof.
  eexists. split; [reflexivity |].
  destruct (client_result_parsed_from_raw Samples.sample_json_loads
              "Extract the invoice total" (Response 200 Samples.hf_body)
              _ (or_intror eq_refl))
    as (text & data & _ & _ & H & _).
  exact H.
Defined.

End ClientExtras.

(* ===================================================================== *)
(** ** Markdown fences around the generated text                          *)
(* ===================================================================== *)

Module FenceFacts.
Import Errors LLM ClientNotions.
Import PyStr.

Lemma append_assoc (a b c : string) : (a +:+ b) +:+ c = a +:+ (b +:+ c).
Proof.
  induction a as [| x a IH]; [done |].
  change (String x ((a +:+ b) +:+ c) = String x (a +:+ (b +:+ c))).
  by rewrite IH.
Qed.

Lemma append_length (a b : string) :
  String.length (a +:+ b) = String.length a + String.length b.
Proof.
  induction a as [| x a IH]; [done |].
  change (S (String.length (a +:+ b))
          = S (String.length a + String.length b)).
  by rewrite IH.
Qed.

Lemma append_cons (x : ascii) (a b : string) :
  String x a +:+ b = String x (a +:+ b).
Proof. reflexivity. Qed.

Lemma lstrip_space_app (ws s : string) :
  all_space ws = true -> lstrip (ws +:+ s) = lstrip s.
Proof.
  induction ws as [| c ws IH]; [done |]. cbn [all_space].
  intros [Hc Hws]%andb_prop. rewrite append_cons. cbn [lstrip].
  rewrite Hc. by apply IH.
Qed.

Lemma rstrip_space (ws : string) : all_space ws = true -> rstrip ws = "".
Proof.
  induction ws as [| c ws IH]; [done |]. cbn [all_space].
  intros [Hc Hws]%andb_prop. cbn [rstrip]. by rewrite (IH Hws), Hc.
Qed.

Lemma rstrip_app_space (s ws : string) :
  all_space ws = true -> rstrip (s +:+ ws) = rstrip s.
Proof.
  intros Hws. induction s as [| c s IH]; [by apply rstrip_space |].
  rewrite append_cons. cbn [rstrip]. by rewrite IH.
Qed.

Lemma rstrip_app_keep (s t : string) :
  rstrip t <> "" -> rstrip (s +:+ t) = s +:+ rstrip t.
Proof.
  intros Ht. induction s as [| c s IH]; [done |].
  rewrite !append_cons. cbn [rstrip]. rewrite IH.
  destruct (s +:+ rstrip t) eqn:E; [| done].
  destruct s; [by destruct Ht | discriminate].
Qed.

Lemma lstrip_length (s : string) :
  String.length (lstrip s) <= String.length s.
Proof.
  induction s as [| c s IH]; [done |]. cbn [lstrip].
  destruct (isspace c); cbn [String.length]; lia.
Qed.

Lemma rstrip_length (s : string) :
  String.length (rstrip s) <= String.length s.
Proof.
  induction s as [| c s IH]; [done |]. cbn [rstrip].
  destruct (rstrip s); [destruct (isspace c) |];
    cbn [String.length] in *; lia.
Qed.

(** A non-empty string that [strip] leaves alone starts and ends with
    characters that are not white space. *)
Lemma stripped_ends (body : string) :
  strip body = body -> body <> "" ->
  (exists c r, body = String c r /\ isspace c = false)
  /\ rstrip body = body.
Proof.
  intros Hstrip Hne. destruct body as [| c r]; [done |].
  unfold strip in Hstrip. cbn [lstrip] in Hstrip.
  destruct (isspace c) eqn:Hc.
  - pose proof (rstrip_length (lstrip r)) as H1.
    pose proof (lstrip_length r) as H2.
    rewrite Hstrip in H1. cbn [String.length] in H1. lia.
  - split; [by exists c, r | done].
Qed.

Lemma slice_from_app (a b : string) :
  slice_from (String.length a) (a +:+ b) = b.
Proof. induction a as [| x a IH]; [by destruct b | done]. Qed.

Lemma slice_to_app (a b : string) :
  slice_to (String.length a) (a +:+ b) = a.
Proof.
  induction a as [| x a IH]; [by destruct b |].
  rewrite append_cons. cbn [String.length slice_to]. by rewrite IH.
Qed.

Lemma prefix_app (p s : string) : String.prefix p (p +:+ s) = true.
Proof.
  induction p as [| x p IH]; [by destruct s |].
  rewrite append_cons. cbn [String.prefix].
  by destruct (ascii_dec x x).
Qed.

Lemma endswith_app (s p : string) : endswith p (s +:+ p) = true.
Proof.
  unfold endswith. rewrite append_length.
  replace (String.length s + String.length p - String.length p)
    with (String.length s) by lia.
  rewrite slice_from_app, String.eqb_refl.
  apply andb_true_intro. split; [apply Nat.leb_le; lia | done].
Qed.

Lemma slice_drop_last_app (s p : string) :
  slice_drop_last (String.length p) (s +:+ p) = s.
Proof.
  unfold slice_drop_last. rewrite append_length.
  replace (String.length s + String.length p - String.length p)
    with (String.length s) by lia.
  apply slice_to_app.
Qed.

(** White space is neither a backquote nor part of the tag. *)
Lemma space_not_fence (w : ascii) (r : string) :
  isspace w = true ->
  startswith fence (String w r) = false
  /\ startswith "```json" (fence +:+ String w r) = false.
Proof.
  intros Hw. unfold startswith, fence. cbn [String.prefix append].
  split.
  - destruct (ascii_dec _ w) as [<- |]; [discriminate | done].
  - change ("```" +:+ String w r)
      with (String "`" (String "`" (String "`" (String w r)))).
    cbn [String.prefix].
    repeat (destruct (ascii_dec _ _); [| done]).
    subst w. discriminate.
Qed.

Lemma strip_padded (ws1 body ws2 : string) :
  all_space ws1 = true -> all_space ws2 = true ->
  strip body = body -> body <> "" ->
  strip (ws1 +:+ body +:+ ws2) = body.
Proof.
  intros H1 H2 Hb Hne.
  destruct (stripped_ends body Hb Hne) as [(c & r & -> & Hc) Hr].
  unfold strip. rewrite lstrip_space_app by done.
  rewrite append_cons. cbn [lstrip]. rewrite Hc, <- append_cons.
  by rewrite rstrip_app_space.
Qed.

Lemma prefix_fence_json (s : string) :
  startswith "```json" s = true -> startswith fence s = true.
Proof.
  unfold startswith, fence.
  destruct s as [| a [| b [| c s]]]; cbn [String.prefix]; try done;
    repeat (destruct (ascii_dec _ _); [| done]); try done.
  by destruct s.
Qed.

(** The text between the fences, after the opening fence has been
    removed. *)
Lemma strip_fences_closing (ws2 body ws3 : string) (w : ascii) :
  isspace w = true -> all_space ws2 = true -> all_space ws3 = true ->
  strip body = body -> body <> "" ->
  let content := String w ws2 +:+ body +:+ ws3 +:+ fence in
  strip (if endswith fence content then slice_drop_last 3 content
         else content)
  = body.
Proof.
  intros Hw H2 H3 Hb Hne content. subst content.
  rewrite <- !append_assoc. rewrite endswith_app.
  change 3 with (String.length fence). rewrite slice_drop_last_app.
  rewrite append_assoc. apply strip_padded; try done.
  cbn [all_space]. by rewrite Hw, H2.
Qed.

(** X16.  The fence stripping of both clients unwraps fenced JSON.  Let
    [body] be a non-empty text without white space at its ends.  If the
    generated text is [body] between an opening fence, bare or tagged
    [json] and followed by white space (a line break), and a closing
    fence, with any white space around, then the text handed to
    [json.loads] is [body]; and if the generated text is [body] itself
    with white space around, and [body] neither starts nor ends with a
    fence, the text handed to [json.loads] is [body] again.  So the
    inner parse gives the same result for the fenced and the bare
    text. *)
Theorem fenced_content_unwrapped (json_loads : string -> option json)
  (tag ws1 ws2 body ws3 ws4 : string) :
  tag = "json" \/ tag = "" ->
  all_space ws1 = true -> all_space ws2 = true ->
  all_space ws3 = true -> all_space ws4 = true ->
  ws2 <> "" ->
  strip body = body -> body <> "" ->
  strip_fences (fenced tag ws1 ws2 body ws3 ws4) = body
  /\ (startswith fence body = false -> endswith fence body = false ->
      strip_fences (ws1 +:+ body +:+ ws4) = body
      /\ parse_content json_loads (fenced tag ws1 ws2 body ws3 ws4)
         = parse_content json_loads (ws1 +:+ body +:+ ws4)).
Proof.
  intros Htag H1 H2 H3 H4 Hne2 Hb Hne.
  destruct ws2 as [| w ws2]; [done |]. cbn [all_space] in H2.
  apply andb_prop in H2 as [Hw H2].
  assert (Hfenced : strip_fences (fenced tag ws1 (String w ws2) body ws3
                                         ws4) = body).
  { unfold strip_fences, fenced.
    assert (Hstrip : strip (ws1 +:+ fence +:+ tag +:+ String w ws2 +:+ body
                                +:+ ws3 +:+ fence +:+ ws4)
                     = fence +:+ tag +:+ String w ws2 +:+ body +:+ ws3
                       +:+ fence).
    { unfold strip. rewrite lstrip_space_app by done.
      change (lstrip (fence +:+ ?x)) with (fence +:+ x).
      replace (fence +:+ tag +:+ String w ws2 +:+ body +:+ ws3 +:+ fence
               +:+ ws4)
        with (((fence +:+ tag +:+ String w ws2 +:+ body +:+ ws3)
               +:+ fence) +:+ ws4)
        by (by rewrite !append_assoc).
      rewrite rstrip_app_space by done.
      rewrite rstrip_app_keep by done.
      by rewrite !append_assoc. }
    rewrite Hstrip.
    pose proof (strip_fences_closing ws2 body ws3 w Hw H2 H3 Hb Hne)
      as Hclosing. cbv zeta in Hclosing.
    assert (Hnofence : startswith "```" (String w ws2 +:+ body +:+ ws3
                                         +:+ fence) = false).
    { rewrite append_cons. apply (space_not_fence w _ Hw). }
    set (inner := String w ws2 +:+ body +:+ ws3 +:+ fence) in *.
    destruct Htag as [-> | ->].
    - change (fence +:+ "json" +:+ inner) with ("```json" +:+ inner).
      assert (E1 : startswith "```json" ("```json" +:+ inner) = true)
        by apply prefix_app.
      assert (E2 : slice_from 7 ("```json" +:+ inner) = inner)
        by apply (slice_from_app "```json").
      by rewrite E1, E2, Hnofence.
    - change (fence +:+ "" +:+ inner) with (fence +:+ inner).
      assert (E1 : startswith "```json" (fence +:+ inner) = false).
      { subst inner. rewrite append_cons.
        apply (space_not_fence w _ Hw). }
      assert (E2 : startswith "```" (fence +:+ inner) = true)
        by apply prefix_app.
      assert (E3 : slice_from 3 (fence +:+ inner) = inner)
        by apply (slice_from_app fence).
      by rewrite E1, E2, E3. }
  split; [done |]. intros Hs He.
  assert (Hbare : strip_fences (ws1 +:+ body +:+ ws4) = body).
  { unfold strip_fences. rewrite strip_padded by done.
    destruct (startswith "```json" body) eqn:Ej.
    { apply prefix_fence_json in Ej. congruence. }
    unfold fence in Hs, He. by rewrite Hs, He. }
  split; [done |]. unfold parse_content. by rewrite Hfenced, Hbare.
Qed.

Lemma fenced_content_unwrapped_witness :
  strip_fences (fenced "json" "" (String newline "") "{}"
                       (String newline "") (String newline ""))
  = "{}".
Proof.
  refine (proj1 (fenced_content_unwrapped Samples.sample_json_loads "json"
                   "" (String newline "") "{}" (String newline "")
                   (String newline "") _ _ _ _ _ _ _ _));
    first [by left | reflexivity | discriminate].
Defined.

End FenceFacts.

(* ===================================================================== *)
(** ** Whole pipeline runs                                                *)
(* ===================================================================== *)

Module PipelineFacts.
Import Errors Db Engine Notions RunNotions RunTableFacts AttemptFacts
       LoopFacts RetryFacts Background PipelineNotions.

Lemma registered_order (objs : StageObjects) :
  _order (registered objs) = default_order
  /\ order_registered (registered objs).
Proof.
  split; [done |]. intros name Hin.
  change (_order (registered objs)) with default_order in Hin.
  unfold default_order in Hin.
  repeat (apply elem_of_cons in Hin as [-> | Hin]; [by eexists |]).
  by apply elem_of_nil in Hin.
Qed.

Section Engine.
Variables (self : PipelineEngine) (document_id : nat)
          (correlation_id : option string).

End Engine.



Lemma completed_results_lookup (names : list string)
  (results : gmap string string) (n : string) :
  fold_left (fun acc name => <[name := "completed"]> acc) names results
    !! n
  = if bool_decide (n ∈ names) then Some "completed" else results !! n.
Proof.
  revert results. induction names as [| name names IH]; intros results;
    [done |].
  cbn [fold_left]. rewrite IH.
  destruct (decide (n ∈ names)) as [Hin | Hout].
  - rewrite !bool_decide_eq_true_2; [done | by apply list_elem_of_further
                                     | done].
  - rewrite (bool_decide_eq_false_2 _ Hout).
    destruct (decide (n = name)) as [-> | Hne].
    + rewrite lookup_insert_eq.
      rewrite bool_decide_eq_true_2; [done | apply list_elem_of_here].
    + rewrite lookup_insert_ne by done.
      rewrite bool_decide_eq_false_2; [done |].
      intros [? | ?]%elem_of_cons; done.
Qed.

Lemma update_document_status_sets (document_id : nat) (status : string)
  (docs : list Document) :
  Forall (fun d => doc_id d = document_id -> doc_status d = status)
         (update_document_status document_id status docs).
Proof.
  unfold update_document_status. apply Forall_map, Forall_forall.
  intros d _. destruct (Nat.eqb_spec (doc_id d) document_id); [done |].
  intros Heq. by destruct n.
Qed.

Section HappyPath.
Variables (self : PipelineEngine) (document_id : nat)
          (correlation_id : option string).

Hypothesis stages_ok :
  forall name stage,
    _stages (registry self) !! name = Some stage ->
    keeps_run_tables stage /\ succeeds_for document_id stage.

(** A stage that returns is done after one attempt. *)
Lemma first_attempt_succeeds (name : string) (stage : PipelineStage)
  (w : World) :
  _stages (registry self) !! name = Some stage ->
  exists w',
    _execute_stage_with_retry self document_id name stage correlation_id
                              w = (Ok "completed", w')
    /\ trace w' = trace w ++ [EvExecute name document_id]
    /\ pipeline_runs (store w')
       = pipeline_runs (store w)
         ++ [completed_run (fresh_run_id (store w)) document_id name 1
                           correlation_id].
Proof.
  intros Hreg. destruct (stages_ok _ _ Hreg) as [Hkeeps Hok].
  destruct (stage document_id
              (started document_id name 1 correlation_id (store w)))
    as [o s'] eqn:Hst.
  pose proof (Hok (started document_id name 1 correlation_id (store w)))
    as Ho. rewrite Hst in Ho. cbn [fst] in Ho. subst o.
  pose proof (proj1 (Hkeeps document_id
                (started document_id name 1 correlation_id (store w))))
    as Hruns. rewrite Hst in Hruns. cbn [snd] in Hruns.
  eexists. unfold _execute_stage_with_retry. rewrite Nat.add_1_r.
  cbn [seq retry_loop]. unfold bind at 1.
  rewrite (attempt_once_success _ _ _ _ _ _ _ _ Hst).
  split; [reflexivity |]. split; [reflexivity |]. cbn [store].
  by apply (after_success_tables document_id name 1 correlation_id).
Qed.

Lemma run_stages_all_complete (names : list string) :
  forall results w,
    NoDup names ->
    (forall name, name ∈ names ->
                  is_Some (_stages (registry self) !! name)) ->
    (forall name, name ∈ names ->
                  ~ has_completed_run document_id name (store w)) ->
    exists w' rows,
      run_stages self document_id correlation_id names results w
      = (Ok (fold_left (fun acc name => <[name := "completed"]> acc)
                       names results), w')
      /\ trace w'
         = trace w ++ map (fun name => EvExecute name document_id) names
      /\ pipeline_runs (store w') = pipeline_runs (store w) ++ rows
      /\ map run_stage rows = names
      /\ Forall (first_attempt_completed document_id) rows.
Proof.
  induction names as [| name names IH]; intros results w Hnd Hreg Hnone.
  - exists w, []. by rewrite !app_nil_r.
  - apply NoDup_cons in Hnd as [Hnotin Hnd].
    destruct (Hreg name) as [stage Hstage]; [apply list_elem_of_here |].
    destruct (first_attempt_succeeds name stage w Hstage)
      as (w1 & Hrun & Htrace & Hruns).
    destruct (IH (<[name := "completed"]> results) w1 Hnd)
      as (w' & rows & Hrest & Htrace' & Hruns' & Hstages & Hrows).
    { intros n Hn. apply Hreg. by apply list_elem_of_further. }
    { intros n Hn (r & Hin & Hd & Hs & Hc). rewrite Hruns in Hin.
      apply elem_of_app in Hin as [Hin | Hin].
      - apply (Hnone n); [by apply list_elem_of_further |]. by exists r.
      - apply list_elem_of_singleton in Hin as ->.
        cbn [completed_run run_stage] in Hs. by subst n. }
    exists w', (completed_run (fresh_run_id (store w)) document_id name
                              1 correlation_id :: rows).
    split.
    + rewrite (StageFacts.run_stages_execute _ _ _ _ stage)
        by (try done; apply Hnone, list_elem_of_here).
      unfold bind at 1. by rewrite Hrun.
    + rewrite Htrace', Htrace, Hruns', Hruns, <- !app_assoc.
      cbn [map app]. rewrite Hstages.
      repeat split; try done. by constructor.
Qed.
End HappyPath.

(** X18.  The run in which nothing fails.  If every stage of the order
    is registered, the order has no repetition, every registered stage
    returns for the document and leaves the run table alone, and the
    document has no completed run yet, then [execute_pipeline] returns;
    its result maps each stage of the order to [completed] and holds
    nothing else; each stage was executed exactly once, in the order of
    the registry, and the engine never slept; the run table gained one
    row per stage, in that order, each completed at attempt 1; and the
    document ends with the status [completed]. *)
Theorem pipeline_all_stages_complete (self : PipelineEngine)
  (document_id : nat) (correlation_id : option string) (w : World) :
  (forall name stage,
     _stages (registry self) !! name = Some stage ->
     keeps_run_tables stage /\ succeeds_for document_id stage) ->
  order_registered (registry self) ->
  NoDup (_order (registry self)) ->
  (forall name, name ∈ _order (registry self) ->
                ~ has_completed_run document_id name (store w)) ->
  exists results w' rows,
    execute_pipeline self document_id correlation_id w = (Ok results, w')
    /\ (forall name,
          results !! name
          = if bool_decide (name ∈ _order (registry self))
            then Some "completed" else None)
    /\ trace w'
       = trace w ++ map (fun name => EvExecute name document_id)
                        (_order (registry self))
    /\ pipeline_runs (store w') = pipeline_runs (store w) ++ rows
    /\ map run_stage rows = _order (registry self)
    /\ Forall (first_attempt_completed document_id) rows
    /\ Forall (fun d => doc_id d = document_id ->
                        doc_status d = "completed")
              (documents (store w')).
Proof.
  intros Hok Hreg Hnd Hnone.
  destruct (run_stages_all_complete self document_id correlation_id Hok
              (_order (registry self)) ∅ w Hnd Hreg Hnone)
    as (w1 & rows & Hrun & Htrace & Hruns & Hstages & Hrows).
  eexists _, _, rows. split.
  { unfold execute_pipeline, get_ordered_stages. cbv zeta.
    unfold bind at 1. rewrite Hrun. reflexivity. }
  cbn [store trace pipeline_runs set_documents documents].
  split.
  { intros name. rewrite completed_results_lookup.
    by rewrite lookup_empty. }
  split; [done |]. split; [done |]. split; [done |]. split; [done |].
  apply update_document_status_sets.
Qed.

Lemma pipeline_all_stages_complete_witness :
  exists results w',
    execute_pipeline
      (set_registry
         (registered
            (mkStageObjects
               Stages.layout_normalization_execute
               Stages.layout_normalization_execute
               Stages.layout_normalization_execute
               Stages.layout_normalization_execute
               Stages.layout_normalization_execute
               Stages.layout_normalization_execute
               Stages.layout_normalization_execute
               Stages.layout_normalization_execute
               Stages.layout_normalization_execute))
         (Samples.two_stage_engine Stages.layout_normalization_execute
                                   false))
      1 None Samples.world1 = (Ok results, w')
    /\ results !! "validation" = Some "completed".
Proof.
  destruct (pipeline_all_stages_complete
              (set_registry
                 (registered
                    (mkStageObjects
                       Stages.layout_normalization_execute
                       Stages.layout_normalization_execute
                       Stages.layout_normalization_execute
                       Stages.layout_normalization_execute
                       Stages.layout_normalization_execute
                       Stages.layout_normalization_execute
                       Stages.layout_normalization_execute
                       Stages.layout_normalization_execute
                       Stages.layout_normalization_execute))
                 (Samples.two_stage_engine
                    Stages.layout_normalization_execute false))
              1 None Samples.world1)
    as (results & w' & rows & Hrun & Hres & _).
  - intros name stage Hl.
    cbn [set_registry registry registered register _stages new_registry]
      in Hl.
    repeat (apply lookup_insert_Some in Hl as [[_ <-] | [_ Hl]];
            [by repeat split |]).
    by rewrite lookup_empty in Hl.
  - apply registered_order.
  - apply (bool_decide_unpack _). by vm_compute.
  - intros name _ (r & Hin & _). by apply elem_of_nil in Hin.
  - exists results, w'. split; [done |]. by rewrite Hres.
Defined.

End PipelineFacts.

(* ===================================================================== *)
(** ** The chunks as groups of consecutive paragraphs                     *)
(* ===================================================================== *)

Module ChunkGroups.
Import Chunking ChunkingSpec ChunkNotions ChunkerFacts.

Lemma accumulate_greedy (self : ChunkingStage) (text : string) :
  accumulate self text = greedy_for self (paragraphs text) [].
Proof. unfold accumulate, paragraphs. by rewrite loop_refines. Qed.

Lemma paragraphs_nonempty (text : string) :
  Forall (fun p => p <> "") (paragraphs text).
Proof.
  unfold paragraphs. apply List.Forall_forall. intros p Hin.
  apply filter_In in Hin as [_ Hp]. by destruct p.
Qed.

Lemma join_length (g : list string) :
  g <> [] -> Forall (fun p => p <> "") g ->
  1 <= String.length (PyStr.join PyStr.nlnl g).
Proof.
  destruct g as [| p g]; [done |]. intros _ Hne.
  apply Forall_cons in Hne as [Hp _].
  assert (Hl : 1 <= String.length p) by (destruct p; [done | cbn; lia]).
  cbn [PyStr.join]. destruct g; [done |].
  rewrite FenceFacts.append_length. lia.
Qed.

Section Groups.
Variable self : ChunkingStage.

Lemma emitted_groups (groups : list (list string)) :
  flat_map (emit_if_long (min_chunk_size self)) groups
  = map (PyStr.join PyStr.nlnl) (List.filter (long_enough self) groups).
Proof.
  induction groups as [| g groups IH]; [done |].
  cbn [flat_map List.filter]. rewrite IH.
  unfold emit_if_long, long_enough.
  by destruct (min_chunk_size self <=? _).
Qed.

Lemma all_long (groups : list (list string)) :
  min_chunk_size self <= 1 ->
  Forall (fun g => g <> [] /\ Forall (fun p => p <> "") g) groups ->
  List.filter (long_enough self) groups = groups.
Proof.
  intros Hmin. induction 1 as [| g groups [Hg Hne] _ IH]; [done |].
  cbn [List.filter]. unfold long_enough at 1.
  pose proof (join_length g Hg Hne) as Hl.
  destruct (Nat.leb_spec (min_chunk_size self)
              (String.length (PyStr.join PyStr.nlnl g))); [| lia].
  by rewrite IH.
Qed.

(** Without overlap: the groups partition the paragraphs. *)
Lemma greedy_partition (paras : list string) :
  chunk_overlap self = 0 ->
  forall cur,
    cur <> [] ->
    group_tokens self cur <= chunk_size self \/ length cur = 1 ->
    Forall (fun p => p <> "") (cur ++ paras) ->
    exists groups,
      concat groups = cur ++ paras
      /\ Forall (fun g => (g <> [] /\ Forall (fun p => p <> "") g)
                          /\ (group_tokens self g <= chunk_size self
                              \/ length g = 1)) groups
      /\ greedy_for self paras cur = flat_map (emit_if_long (min_chunk_size self)) groups.
Proof.
  intros Hov. unfold greedy_for. rewrite Hov.
  induction paras as [| p paras IH]; intros cur Hcur Hinv Hne.
  - exists [cur]. cbn [concat flat_map greedy].
    rewrite !app_nil_r in *. split; [done |]. split.
    + constructor; [by repeat split | constructor].
    + by destruct cur.
  - cbn [greedy].
    assert (Hnil : negb (is_nil cur) = true) by by destruct cur.
    rewrite Hnil, andb_true_r.
    change (tokens_of (_count_tokens self) cur)
      with (group_tokens self cur).
    destruct (Nat.ltb_spec (chunk_size self)
                (group_tokens self cur + _count_tokens self p))
      as [Hgt | Hle].
    + cbn [seed Nat.ltb Nat.leb app].
      apply Forall_app in Hne as [Hc Hp].
      destruct (IH [p]) as (groups & Hcat & Hok & Hg);
        [done | by right | done |].
      exists (cur :: groups). cbn [concat flat_map].
      rewrite Hcat, Hg. split; [done |]. split; [| done].
      by constructor.
    + destruct (IH (cur ++ [p])) as (groups & Hcat & Hok & Hg).
      * by destruct cur.
      * left. unfold group_tokens.
        rewrite map_app, list_sum_app. cbn. unfold group_tokens in Hle.
        lia.
      * by rewrite <- app_assoc.
      * exists groups. rewrite Hcat, <- app_assoc. by repeat split.
Qed.

(** With overlap: each group starts with the last paragraph of the
    group before, and the first group starts with the chunk under
    construction. *)
Lemma greedy_chain (paras : list string) :
  0 < chunk_overlap self ->
  forall cur,
    cur <> [] ->
    group_tokens self cur <= chunk_size self \/ length cur <= 2 ->
    exists g0 groups,
      (exists more, g0 = cur ++ more)
      /\ covered (g0 :: groups) = cur ++ paras
      /\ overlapping (g0 :: groups)
      /\ Forall (fun g => g <> []
                          /\ (group_tokens self g <= chunk_size self
                              \/ length g <= 2)) (g0 :: groups)
      /\ Forall (fun g => 2 <= length g) groups
      /\ greedy_for self paras cur = flat_map (emit_if_long (min_chunk_size self)) (g0 :: groups).
Proof.
  intros Hov. unfold greedy_for.
  induction paras as [| p paras IH]; intros cur Hcur Hinv.
  - exists cur, []. cbn [covered map concat flat_map greedy overlapping].
    rewrite !app_nil_r. split; [by exists []; rewrite app_nil_r |].
    split; [done |]. split; [done |].
    split; [constructor; [by split | constructor] |].
    split; [done |]. by destruct cur.
  - cbn [greedy].
    assert (Hnil : negb (is_nil cur) = true) by by destruct cur.
    rewrite Hnil, andb_true_r.
    change (tokens_of (_count_tokens self) cur)
      with (group_tokens self cur).
    destruct (Nat.ltb_spec (chunk_size self)
                (group_tokens self cur + _count_tokens self p))
      as [Hgt | Hle].
    + unfold seed. apply Nat.ltb_lt in Hov as Hov'. rewrite Hov'.
      destruct (last cur) as [l |] eqn:Hlast.
      2: { apply last_None in Hlast. done. }
      destruct (IH [l; p]) as (g1 & groups & [more ->] & Hcov & Hchain
                               & Hok & Hlen & Hg);
        [done | right; cbn; lia |].
      exists cur, (([l; p] ++ more) :: groups).
      split; [by exists []; rewrite app_nil_r |].
      split.
      { cbn [covered map concat drop app] in *.
        injection Hcov as Hcov. by rewrite Hcov. }
      split; [split; [by exists l | done] |].
      split; [by constructor |].
      split; [constructor; [cbn; lia | done] |].
      cbn [flat_map app] in *. by rewrite Hg.
    + destruct (IH (cur ++ [p])) as (g1 & groups & [more ->] & Hcov
                                     & Hchain & Hok & Hlen & Hg).
      * by destruct cur.
      * left. unfold group_tokens.
        rewrite map_app, list_sum_app. cbn. unfold group_tokens in Hle.
        lia.
      * exists ((cur ++ [p]) ++ more), groups.
        split; [exists (p :: more); by rewrite <- app_assoc |].
        split; [by rewrite Hcov, <- app_assoc |]. done.
Qed.
End Groups.

(** X19.  Without overlap the chunks are consecutive groups of the
    text's paragraphs.  When [chunk_overlap] is 0, the trimmed,
    non-empty paragraphs of the text split into consecutive non-empty
    groups, in order and without repetition, such that every group
    stays within [chunk_size] tokens unless it is a single paragraph,
    and the chunks the loop produces are the joined texts of the groups
    that have at least [min_chunk_size] characters.  With
    [min_chunk_size] at most 1 no group is dropped: every paragraph is
    in exactly one chunk. *)
Theorem chunks_partition_paragraphs (self : ChunkingStage)
  (text : string) :
  chunk_overlap self = 0 ->
  exists groups,
    concat groups = paragraphs text
    /\ Forall (fun g => g <> []
                        /\ (group_tokens self g <= chunk_size self
                            \/ length g = 1)) groups
    /\ accumulate self text
       = map (PyStr.join PyStr.nlnl)
             (List.filter (long_enough self) groups)
    /\ (min_chunk_size self <= 1 ->
        accumulate self text = map (PyStr.join PyStr.nlnl) groups).
Proof.
  intros Hov. rewrite accumulate_greedy.
  pose proof (paragraphs_nonempty text) as Hne.
  destruct (paragraphs text) as [| p paras].
  { exists []. by repeat split. }
  destruct (greedy_partition self paras Hov [p])
    as (groups & Hcat & Hok & Hg); [done | by right | done |].
  exists groups. split; [done |].
  assert (Hrun : greedy_for self (p :: paras) []
                 = flat_map (emit_if_long (min_chunk_size self)) groups).
  { rewrite <- Hg. unfold greedy_for. cbn [greedy is_nil negb].
    by rewrite andb_false_r. }
  rewrite Hrun, emitted_groups. split.
  { eapply Forall_impl; [exact Hok |]. by intros g [[Hg0 _] Hb]. }
  split; [done |]. intros Hmin. rewrite all_long; [done | done |].
  eapply Forall_impl; [exact Hok |]. by intros g [Hg0 _].
Qed.

Lemma chunks_partition_paragraphs_witness :
  exists groups,
    concat groups = paragraphs MoreSamples.two_paragraphs
    /\ accumulate MoreSamples.plain_chunker MoreSamples.two_paragraphs
       = map (PyStr.join PyStr.nlnl) groups.
Proof.
  destruct (chunks_partition_paragraphs MoreSamples.plain_chunker
              MoreSamples.two_paragraphs eq_refl)
    as (groups & Hcat & _ & _ & Hall).
  exists groups. split; [exact Hcat |]. apply Hall. cbn. lia.
Defined.

(** X20.  With overlap each chunk starts with the last paragraph of the
    chunk before.  When [chunk_overlap] is positive, the paragraphs of
    the text are covered by a chain of non-empty groups: each group
    after the first starts with the last paragraph of the group before
    it and adds at least one paragraph, and the first group followed by
    what the later groups add is the list of paragraphs, in order.
    Every group stays within [chunk_size] tokens unless it has at most
    two paragraphs.  The chunks are the joined texts of the groups that
    have at least [min_chunk_size] characters. *)
Theorem chunks_overlap_by_one_paragraph (self : ChunkingStage)
  (text : string) :
  0 < chunk_overlap self ->
  exists groups,
    covered groups = paragraphs text
    /\ overlapping groups
    /\ Forall (fun g => g <> []
                        /\ (group_tokens self g <= chunk_size self
                            \/ length g <= 2)) groups
    /\ Forall (fun g => 2 <= length g) (drop 1 groups)
    /\ accumulate self text
       = map (PyStr.join PyStr.nlnl)
             (List.filter (long_enough self) groups).
Proof.
  intros Hov. rewrite accumulate_greedy.
  destruct (paragraphs text) as [| p paras].
  { exists []. by repeat split. }
  destruct (greedy_chain self paras Hov [p])
    as (g0 & groups & _ & Hcov & Hchain & Hok & Hlen & Hg);
    [done | right; cbn; lia |].
  exists (g0 :: groups). split; [done |]. split; [done |].
  split; [done |]. split; [done |].
  rewrite <- emitted_groups, <- Hg. unfold greedy_for.
  cbn [greedy is_nil negb]. by rewrite andb_false_r.
Qed.

Lemma chunks_overlap_by_one_paragraph_witness :
  exists groups,
    covered groups = paragraphs MoreSamples.two_paragraphs
    /\ overlapping groups
    /\ accumulate Samples.small_chunker MoreSamples.two_paragraphs
       = map (PyStr.join PyStr.nlnl)
             (List.filter (long_enough Samples.small_chunker) groups).
Proof.
  destruct (chunks_overlap_by_one_paragraph Samples.small_chunker
              MoreSamples.two_paragraphs)
    as (groups & Hcov & Hchain & _ & _ & Hacc).
  - cbn. lia.
  - exists groups. by repeat split.
Defined.

End ChunkGroups.

(* ===================================================================== *)
(** ** What the failed runs record                                        *)
(* ===================================================================== *)

Module FailureRecords.
Import Errors Db Engine Notions RunNotions RunTableFacts AttemptFacts
       LoopFacts RetryFacts ErrorFacts.


Section Loop.
Variables (self : PipelineEngine) (document_id : nat)
          (stage_name : string) (stage : PipelineStage)
          (correlation_id : option string).
Hypothesis stage_keeps_run_tables : keeps_run_tables stage.

End Loop.



End FailureRecords.

(* ===================================================================== *)
(** ** The classification of errors                                       *)
(* ===================================================================== *)

Module ClassifyFacts.
Import Errors ErrorNotions ErrorFacts.





End ClassifyFacts.

(* ===================================================================== *)
(** ** The schema registry                                                *)
(* ===================================================================== *)

Module SchemaFacts.
Import Errors LLM Schemas ErrorFacts.

Section Registry.
Variable files : string -> SchemaFile.
Variable json_loads : string -> option json.

Lemma load_schema_ok (schema_version : string) (self self' : SchemaRegistry)
  (schema : json) :
  load_schema files json_loads schema_version self = (Ok schema, self') ->
  is_dict schema = true
  /\ self' = mkSchemaRegistry (<[schema_version := schema]> (_cache self))
  /\ exists text, files schema_version = Text text
                  /\ json_loads text = Some schema.
Proof.
  unfold load_schema.
  destruct (files schema_version) as [| name msg | text]; try done.
  destruct (json_loads text) as [parsed |] eqn:Hp; [| done].
  destruct (is_dict parsed) eqn:Hd; cbn [negb]; [| done].
  intros [= <- <-]. eauto.
Qed.

Lemma load_schema_raises (schema_version : string)
  (self self' : SchemaRegistry) (e : Exception) :
  load_schema files json_loads schema_version self = (Raise e, self') ->
  self' = self.
Proof.
  unfold load_schema.
  destruct (files schema_version) as [| name msg | text];
    try by intros [= _ <-].
  destruct (json_loads text) as [parsed |]; [| by intros [= _ <-]].
  destruct (negb (is_dict parsed)); [by intros [= _ <-] | done].
Qed.

Lemma get_schema_cases (schema_version : string)
  (self self' : SchemaRegistry) (r : Result json) :
  get_schema files json_loads schema_version self = (r, self') ->
  (exists schema,
     r = Ok schema /\ _cache self !! schema_version = Some schema
     /\ self' = self)
  \/ (exists schema text,
        r = Ok schema /\ _cache self !! schema_version = None
        /\ files schema_version = Text text
        /\ json_loads text = Some schema /\ is_dict schema = true
        /\ self' = mkSchemaRegistry
                     (<[schema_version := schema]> (_cache self)))
  \/ (exists msg,
        r = Raise (mkException SchemaRegistryError msg []) /\ self' = self
        /\ _cache self !! schema_version = None
        /\ msg <> "Invalid schema format: " +:+ schema_version).
Proof.
  unfold get_schema.
  destruct (_cache self !! schema_version) as [cached |] eqn:Hc.
  { intros [= <- <-]. left. eauto. }
  assert (Hmsg : forall e s,
            (if isinstance e (Builtin "JSONDecodeError")
             then (@error json SchemaRegistryError
                     ("Invalid JSON in schema: " +:+ schema_version), s)
             else (@error json SchemaRegistryError
                     ("Failed to load schema: " +:+ schema_version), s))
            = (r, self') ->
            exists msg,
              r = Raise (mkException SchemaRegistryError msg [])
              /\ self' = s
              /\ msg <> "Invalid schema format: " +:+ schema_version).
  { intros e s. destruct (isinstance _ _); intros [= <- <-];
      eexists; (split; [reflexivity |]); (split; [reflexivity |]);
      intros H; vm_compute in H; discriminate. }
  destruct (files schema_version) as [| name msg | text] eqn:Hf.
  - intros [= <- <-]. right. right. eexists.
    split; [reflexivity |]. split; [done |]. split; [done |].
    intros H. vm_compute in H. discriminate.
  - destruct (load_schema files json_loads schema_version self)
      as [[schema | e] s] eqn:Hl.
    + apply load_schema_ok in Hl as (_ & _ & text & Ht & _). congruence.
    + apply load_schema_raises in Hl as ->. intros H.
      apply Hmsg in H as (m & -> & -> & Hm). right. right. eauto.
  - destruct (load_schema files json_loads schema_version self)
      as [[schema | e] s] eqn:Hl.
    + apply load_schema_ok in Hl as (Hd & -> & text' & Ht & Hp).
      intros [= <- <-]. right. left. exists schema, text'.
      rewrite <- Ht, Hf at 1. by repeat split.
    + apply load_schema_raises in Hl as ->. intros H.
      apply Hmsg in H as (m & -> & -> & Hm). right. right. eauto.
Qed.
End Registry.

(** X23.  [SchemaRegistry.get_schema].  Every error it raises is a
    [SchemaRegistryError], which the engine does not retry, and a failed
    call leaves the cache as it was; the [Invalid schema format] error
    raised for a schema that is not a JSON object never reaches the
    caller, being caught and raised again as [Failed to load schema].
    A call that returns leaves the schema cached under its version and
    the other entries alone; from then on the same schema is returned
    whatever the files hold, without changing the cache.  If every
    cached schema is a dictionary this stays so, and every schema
    returned is a dictionary. *)
Theorem get_schema_caches_dictionaries (files : string -> SchemaFile)
  (json_loads : string -> option json) (schema_version : string)
  (self self' : SchemaRegistry) (r : Result json) :
  get_schema files json_loads schema_version self = (r, self') ->
  (forall e, r = Raise e ->
             exc_class e = SchemaRegistryError /\ is_retryable e = false
             /\ self' = self
             /\ exc_message e
                <> "Invalid schema format: " +:+ schema_version)
  /\ (forall schema,
        r = Ok schema ->
        _cache self' !! schema_version = Some schema
        /\ (forall other, other <> schema_version ->
                          _cache self' !! other = _cache self !! other)
        /\ forall files' json_loads',
             get_schema files' json_loads' schema_version self'
             = (Ok schema, self'))
  /\ (cache_of_dicts self ->
      cache_of_dicts self'
      /\ forall schema, r = Ok schema -> is_dict schema = true).
Proof.
  intros Hrun.
  apply get_schema_cases in Hrun
    as [(schema & -> & Hc & ->)
       | [(schema & text & -> & Hc & Hf & Hp & Hd & ->)
         | (msg & -> & -> & Hc & Hmsg)]].
  - split; [done |]. split.
    + intros s [= <-]. split; [done |]. split; [done |].
      intros files' json_loads'. unfold get_schema. by rewrite Hc.
    + intros Hdicts. split; [done |]. intros s [= <-].
      by apply (Hdicts schema_version).
  - split; [done |]. split.
    + intros s [= <-]. cbn [_cache]. split; [apply lookup_insert_eq |].
      split; [intros other Hne; by apply lookup_insert_ne |].
      intros files' json_loads'. unfold get_schema. cbn [_cache].
      by rewrite lookup_insert_eq.
    + intros Hdicts. split; [| by intros s [= <-]].
      intros v s. cbn [_cache]. intros Hl.
      apply lookup_insert_Some in Hl as [[_ <-] | [_ Hl]]; [done |].
      by apply (Hdicts v).
  - split; [| split; [done |]].
    + intros e [= <-]. cbn [exc_class exc_message].
      split; [done |]. split; [| done].
      destruct (is_retryable _) eqn:E; [| done].
      by apply is_retryable_iff in E.
    + intros Hdicts. split; [done | done].
Qed.

Lemma get_schema_caches_dictionaries_witness :
  exists self',
    get_schema MoreSamples.schema_files MoreSamples.schema_json_loads
               "invoice_v1" new_schema_registry = (Ok (JDict []), self')
    /\ get_schema (fun _ => Missing) MoreSamples.schema_json_loads
                  "invoice_v1" self' = (Ok (JDict []), self').
Proof.
  eexists. split; [reflexivity |].
  exact (proj2 (proj2 (proj1 (proj2
           (get_schema_caches_dictionaries MoreSamples.schema_files
              MoreSamples.schema_json_loads "invoice_v1"
              new_schema_registry _ _ eq_refl)) (JDict []) eq_refl))
           (fun _ => Missing) MoreSamples.schema_json_loads).
Defined.

End SchemaFacts.
